(** * gantt-canvas: the scheduling core, embedded and verified

    A shallow embedding of the engine of the Gantt chart: the viewport
    transform, the spatial and relational indexes, the task store with its
    bounded undo history and the drag state machine.

    Numbers.  A JavaScript [number] is modelled by an exact rational in
    canonical form ([Qc]), so that two numbers are equal exactly when they
    are the same value.  Rounding error of the binary64 format is not
    modelled, and neither are [NaN] and the infinities: a division whose
    divisor is zero leaves the model, and a statement about an action that
    divides carries the hypothesis that the divisor is not zero. *)

From Stdlib Require Import QArith Qcanon Qround Qreduction ZArith Lia Lqa.
From stdpp Require Import base option list gmap strings numbers relations.

Set Warnings "-clear-no-such-hyp".

Local Open Scope Qc_scope.

(** ** Numbers *)

Module Num.

Definition of_Z (n : Z) : Qc := Qc_of_Z n.
Definition frac (n : Z) (d : positive) : Qc := Q2Qc (n # d).

(** [Math.max] and [Math.min] on two finite arguments. *)
Definition Math_max (a b : Qc) : Qc := if Qclt_le_dec a b then b else a.
Definition Math_min (a b : Qc) : Qc := if Qclt_le_dec b a then b else a.

(** [Math.round]: the nearest integer, a tie going up. *)
Definition Math_round (x : Qc) : Qc := of_Z (Qfloor (x + frac 1 2)).

Definition MS_PER_HOUR : Qc := of_Z 60 * of_Z 60 * of_Z 1000.

(** A number the source tests with [>=]. *)
Definition geb (a b : Qc) : bool := if Qclt_le_dec a b then false else true.

Definition is_integer (x : Qc) : Prop := of_Z (Qfloor x) = x.

End Num.
Export Num.

(** ** The data model ([types/index.ts]) *)

Abbreviation TaskId := string.
Abbreviation ResourceId := string.
Abbreviation OrderId := string.
Abbreviation DependencyId := string.
Abbreviation GroupId := string.

Inductive PhaseType := setup | execution | cleanup.

Record TaskPhase := mkPhase {
  phase_type : PhaseType;
  duration : Qc;                      (* in minutes *)
  phase_color : option string
}.

Inductive DependencyType := FS | FF | SS | SF.

Record TaskDependency := mkDependency {
  dep_id : DependencyId;
  predecessorId : TaskId;
  successorId : TaskId;
  dep_type : DependencyType;
  lag : Qc
}.

Inductive ResourceType := operator | machine | generic.

Record Resource := mkResource {
  res_id : ResourceId;
  res_name : string;
  res_type : ResourceType;
  capacity : Qc;
  res_groupId : option GroupId
}.

Record ResourceGroup := mkGroup {
  group_id : GroupId;
  group_name : string;
  group_type : ResourceType
}.

Record Order := mkOrder {
  order_id : OrderId;
  order_name : string;
  order_priority : Qc
}.

Inductive TaskStatus := scheduled | in_progress | completed | blocked.

Record Constraints := mkConstraints {
  earliestStart : option Qc;
  latestEnd : option Qc;
  fixedTime : option bool             (* cannot be moved by drag *)
}.

(** [StoredTask]: a task without its computed fields.  The untyped
    [metadata] payload is left out. *)
Record StoredTask := mkStored {
  id : TaskId;
  startTime : Qc;                     (* Unix timestamp in milliseconds *)
  phases : list TaskPhase;
  resourceId : ResourceId;
  orderId : OrderId;
  name : string;
  description : option string;
  color : option string;
  priority : Qc;
  status : TaskStatus;
  progress : Qc;
  constraints : option Constraints
}.

(** [Task]: a stored task with the two cached fields [hydrateTask] fills. *)
Record Task := mkTask {
  stored :> StoredTask;
  _endTime : Qc;
  _totalDuration : Qc                 (* in minutes *)
}.

(** [Partial<StoredTask>]: a field that is absent is [None]. *)
Record TaskUpdates := mkUpdates {
  u_id : option TaskId;
  u_startTime : option Qc;
  u_phases : option (list TaskPhase);
  u_resourceId : option ResourceId;
  u_orderId : option OrderId;
  u_name : option string;
  u_description : option string;
  u_color : option string;
  u_priority : option Qc;
  u_status : option TaskStatus;
  u_progress : option Qc;
  u_constraints : option Constraints
}.

Definition no_updates : TaskUpdates :=
  mkUpdates None None None None None None None None None None None None.

Inductive ZoomLevel := hour | day | week | month.

Record ViewportState := mkViewport {
  scrollX : Qc;
  timeOrigin : Qc;
  pixelsPerHour : Qc;
  scrollY : Qc;
  rowHeight : Qc;
  width : Qc;
  height : Qc;
  zoomLevel : ZoomLevel
}.

Record VirtualRow := mkRow {
  row_id : string;
  row_resourceId : option ResourceId;
  virtualY : Qc;
  row_height : Qc;
  isGroupHeader : bool;
  groupId : option string;
  groupName : option string;
  isCollapsed : option bool
}.

Inductive DragType := move | resize_start | resize_end | reassign.

Record DragState := mkDrag {
  drag_type : DragType;
  taskId : TaskId;
  originalTask : Task;
  previewStartTime : Qc;
  previewEndTime : Qc;
  previewResourceId : ResourceId;
  collisions : list TaskId;
  dependencyViolations : list (DependencyId * string);
  startX : Qc;
  startY : Qc;
  currentX : Qc;
  currentY : Qc
}.

Record SelectionState := mkSelection {
  sel_taskIds : gset string;
  sel_resourceIds : gset string;
  lastSelectedTaskId : option TaskId
}.

Inductive GroupingMode := by_order | by_resource_type | no_grouping.

Record GroupingState := mkGrouping {
  mode : GroupingMode;
  expandedGroups : gset string
}.

#[global] Instance PhaseType_eq_dec : EqDecision PhaseType.
Proof. solve_decision. Defined.
#[global] Instance TaskPhase_eq_dec : EqDecision TaskPhase.
Proof. solve_decision. Defined.
#[global] Instance DependencyType_eq_dec : EqDecision DependencyType.
Proof. solve_decision. Defined.
#[global] Instance TaskDependency_eq_dec : EqDecision TaskDependency.
Proof. solve_decision. Defined.
#[global] Instance TaskStatus_eq_dec : EqDecision TaskStatus.
Proof. solve_decision. Defined.
#[global] Instance Constraints_eq_dec : EqDecision Constraints.
Proof. solve_decision. Defined.
#[global] Instance StoredTask_eq_dec : EqDecision StoredTask.
Proof. solve_decision. Defined.
#[global] Instance Task_eq_dec : EqDecision Task.
Proof. solve_decision. Defined.
#[global] Instance DragType_eq_dec : EqDecision DragType.
Proof. solve_decision. Defined.
#[global] Instance DragState_eq_dec : EqDecision DragState.
Proof. solve_decision. Defined.

(** ** Task utilities *)

(** [phases.reduce((sum, phase) => sum + phase.duration, 0)] *)
Definition calculateTotalDuration (ps : list TaskPhase) : Qc :=
  foldl (λ sum phase, sum + duration phase) 0 ps.

Definition calculateEndTime (start : Qc) (ps : list TaskPhase) : Qc :=
  let totalMinutes := calculateTotalDuration ps in
  start + totalMinutes * of_Z 60 * of_Z 1000.

Definition hydrateTask (task : StoredTask) : Task :=
  let totalDuration := calculateTotalDuration (phases task) in
  mkTask task (startTime task + totalDuration * of_Z 60 * of_Z 1000) totalDuration.

(** The truth value of [task.constraints?.fixedTime]. *)
Definition is_fixedTime (task : Task) : bool :=
  match constraints task with
  | Some c => match fixedTime c with Some b => b | None => false end
  | None => false
  end.

(** ** The viewport transform ([engine/viewport-manager.ts]) *)

Module ViewportManager.


Definition xToTime (v : ViewportState) (x : Qc) : Qc :=
  let hoursFromOrigin := (x + scrollX v) / pixelsPerHour v in
  timeOrigin v + hoursFromOrigin * MS_PER_HOUR.





Definition ZOOM_SNAP_INTERVALS (z : ZoomLevel) : Qc :=
  match z with
  | hour => of_Z 15
  | day => of_Z 60
  | week => of_Z 360
  | month => of_Z 1440
  end.

Definition getSnapInterval (v : ViewportState) (minResolution : Qc) : Qc :=
  let zoomSnapMinutes := ZOOM_SNAP_INTERVALS (zoomLevel v) in
  let effectiveSnapMinutes := Math_max zoomSnapMinutes minResolution in
  effectiveSnapMinutes * of_Z 60 * of_Z 1000.

Definition snapToGrid (v : ViewportState) (timestamp minResolution : Qc) : Qc :=
  let interval := getSnapInterval v minResolution in
  Math_round (timestamp / interval) * interval.

End ViewportManager.

(** ** Viewport actions, the same text in both stores *)

Definition getZoomLevel (pph : Qc) : ZoomLevel :=
  if geb pph (of_Z 30) then hour
  else if geb pph (of_Z 5) then day
  else if geb pph (of_Z 1) then week
  else month.

Definition panViewport (deltaX deltaY : Qc) (v : ViewportState) : ViewportState :=
  mkViewport (Math_max 0 (scrollX v + deltaX)) (timeOrigin v) (pixelsPerHour v)
             (Math_max 0 (scrollY v + deltaY)) (rowHeight v) (width v) (height v)
             (zoomLevel v).

Definition zoomViewport (factor centerX : Qc) (v : ViewportState) : ViewportState :=
  let oldPixelsPerHour := pixelsPerHour v in
  let newPixelsPerHour :=
    Math_max (frac 1 4) (Math_min (of_Z 120) (oldPixelsPerHour * factor)) in
  let scrollXOffset := centerX + scrollX v in
  let timeOffset := scrollXOffset / oldPixelsPerHour in
  let newScrollX := timeOffset * newPixelsPerHour - centerX in
  mkViewport (Math_max 0 newScrollX) (timeOrigin v) newPixelsPerHour
             (scrollY v) (rowHeight v) (width v) (height v)
             (getZoomLevel newPixelsPerHour).


(** ** The R-tree ([rbush]) *)

Module RBush.

Record BBox := mkBBox { minX : Qc; minY : Qc; maxX : Qc; maxY : Qc }.

(** An indexed item: a box and the task it stands for. *)
Record Item := mkItem { box : BBox; item_taskId : TaskId }.

Definition leb (a b : Qc) : bool := if Qclt_le_dec b a then false else true.

(** The library's test, borders included:
    [b.minX <= a.maxX && b.minY <= a.maxY && b.maxX >= a.minX && b.maxY >= a.minY]. *)
Definition intersects (a b : BBox) : bool :=
  leb (minX b) (maxX a) && leb (minY b) (maxY a)
  && leb (minX a) (maxX b) && leb (minY a) (maxY b).

(** Modelled from the spec: the R-tree library is not among the sources.
    A query returns the items whose box intersects the query box (a point
    query those whose box contains the point); the tree is kept as the
    list of its items, since only the contents of a result matter here. *)
Abbreviation t := (list Item).
Definition clear (tree : t) : t := [].
Definition load (items : list Item) (tree : t) : t := tree ++ items.
Definition search (query : BBox) (tree : t) : list Item :=
  filter (λ it : Item, intersects query (box it) = true) tree.

End RBush.

(** ** The spatial index *)

Module SpatialIndex.

Record TaskBounds := mkBounds {
  b_minX : Qc;           (* start timestamp *)
  b_minY : Qc;           (* row top (virtual Y) *)
  b_maxX : Qc;           (* end timestamp *)
  b_maxY : Qc;           (* row bottom *)
  b_taskId : TaskId
}.

Record t := mkIndex {
  tree : RBush.t;
  taskBoundsMap : gmap string TaskBounds
}.

Definition empty : t := mkIndex [] ∅.

(** [if (row.resourceId)]: neither [null] nor the empty string. *)
Definition truthy (s : option string) : option string :=
  match s with
  | Some r => if decide (r = EmptyString) then None else Some r
  | None => None
  end.

Definition rowByResource (virtualRows : list VirtualRow) : gmap string VirtualRow :=
  foldl (λ m row,
           match truthy (row_resourceId row) with
           | Some r => <[r := row]> m
           | None => m
           end) ∅ virtualRows.

Definition boundsOf (task : Task) (row : VirtualRow) : TaskBounds :=
  mkBounds (startTime task) (virtualY row) (_endTime task)
           (virtualY row + row_height row) (id task).

Definition itemOf (bounds : TaskBounds) : RBush.Item :=
  RBush.mkItem (RBush.mkBBox (b_minX bounds) (b_minY bounds)
                             (b_maxX bounds) (b_maxY bounds))
               (b_taskId bounds).

(** The loop over the tasks: the bounds map and the items collected so far. *)
Definition rebuild_step (rows : gmap string VirtualRow)
    (acc : gmap string TaskBounds * list RBush.Item) (task : Task)
    : gmap string TaskBounds * list RBush.Item :=
  match rows !! resourceId task with
  | None => acc                                        (* continue *)
  | Some row =>
      let bounds := boundsOf task row in
      (<[id task := bounds]> (fst acc), snd acc ++ [itemOf bounds])
  end.

(** The items the loop collects, written as one comprehension. *)
Definition itemsOf (rows : gmap string VirtualRow) (tasks : list Task) : list RBush.Item :=
  omap (λ task : Task,
          (λ row, itemOf (boundsOf task row)) <$> rows !! resourceId task) tasks.

Definition rebuild (tasks : list Task) (virtualRows : list VirtualRow) (idx : t) : t :=
  let tree0 := RBush.clear (tree idx) in
  let rows := rowByResource virtualRows in
  let '(boundsMap, items) := foldl (rebuild_step rows) (∅, []) tasks in
  mkIndex (RBush.load items tree0) boundsMap.

Definition queryPoint (timestamp virtualY : Qc) (idx : t) : list TaskId :=
  let results := RBush.search (RBush.mkBBox timestamp virtualY timestamp virtualY)
                              (tree idx) in
  map RBush.item_taskId results.

Definition queryRect (minX minY maxX maxY : Qc) (idx : t) : list TaskId :=
  map RBush.item_taskId (RBush.search (RBush.mkBBox minX minY maxX maxY) (tree idx)).

Definition getTaskBounds (taskId : TaskId) (idx : t) : option TaskBounds :=
  taskBoundsMap idx !! taskId.

End SpatialIndex.

(** ** The relational index *)

Module IndexManager.

(** A JavaScript [Set] of ids: its elements in insertion order. *)
Definition set_add (x : string) (s : list string) : list string :=
  if decide (x ∈ s) then s else s ++ [x].

(** [if (!index.has(k)) index.set(k, new Set()); index.get(k)?.add(x)] *)
Definition index_add (k x : string) (index : gmap string (list string))
    : gmap string (list string) :=
  <[k := set_add x (default [] (index !! k))]> index.

(** The dependency part of the index: the two adjacency maps. *)
Record t := mkIndexes {
  predecessorIndex : gmap string (list string);   (* successor -> predecessors *)
  successorIndex : gmap string (list string)      (* predecessor -> successors *)
}.

Definition buildIndexes (dependencies : list TaskDependency) : t :=
  foldl (λ idx dep,
           mkIndexes
             (index_add (successorId dep) (predecessorId dep) (predecessorIndex idx))
             (index_add (predecessorId dep) (successorId dep) (successorIndex idx)))
        (mkIndexes ∅ ∅) dependencies.

Definition getPredecessors (idx : t) (taskId : TaskId) : list TaskId :=
  default [] (predecessorIndex idx !! taskId).

Definition getSuccessors (idx : t) (taskId : TaskId) : list TaskId :=
  default [] (successorIndex idx !! taskId).

Inductive Direction := predecessors | successors | both.

Definition wants_predecessors (d : Direction) : bool :=
  match d with predecessors | both => true | successors => false end.
Definition wants_successors (d : Direction) : bool :=
  match d with successors | both => true | predecessors => false end.

(** [for (const n of ns) if (!visited.has(n)) queue.push(n)] *)
Definition push_unvisited (visited ns queue : list TaskId) : list TaskId :=
  queue ++ filter (λ n, n ∉ visited) ns.

(** The two [if (direction === ...)] blocks of the loop body. *)
Definition enqueue_neighbours (idx : t) (direction : Direction)
    (visited : list TaskId) (current : TaskId) (queue : list TaskId) : list TaskId :=
  let queue :=
    if wants_predecessors direction
    then push_unvisited visited (getPredecessors idx current) queue
    else queue in
  let queue :=
    if wants_successors direction
    then push_unvisited visited (getSuccessors idx current) queue
    else queue in
  queue.

(** The [while (queue.length > 0)] loop; one unit of fuel per iteration. *)
Fixpoint chain_loop (fuel : nat) (idx : t) (direction : Direction)
    (visited queue : list TaskId) : option (list TaskId) :=
  match queue with
  | [] => Some visited
  | current :: queue =>
      match fuel with
      | O => None
      | S fuel =>
          if decide (current ∈ visited)
          then chain_loop fuel idx direction visited queue
          else
            let visited := visited ++ [current] in
            chain_loop fuel idx direction visited
                       (enqueue_neighbours idx direction visited current queue)
      end
  end.

(** The number of ids a map lists for [x]. *)
Definition degree (idx : t) (x : TaskId) : nat :=
  length (getPredecessors idx x) + length (getSuccessors idx x).

Definition nodes (idx : t) : list TaskId :=
  elements (dom (predecessorIndex idx) ∪ dom (successorIndex idx)).

(** What the ids not yet visited can still cost: one iteration to visit
    each, and one for every id it pushes. *)
Definition pending (idx : t) (visited : list TaskId) : nat :=
  sum_list (map (λ x, if decide (x ∈ visited) then O else S (degree idx x))
                (nodes idx)).

(** Enough iterations for any traversal of [idx]. *)
Definition chain_fuel (idx : t) : nat := S (pending idx []).

(** [visited.delete(taskId); return Array.from(visited)] *)
Definition getDependencyChain (idx : t) (taskId : TaskId) (direction : Direction)
    : option (list TaskId) :=
  visited ← chain_loop (chain_fuel idx) idx direction [] [taskId];
  Some (filter (λ x, x ≠ taskId) visited).

(** One step along the adjacency maps in the requested direction. *)
Definition edge (idx : t) (direction : Direction) (x y : TaskId) : Prop :=
  (wants_predecessors direction = true ∧ y ∈ getPredecessors idx x)
  ∨ (wants_successors direction = true ∧ y ∈ getSuccessors idx x).

Definition reachable (idx : t) (direction : Direction) : relation TaskId :=
  rtc (edge idx direction).

(** What holds of the visited set and the queue at every iteration. *)
Record chain_inv (idx : t) (direction : Direction) (origin : TaskId)
    (visited queue : list TaskId) : Prop := mkChainInv {
  inv_reach : ∀ x, x ∈ visited ∨ x ∈ queue → reachable idx direction origin x;
  inv_closed : ∀ x y, x ∈ visited → edge idx direction x y →
                      y ∈ visited ∨ y ∈ queue;
  inv_origin : origin ∈ visited ∨ origin ∈ queue;
  inv_nodup : NoDup visited
}.

End IndexManager.

(** ** Writing to a task *)

Definition with_stored (f : StoredTask → StoredTask) (task : Task) : Task :=
  mkTask (f (stored task)) (_endTime task) (_totalDuration task).

Definition set_startTime (x : Qc) (s : StoredTask) : StoredTask :=
  mkStored (id s) x (phases s) (resourceId s) (orderId s) (name s)
           (description s) (color s) (priority s) (status s) (progress s)
           (constraints s).

Definition set_resourceId (r : ResourceId) (s : StoredTask) : StoredTask :=
  mkStored (id s) (startTime s) (phases s) r (orderId s) (name s)
           (description s) (color s) (priority s) (status s) (progress s)
           (constraints s).

(** A field of [updates] that is present overwrites the task's. *)
Definition or_keep {A} (old : option A) (new : option A) : option A :=
  match new with Some x => Some x | None => old end.

(** [Object.assign(task, updates)] *)
Definition assign (task : Task) (u : TaskUpdates) : Task :=
  with_stored (λ s,
    mkStored (default (id s) (u_id u))
             (default (startTime s) (u_startTime u))
             (default (phases s) (u_phases u))
             (default (resourceId s) (u_resourceId u))
             (default (orderId s) (u_orderId u))
             (default (name s) (u_name u))
             (or_keep (description s) (u_description u))
             (or_keep (color s) (u_color u))
             (default (priority s) (u_priority u))
             (default (status s) (u_status u))
             (default (progress s) (u_progress u))
             (or_keep (constraints s) (u_constraints u))) task.

(** [task._totalDuration = calculateTotalDuration(task.phases);
     task._endTime = task.startTime + task._totalDuration * 60 * 1000] *)
Definition recompute (task : Task) : Task :=
  let totalDuration := calculateTotalDuration (phases task) in
  mkTask (stored task) (startTime task + totalDuration * of_Z 60 * of_Z 1000)
         totalDuration.

(** The derived fields of a task agree with its start and phases. *)
Definition derived_ok (task : Task) : Prop :=
  _totalDuration task = calculateTotalDuration (phases task)
  ∧ _endTime task = startTime task + _totalDuration task * of_Z 60 * of_Z 1000.

Definition tasks_ok (tasks : gmap string Task) : Prop :=
  ∀ k task, tasks !! k = Some task → derived_ok task.

(** ** The recipes on the task collection

    Both stores ([store/data-store.ts] and the combined store) hold the same
    text for these actions; each applies it to its own [tasks] field. *)

Module Recipes.

Definition setTasks (tasks : list StoredTask) : gmap string Task :=
  foldl (λ m task, <[id task := hydrateTask task]> m) ∅ tasks.

Definition addTask (task : StoredTask) (tasks : gmap string Task) : gmap string Task :=
  <[id task := hydrateTask task]> tasks.

(** The body of [if (task) { ... }] in [updateTask] and [updateTasks]. *)
Definition applyUpdates (updates : TaskUpdates) (task : Task) : Task :=
  let task := assign task updates in
  if bool_decide (is_Some (u_startTime updates) ∨ is_Some (u_phases updates))
  then recompute task
  else task.

Definition updateTask (taskId : TaskId) (updates : TaskUpdates)
    (tasks : gmap string Task) : gmap string Task :=
  match tasks !! taskId with
  | Some task => <[taskId := applyUpdates updates task]> tasks
  | None => tasks
  end.

Definition updateTasks (updates : list (TaskId * TaskUpdates))
    (tasks : gmap string Task) : gmap string Task :=
  foldl (λ m '(taskId, taskUpdates), updateTask taskId taskUpdates m) tasks updates.

(** The body of [if (task && !task.constraints?.fixedTime) { ... }]. *)
Definition moveTask (deltaTime : Qc) (newResourceId : option ResourceId)
    (task : Task) : Task :=
  let task := with_stored (set_startTime (startTime task + deltaTime)) task in
  let task := mkTask (stored task)
                     (startTime task + _totalDuration task * of_Z 60 * of_Z 1000)
                     (_totalDuration task) in
  match newResourceId with
  | Some r => with_stored (set_resourceId r) task
  | None => task
  end.

Definition moveTasks (taskIds : list TaskId) (deltaTime : Qc)
    (newResourceId : option ResourceId) (tasks : gmap string Task)
    : gmap string Task :=
  foldl (λ m taskId,
           match m !! taskId with
           | Some task =>
               if is_fixedTime task then m
               else <[taskId := moveTask deltaTime newResourceId task]> m
           | None => m
           end) tasks taskIds.

Definition deleteTask (taskId : TaskId) (tasks : gmap string Task) : gmap string Task :=
  delete taskId tasks.

(** [deleteTask] also drops the dependencies that name the task. *)
Definition dropDependenciesOf (taskId : TaskId)
    (dependencies : gmap string TaskDependency) : gmap string TaskDependency :=
  filter (λ kd, ¬ (predecessorId (snd kd) = taskId ∨ successorId (snd kd) = taskId))
         dependencies.

Definition setDependencies (deps : list TaskDependency) : gmap string TaskDependency :=
  foldl (λ m dep, <[dep_id dep := dep]> m) ∅ deps.

Definition setResources (rs : list Resource) : gmap string Resource :=
  foldl (λ m r, <[res_id r := r]> m) ∅ rs.

End Recipes.

(** ** The undo history ([zundo]'s [temporal]) *)

Module Temporal.
Section temporal.
Context {S : Type}.
(** The options the stores pass: the guard and the limit. *)
Context (equality : S → S → bool) (limit : nat).

(** Modelled from the spec: the undo middleware is a library and not among
    the sources.  It keeps the committed snapshots that led to the
    present state, oldest first and at most [limit] of them, and the
    snapshots undone, most recent last.  A write pushes the state it
    replaces unless [equality] holds of the old and the new state; the
    oldest snapshot is dropped when the history is full; undo and redo
    move one snapshot between the two lists and the present state. *)
Record t := mk {
  present : S;
  pastStates : list S;
  futureStates : list S
}.

Definition init (s : S) : t := mk s [] [].

Definition handleSet (pastState : S) (past : list S) : list S :=
  (if bool_decide (limit ≠ O ∧ (limit ≤ length past)%nat) then tail past else past)
  ++ [pastState].

Definition set (recipe : S → S) (st : t) : t :=
  let pastState := present st in
  let currentState := recipe pastState in
  if equality pastState currentState
  then mk currentState (pastStates st) (futureStates st)
  else mk currentState (handleSet pastState (pastStates st)) [].

Definition undo (st : t) : t :=
  match reverse (pastStates st) with
  | [] => st
  | nextState :: rest =>
      mk nextState (reverse rest) (futureStates st ++ [present st])
  end.

Definition redo (st : t) : t :=
  match reverse (futureStates st) with
  | [] => st
  | nextState :: rest =>
      mk nextState (pastStates st ++ [present st]) (reverse rest)
  end.

(** A property of every snapshot held: present, past and undone. *)
Definition all (P : S → Prop) (st : t) : Prop :=
  P (present st) ∧ Forall P (pastStates st) ∧ Forall P (futureStates st).

(** The two lists together never hold more than [limit] snapshots. *)
Definition within_limit (st : t) : Prop :=
  (length (pastStates st) + length (futureStates st) ≤ limit)%nat.

(** The state the oldest entry of the history leads back to. *)
Definition oldest (st : t) : S := hd (present st) (pastStates st).

End temporal.
Arguments t : clear implicits.
End Temporal.

(** ** The data store ([store/data-store.ts]) *)

Module DataStore.

Record State := mkState {
  tasks : gmap string Task;
  resources : gmap string Resource;
  dependencies : gmap string TaskDependency;
  orders : gmap string Order;
  groups : gmap string ResourceGroup;
  isLoading : bool;
  error : option string
}.

Definition initialState : State := mkState ∅ ∅ ∅ ∅ ∅ false None.

Definition on_tasks (f : gmap string Task → gmap string Task) (s : State) : State :=
  mkState (f (tasks s)) (resources s) (dependencies s) (orders s) (groups s)
          (isLoading s) (error s).

(** *** The recipes handed to [set] *)

Definition setTasks_recipe (ts : list StoredTask) : State → State :=
  on_tasks (λ _, Recipes.setTasks ts).
Definition addTask_recipe (task : StoredTask) : State → State :=
  on_tasks (Recipes.addTask task).
Definition updateTask_recipe (taskId : TaskId) (updates : TaskUpdates) : State → State :=
  on_tasks (Recipes.updateTask taskId updates).
Definition updateTasks_recipe (updates : list (TaskId * TaskUpdates)) : State → State :=
  on_tasks (Recipes.updateTasks updates).
Definition moveTasks_recipe (taskIds : list TaskId) (deltaTime : Qc)
    (newResourceId : option ResourceId) : State → State :=
  on_tasks (Recipes.moveTasks taskIds deltaTime newResourceId).
Definition deleteTask_recipe (taskId : TaskId) (s : State) : State :=
  mkState (Recipes.deleteTask taskId (tasks s)) (resources s)
          (Recipes.dropDependenciesOf taskId (dependencies s))
          (orders s) (groups s) (isLoading s) (error s).
Definition setResources_recipe (rs : list Resource) (s : State) : State :=
  mkState (tasks s) (Recipes.setResources rs) (dependencies s) (orders s)
          (groups s) (isLoading s) (error s).
Definition setDependencies_recipe (deps : list TaskDependency) (s : State) : State :=
  mkState (tasks s) (resources s) (Recipes.setDependencies deps) (orders s)
          (groups s) (isLoading s) (error s).
Definition setLoading_recipe (b : bool) (s : State) : State :=
  mkState (tasks s) (resources s) (dependencies s) (orders s) (groups s) b (error s).

(** *** The store under the undo middleware *)

(** The [equality] option: only [tasks] and [dependencies] are tracked.
    The source compares the two collections by identity.  Under the draft
    middleware an action that writes fields of a task ([moveTasks],
    [updateTask] on numbers and ids) leaves a collection identical exactly
    when every field keeps its value, which is the comparison by value
    made here; an action that rebuilds a collection ([setTasks]) or
    assigns a fresh array of phases gets a new identity even when the
    value is the same, a difference the model does not record. *)
Definition equality (pastState currentState : State) : bool :=
  bool_decide (tasks pastState = tasks currentState
               ∧ dependencies pastState = dependencies currentState).

Definition limit : nat := 50.

Abbreviation Store := (Temporal.t State).

Definition create : Store := Temporal.init initialState.

Definition set (recipe : State → State) : Store → Store :=
  Temporal.set equality limit recipe.

Definition getState (store : Store) : State := Temporal.present store.

Definition setTasks ts := set (setTasks_recipe ts).
Definition addTask task := set (addTask_recipe task).
Definition updateTask taskId updates := set (updateTask_recipe taskId updates).
Definition updateTasks updates := set (updateTasks_recipe updates).
Definition moveTasks taskIds deltaTime newResourceId :=
  set (moveTasks_recipe taskIds deltaTime newResourceId).
Definition deleteTask taskId := set (deleteTask_recipe taskId).
Definition setResources rs := set (setResources_recipe rs).
Definition setDependencies deps := set (setDependencies_recipe deps).
Definition setLoading b := set (setLoading_recipe b).

Definition undo : Store → Store := Temporal.undo.
Definition redo : Store → Store := Temporal.redo.

(** The part of a snapshot the history tracks. *)
Definition tracked (s : State) : gmap string Task * gmap string TaskDependency :=
  (tasks s, dependencies s).

(** A snapshot whose tasks all have their derived fields right. *)
Definition state_ok (s : State) : Prop := tasks_ok (tasks s).

End DataStore.

(** ** The drag gesture, the text common to both stores *)

Module Drag.

(** [startDrag]: the drag state of a task that can be dragged; [None] when
    the task is missing or has [constraints.fixedTime] and the action
    returns before writing anything. *)
Definition start (tasks : gmap string Task) (taskId : TaskId) (type : DragType)
    (startX startY : Qc) : option DragState :=
  match tasks !! taskId with
  | None => None
  | Some task =>
      if is_fixedTime task then None
      else Some (mkDrag type taskId task (startTime task) (_endTime task)
                        (resourceId task) [] [] startX startY startX startY)
  end.

Definition set_pointer (x y : Qc) (d : DragState) : DragState :=
  mkDrag (drag_type d) (taskId d) (originalTask d) (previewStartTime d)
         (previewEndTime d) (previewResourceId d) (collisions d)
         (dependencyViolations d) (startX d) (startY d) x y.

Definition set_previewStartTime (x : Qc) (d : DragState) : DragState :=
  mkDrag (drag_type d) (taskId d) (originalTask d) x
         (previewEndTime d) (previewResourceId d) (collisions d)
         (dependencyViolations d) (startX d) (startY d) (currentX d) (currentY d).

Definition set_previewEndTime (x : Qc) (d : DragState) : DragState :=
  mkDrag (drag_type d) (taskId d) (originalTask d) (previewStartTime d)
         x (previewResourceId d) (collisions d)
         (dependencyViolations d) (startX d) (startY d) (currentX d) (currentY d).

(** [updateDrag] on an active drag; [minDurationMs] is the shortest span a
    resize may leave (15 minutes in the UI store, [minResolution] minutes
    in the combined store). *)
Definition update (minDurationMs : Qc) (viewport : ViewportState)
    (currentX currentY : Qc) (d : DragState) : DragState :=
  let deltaX := currentX - startX d in
  let hoursPerPixel := 1 / pixelsPerHour viewport in
  let deltaTimeMs := deltaX * hoursPerPixel * of_Z 60 * of_Z 60 * of_Z 1000 in
  let d := set_pointer currentX currentY d in
  match drag_type d with
  | move | reassign =>
      let d := set_previewStartTime (startTime (originalTask d) + deltaTimeMs) d in
      set_previewEndTime (_endTime (originalTask d) + deltaTimeMs) d
  | resize_start =>
      let newStartTime := startTime (originalTask d) + deltaTimeMs in
      set_previewStartTime
        (Math_min newStartTime (_endTime (originalTask d) - minDurationMs)) d
  | resize_end =>
      let newEndTime := _endTime (originalTask d) + deltaTimeMs in
      set_previewEndTime
        (Math_max newEndTime (startTime (originalTask d) + minDurationMs)) d
  end.

(** [originalTask.phases.map((phase) => ({...phase,
      duration: Math.round(phase.duration * scaleFactor)}))] *)
Definition scalePhases (scaleFactor : Qc) (ps : list TaskPhase) : list TaskPhase :=
  map (λ phase, mkPhase (phase_type phase)
                        (Math_round (duration phase * scaleFactor))
                        (phase_color phase)) ps.

(** The updates [commitDrag] hands to [updateTask], from the start and end
    it commits and the task as the store has it now; [None] when a resize
    finds no such task and reading its [_totalDuration] throws. *)
Definition updates (d : DragState) (newStart newEnd : Qc)
    (originalTask : option Task) : option TaskUpdates :=
  match drag_type d with
  | move | reassign =>
      Some (mkUpdates None (Some newStart) None (Some (previewResourceId d))
                      None None None None None None None None)
  | resize_start | resize_end =>
      match originalTask with
      | None => None
      | Some originalTask =>
          let newDurationMs := newEnd - newStart in
          let newDurationMinutes := newDurationMs / (of_Z 60 * of_Z 1000) in
          let scaleFactor := newDurationMinutes / _totalDuration originalTask in
          let newPhases := scalePhases scaleFactor (phases originalTask) in
          Some (mkUpdates None (Some newStart) (Some newPhases) None
                          None None None None None None None None)
      end
  end.

End Drag.

Inductive SelectMode := sel_replace | sel_add | sel_toggle.

Definition selectTask_on (taskId : TaskId) (mode : SelectMode)
    (sel : SelectionState) : SelectionState :=
  let ids :=
    match mode with
    | sel_replace => {[taskId]}
    | sel_add => sel_taskIds sel ∪ {[taskId]}
    | sel_toggle =>
        if decide (taskId ∈ sel_taskIds sel)
        then sel_taskIds sel ∖ {[taskId]}
        else sel_taskIds sel ∪ {[taskId]}
    end in
  mkSelection ids (sel_resourceIds sel) (Some taskId).

Definition clearSelection_on (sel : SelectionState) : SelectionState :=
  mkSelection ∅ ∅ None.

(** ** The UI store of the split design, beside the data store *)

Module UIStore.

Record State := mkState {
  viewport : ViewportState;
  selection : SelectionState;
  grouping : GroupingState;
  drag : option DragState;
  hoveredTaskId : option TaskId;
  sidebarWidth : Qc
}.

Definition on_viewport (f : ViewportState → ViewportState) (s : State) : State :=
  mkState (f (viewport s)) (selection s) (grouping s) (drag s)
          (hoveredTaskId s) (sidebarWidth s).
Definition on_selection (f : SelectionState → SelectionState) (s : State) : State :=
  mkState (viewport s) (f (selection s)) (grouping s) (drag s)
          (hoveredTaskId s) (sidebarWidth s).
Definition set_drag (d : option DragState) (s : State) : State :=
  mkState (viewport s) (selection s) (grouping s) d
          (hoveredTaskId s) (sidebarWidth s).

Definition initialState (now : Qc) : State :=
  mkState (mkViewport 0 (now - of_Z 24 * of_Z 60 * of_Z 60 * of_Z 1000)
                      (of_Z 10) 0 (of_Z 40) 0 0 day)
          (mkSelection ∅ ∅ None) (mkGrouping no_grouping ∅) None None (of_Z 200).

(** The two stores of the split design. *)
Record World := mkWorld {
  data : DataStore.Store;
  ui : State
}.

Definition on_ui (f : State → State) (w : World) : World :=
  mkWorld (data w) (f (ui w)).

Definition panViewport (deltaX deltaY : Qc) : World → World :=
  on_ui (on_viewport (panViewport deltaX deltaY)).
Definition zoomViewport (factor centerX : Qc) : World → World :=
  on_ui (on_viewport (zoomViewport factor centerX)).
Definition selectTask (taskId : TaskId) (mode : SelectMode) : World → World :=
  on_ui (on_selection (selectTask_on taskId mode)).
Definition clearSelection : World → World :=
  on_ui (on_selection clearSelection_on).

Definition startDrag (taskId : TaskId) (type : DragType) (startX startY : Qc)
    (w : World) : World :=
  let dataStore := DataStore.getState (data w) in
  match Drag.start (DataStore.tasks dataStore) taskId type startX startY with
  | None => w
  | Some d => on_ui (set_drag (Some d)) w
  end.

Definition updateDrag (currentX currentY : Qc) (w : World) : World :=
  match drag (ui w) with
  | None => w
  | Some d =>
      on_ui (set_drag (Some (Drag.update (of_Z 15 * of_Z 60 * of_Z 1000)
                                         (viewport (ui w)) currentX currentY d))) w
  end.

(** [None]: a resize of a task that has left the store throws. *)
Definition commitDrag (w : World) : option World :=
  match drag (ui w) with
  | None => Some w
  | Some d =>
      if bool_decide (dependencyViolations d ≠ [])
      then Some (on_ui (set_drag None) w)
      else
        let dataStore := DataStore.getState (data w) in
        let originalTask := DataStore.tasks dataStore !! taskId d in
        u ← Drag.updates d (previewStartTime d) (previewEndTime d) originalTask;
        Some (mkWorld (DataStore.updateTask (taskId d) u (data w))
                      (set_drag None (ui w)))
  end.

Definition cancelDrag : World → World := on_ui (set_drag None).

(** A drag begun at [(x, y)] whose pointer has not moved when it ends:
    never updated, or ([touch]) updated at the point where it began. *)
Definition still_gesture (taskId : TaskId) (type : DragType) (x y : Qc)
    (touch : bool) (w : World) : World :=
  let w := startDrag taskId type x y w in
  if touch then updateDrag x y w else w.

(** The task an action leaves under [taskId], if it returned. *)
Definition task_after (r : option World) (taskId : TaskId) : option Task :=
  w ← r; DataStore.tasks (DataStore.getState (data w)) !! taskId.

End UIStore.

(** ** The combined store *)

Definition ZOOM_SNAP_INTERVALS (z : ZoomLevel) : Qc :=
  match z with
  | hour => of_Z 15
  | day => of_Z 60
  | week => of_Z 360
  | month => of_Z 1440
  end.

Definition getSnapIntervalMs (zoomLevel : ZoomLevel) (minResolution : Qc) : Qc :=
  let zoomSnapMinutes := ZOOM_SNAP_INTERVALS zoomLevel in
  let effectiveSnapMinutes := Math_max zoomSnapMinutes minResolution in
  effectiveSnapMinutes * of_Z 60 * of_Z 1000.

Definition DEFAULT_MIN_RESOLUTION : Qc := of_Z 30.

Module GanttStore.

Record State := mkState {
  tasks : gmap string Task;
  resources : gmap string Resource;
  dependencies : gmap string TaskDependency;
  orders : gmap string Order;
  groups : gmap string ResourceGroup;
  viewport : ViewportState;
  selection : SelectionState;
  grouping : GroupingState;
  drag : option DragState;
  hoveredTaskId : option TaskId;
  sidebarWidth : Qc;
  minResolution : Qc;
  isLoading : bool;
  error : option string
}.

Definition createInitialState (now : Qc) : State :=
  mkState ∅ ∅ ∅ ∅ ∅
          (mkViewport 0 (now - of_Z 24 * of_Z 60 * of_Z 60 * of_Z 1000)
                      (of_Z 10) 0 (of_Z 40) 0 0 day)
          (mkSelection ∅ ∅ None) (mkGrouping no_grouping ∅) None None
          (of_Z 200) DEFAULT_MIN_RESOLUTION false None.

Definition on_tasks (f : gmap string Task → gmap string Task) (s : State) : State :=
  mkState (f (tasks s)) (resources s) (dependencies s) (orders s) (groups s)
          (viewport s) (selection s) (grouping s) (drag s) (hoveredTaskId s)
          (sidebarWidth s) (minResolution s) (isLoading s) (error s).
Definition on_viewport (f : ViewportState → ViewportState) (s : State) : State :=
  mkState (tasks s) (resources s) (dependencies s) (orders s) (groups s)
          (f (viewport s)) (selection s) (grouping s) (drag s) (hoveredTaskId s)
          (sidebarWidth s) (minResolution s) (isLoading s) (error s).
Definition on_selection (f : SelectionState → SelectionState) (s : State) : State :=
  mkState (tasks s) (resources s) (dependencies s) (orders s) (groups s)
          (viewport s) (f (selection s)) (grouping s) (drag s) (hoveredTaskId s)
          (sidebarWidth s) (minResolution s) (isLoading s) (error s).
Definition set_drag (d : option DragState) (s : State) : State :=
  mkState (tasks s) (resources s) (dependencies s) (orders s) (groups s)
          (viewport s) (selection s) (grouping s) d (hoveredTaskId s)
          (sidebarWidth s) (minResolution s) (isLoading s) (error s).

(** *** The recipes handed to [set] *)

Definition setTasks_recipe (ts : list StoredTask) : State → State :=
  on_tasks (λ _, Recipes.setTasks ts).
Definition addTask_recipe (task : StoredTask) : State → State :=
  on_tasks (Recipes.addTask task).
Definition updateTask_recipe (taskId : TaskId) (updates : TaskUpdates) : State → State :=
  on_tasks (Recipes.updateTask taskId updates).
Definition updateTasks_recipe (updates : list (TaskId * TaskUpdates)) : State → State :=
  on_tasks (Recipes.updateTasks updates).
Definition moveTasks_recipe (taskIds : list TaskId) (deltaTime : Qc)
    (newResourceId : option ResourceId) : State → State :=
  on_tasks (Recipes.moveTasks taskIds deltaTime newResourceId).
Definition deleteTask_recipe (taskId : TaskId) (s : State) : State :=
  mkState (Recipes.deleteTask taskId (tasks s)) (resources s)
          (Recipes.dropDependenciesOf taskId (dependencies s))
          (orders s) (groups s)
          (viewport s) (selection s) (grouping s) (drag s) (hoveredTaskId s)
          (sidebarWidth s) (minResolution s) (isLoading s) (error s).

Definition startDrag_recipe (taskId : TaskId) (type : DragType)
    (startX startY : Qc) (s : State) : State :=
  match Drag.start (tasks s) taskId type startX startY with
  | None => s
  | Some d => set_drag (Some d) s
  end.

Definition updateDrag_recipe (currentX currentY : Qc) (s : State) : State :=
  match drag s with
  | None => s
  | Some d =>
      let minDurationMs := minResolution s * of_Z 60 * of_Z 1000 in
      set_drag (Some (Drag.update minDurationMs (viewport s) currentX currentY d)) s
  end.

(** *** The store under the undo middleware *)

Definition equality (pastState currentState : State) : bool :=
  bool_decide (tasks pastState = tasks currentState
               ∧ dependencies pastState = dependencies currentState).

Definition limit : nat := 50.

Abbreviation Store := (Temporal.t State).

Definition createGanttStore (now : Qc) : Store :=
  Temporal.init (createInitialState now).

Definition set (recipe : State → State) : Store → Store :=
  Temporal.set equality limit recipe.

Definition getState (store : Store) : State := Temporal.present store.

Definition setTasks ts := set (setTasks_recipe ts).
Definition addTask task := set (addTask_recipe task).
Definition updateTask taskId updates := set (updateTask_recipe taskId updates).
Definition updateTasks updates := set (updateTasks_recipe updates).
Definition moveTasks taskIds deltaTime newResourceId :=
  set (moveTasks_recipe taskIds deltaTime newResourceId).
Definition deleteTask taskId := set (deleteTask_recipe taskId).
Definition panViewport deltaX deltaY := set (on_viewport (panViewport deltaX deltaY)).
Definition zoomViewport factor centerX := set (on_viewport (zoomViewport factor centerX)).
Definition selectTask taskId mode := set (on_selection (selectTask_on taskId mode)).
Definition clearSelection := set (on_selection clearSelection_on).
Definition startDrag taskId type startX startY :=
  set (startDrag_recipe taskId type startX startY).
Definition updateDrag currentX currentY := set (updateDrag_recipe currentX currentY).
Definition cancelDrag := set (set_drag None).

(** [Math.round(t / snapInterval) * snapInterval] *)
Definition snap (snapInterval t : Qc) : Qc :=
  Math_round (t / snapInterval) * snapInterval.

(** [None]: a resize of a task that has left the store throws. *)
Definition commitDrag (store : Store) : option Store :=
  let state := getState store in
  match drag state with
  | None => Some store
  | Some d =>
      if bool_decide (dependencyViolations d ≠ [])
      then Some (set (set_drag None) store)
      else
        let originalTask := tasks state !! taskId d in
        let snapInterval :=
          getSnapIntervalMs (zoomLevel (viewport state)) (minResolution state) in
        let snappedStartTime := snap snapInterval (previewStartTime d) in
        let snappedEndTime := snap snapInterval (previewEndTime d) in
        u ← Drag.updates d snappedStartTime snappedEndTime originalTask;
        Some (set (set_drag None) (updateTask (taskId d) u store))
  end.

Definition undo : Store → Store := Temporal.undo.
Definition redo : Store → Store := Temporal.redo.

(** A drag begun at [(x, y)] whose pointer has not moved when it ends:
    never updated, or ([touch]) updated at the point where it began. *)
Definition still_gesture (taskId : TaskId) (type : DragType) (x y : Qc)
    (touch : bool) (store : Store) : Store :=
  let store := startDrag taskId type x y store in
  if touch then updateDrag x y store else store.

(** The task an action leaves under [taskId], if it returned. *)
Definition task_after (r : option Store) (taskId : TaskId) : option Task :=
  store ← r; tasks (getState store) !! taskId.

End GanttStore.

(** ** Notions the statements use *)

(** A task that [startDrag] refuses: absent from the store, or with
    [constraints.fixedTime] set. *)
Definition undraggable (tasks : gmap string Task) (taskId : TaskId) : Prop :=
  match tasks !! taskId with
  | None => True
  | Some task => is_fixedTime task = true
  end.

Definition is_resize (type : DragType) : Prop :=
  match type with
  | resize_start | resize_end => True
  | move | reassign => False
  end.

#[global] Instance is_resize_dec type : Decision (is_resize type).
Proof. destruct type; simpl; apply _. Defined.


(** What the examples read off a task. *)
Definition durations_of (task : Task) : list Qc := map duration (phases task).
Definition start_of (task : Task) : Qc := startTime task.

(** A timestamp on the snap grid: a whole multiple of the interval. *)
Definition on_grid (interval t : Qc) : Prop := ∃ k : Z, t = of_Z k * interval.

(** ** Histories of the split design *)

Module Session.
Import UIStore.

(** What the user and the host application can do to the two stores. *)
Inductive Action :=
| SetTasks (tasks : list StoredTask)
| AddTask (task : StoredTask)
| UpdateTask (taskId : TaskId) (updates : TaskUpdates)
| UpdateTasks (updates : list (TaskId * TaskUpdates))
| MoveTasks (taskIds : list TaskId) (deltaTime : Qc) (newResourceId : option ResourceId)
| DeleteTask (taskId : TaskId)
| SetResources (resources : list Resource)
| SetDependencies (dependencies : list TaskDependency)
| SetLoading (isLoading : bool)
| Undo
| Redo
| PanViewport (deltaX deltaY : Qc)
| ZoomViewport (factor centerX : Qc)
| SelectTask (taskId : TaskId) (mode : SelectMode)
| ClearSelection
| StartDrag (taskId : TaskId) (type : DragType) (startX startY : Qc)
| UpdateDrag (currentX currentY : Qc)
| CommitDrag
| CancelDrag.

(** The actions that touch only the viewport, the selection or the drag
    preview. *)
Definition view_only (a : Action) : bool :=
  match a with
  | PanViewport _ _ | ZoomViewport _ _ | SelectTask _ _ | ClearSelection
  | StartDrag _ _ _ _ | UpdateDrag _ _ | CancelDrag => true
  | _ => false
  end.

Definition on_data (f : DataStore.Store → DataStore.Store) (w : World) : World :=
  mkWorld (f (data w)) (ui w).

(** The action would divide by zero, and so leave the numbers modelled:
    a zoom or a drag update at zoom zero, the commit of a resize of a
    task of total duration zero. *)
Definition divides_by_zero (a : Action) (w : World) : bool :=
  match a with
  | ZoomViewport _ _ => bool_decide (pixelsPerHour (viewport (ui w)) = 0)
  | UpdateDrag _ _ =>
      bool_decide (is_Some (drag (ui w)) ∧ pixelsPerHour (viewport (ui w)) = 0)
  | CommitDrag =>
      match drag (ui w) with
      | Some d =>
          match DataStore.tasks (DataStore.getState (data w)) !! taskId d with
          | Some task =>
              bool_decide (dependencyViolations d = [] ∧ is_resize (drag_type d)
                           ∧ _totalDuration task = 0)
          | None => false
          end
      | None => false
      end
  | _ => false
  end.

(** One action; [None] when it throws or divides by zero. *)
Definition perform (a : Action) (w : World) : option World :=
  if divides_by_zero a w then None else
  match a with
  | SetTasks ts => Some (on_data (DataStore.setTasks ts) w)
  | AddTask task => Some (on_data (DataStore.addTask task) w)
  | UpdateTask taskId u => Some (on_data (DataStore.updateTask taskId u) w)
  | UpdateTasks us => Some (on_data (DataStore.updateTasks us) w)
  | MoveTasks ids delta r => Some (on_data (DataStore.moveTasks ids delta r) w)
  | DeleteTask taskId => Some (on_data (DataStore.deleteTask taskId) w)
  | SetResources rs => Some (on_data (DataStore.setResources rs) w)
  | SetDependencies deps => Some (on_data (DataStore.setDependencies deps) w)
  | SetLoading b => Some (on_data (DataStore.setLoading b) w)
  | Undo => Some (on_data DataStore.undo w)
  | Redo => Some (on_data DataStore.redo w)
  | PanViewport dx dy => Some (panViewport dx dy w)
  | ZoomViewport f cx => Some (zoomViewport f cx w)
  | SelectTask taskId m => Some (selectTask taskId m w)
  | ClearSelection => Some (clearSelection w)
  | StartDrag taskId ty x y => Some (startDrag taskId ty x y w)
  | UpdateDrag x y => Some (updateDrag x y w)
  | CommitDrag => commitDrag w
  | CancelDrag => Some (cancelDrag w)
  end.

(** A sequence of actions, first to last. *)
Fixpoint run (actions : list Action) (w : World) : option World :=
  match actions with
  | [] => Some w
  | a :: actions => w ← perform a w; run actions w
  end.

Definition initial (now : Qc) : World :=
  mkWorld DataStore.create (UIStore.initialState now).

Definition current_tasks (w : World) : gmap string Task :=
  DataStore.tasks (DataStore.getState (data w)).

End Session.

(** ** Sample data *)

Module Sample.

(** Setup 20, execution 100, cleanup 20: 140 minutes in all. *)
Definition phases3 : list TaskPhase :=
  [mkPhase setup (of_Z 20) None; mkPhase execution (of_Z 100) None;
   mkPhase cleanup (of_Z 20) None].

Definition stored_task (taskId : TaskId) (start : Qc) (ps : list TaskPhase)
    (c : option Constraints) : StoredTask :=
  mkStored taskId start ps "r1" "o1" "task" None None (of_Z 3) scheduled 0 c.

(** [a] starts on the hour and [b] ten minutes past; [f] may not be moved;
    [s] lasts ten minutes and [h] half a minute; [g] runs from one o'clock
    to three. *)
Definition storedA : StoredTask := stored_task "a" 0 phases3 None.
Definition storedB : StoredTask := stored_task "b" (of_Z 600000) phases3 None.
Definition storedF : StoredTask :=
  stored_task "f" 0 phases3 (Some (mkConstraints None None (Some true))).
Definition storedS : StoredTask :=
  stored_task "s" 0 [mkPhase execution (of_Z 10) None] None.
Definition storedH : StoredTask :=
  stored_task "h" 0 [mkPhase execution (frac 1 2) None] None.
Definition storedG : StoredTask :=
  stored_task "g" (of_Z 3600000)
              [mkPhase setup (of_Z 30) None; mkPhase execution (of_Z 60) None;
               mkPhase cleanup (of_Z 30) None] None.

Definition all_stored : list StoredTask :=
  [storedA; storedB; storedF; storedS; storedH; storedG].

Definition taskA : Task := hydrateTask storedA.
Definition taskB : Task := hydrateTask storedB.
Definition taskG : Task := hydrateTask storedG.

(** The combined store with these tasks, at its defaults: day zoom,
    10 pixels per hour, snapping to the hour. *)
Definition combined : GanttStore.Store :=
  GanttStore.setTasks all_stored (GanttStore.createGanttStore 0).

(** The split stores with the same tasks; the UI store never snaps. *)
Definition split : UIStore.World :=
  UIStore.mkWorld (DataStore.setTasks all_stored DataStore.create)
                  (UIStore.initialState 0).

(** The same stores zoomed in six times about the left edge: hour zoom,
    60 pixels per hour, the combined store snapping to the half hour. *)
Definition combined_hour : GanttStore.Store :=
  GanttStore.zoomViewport (of_Z 6) 0 combined.

Definition split_hour : UIStore.World :=
  UIStore.zoomViewport (of_Z 6) 0 split.

(** Dragging the end of [a] 70 pixels to the left, seventy minutes at 60
    pixels per hour: the preview then spans minutes 0 to 70. *)
Definition shrink_a : DragState :=
  mkDrag resize_end "a" taskA 0 (of_Z 4200000) "r1" [] [] 0 0 (of_Z (-70)) 0.


Definition split_shrinking : UIStore.World :=
  UIStore.updateDrag (of_Z (-70)) 0
    (UIStore.startDrag "a" resize_end 0 0 split_hour).

(** A working session on the split stores. *)
Definition session : list Session.Action :=
  [Session.SetTasks all_stored;
   Session.MoveTasks ["a"; "f"] (of_Z 3600000) None;
   Session.SelectTask "a" sel_replace;
   Session.ZoomViewport (of_Z 6) 0;
   Session.StartDrag "a" resize_end 0 0;
   Session.UpdateDrag (of_Z (-70)) 0;
   Session.CommitDrag;
   Session.PanViewport (of_Z (-40)) (of_Z 120);
   Session.UpdateTask "b" (mkUpdates None None None (Some "r2") None None
                                     None None None None None None);
   Session.Undo;
   Session.Redo;
   Session.DeleteTask "s"].

Definition row1 : VirtualRow :=
  mkRow "row-r1" (Some "r1") 0 (of_Z 40) false None None None.

(** Three tasks depending on each other in a circle, and a fourth off it. *)
Definition circle : IndexManager.t :=
  IndexManager.buildIndexes
    [mkDependency "d1" "a" "b" FS 0; mkDependency "d2" "b" "g" FS 0;
     mkDependency "d3" "g" "a" FS 0; mkDependency "d4" "s" "a" SS 0].

End Sample.

(* ===================================================================== *)
(** * More of the engine: utilities, queries, row layout and store actions *)
(* ===================================================================== *)

(** ** Task utilities, the rest of [utils/task-utils.ts] *)

Module TaskUtils.

Record PhaseRange := mkRange {
  range_type : PhaseType;
  range_start : Qc;
  range_end : Qc;
  range_color : option string
}.

(** One turn of the loop of [getPhaseRanges]: the ranges pushed so far and
    [currentStart]. *)
Definition range_step (acc : list PhaseRange * Qc) (phase : TaskPhase)
    : list PhaseRange * Qc :=
  let '(ranges, currentStart) := acc in
  let phaseDurationMs := duration phase * of_Z 60 * of_Z 1000 in
  (ranges ++ [mkRange (phase_type phase) currentStart
                      (currentStart + phaseDurationMs) (phase_color phase)],
   currentStart + phaseDurationMs).

Definition getPhaseRanges (task : Task) : list PhaseRange :=
  fst (foldl range_step ([], startTime task) (phases task)).

Definition PHASE_COLORS (type : PhaseType) : string :=
  match type with
  | setup => "#f59e0b"
  | execution => "#3b82f6"
  | cleanup => "#8b5cf6"
  end.

(** [phase.color ?? PHASE_COLORS[phase.type]] *)
Definition getPhaseColor (phase : TaskPhase) : string :=
  default (PHASE_COLORS (phase_type phase)) (phase_color phase).

(** [a.startTime < b._endTime && a._endTime > b.startTime] *)
Definition tasksOverlap (a b : Task) : bool :=
  bool_decide (startTime a < _endTime b) && bool_decide (startTime b < _endTime a).

Definition taskOverlapsRange (task : Task) (rangeStart rangeEnd : Qc) : bool :=
  bool_decide (startTime task < rangeEnd) && bool_decide (rangeStart < _endTime task).

Definition snapToInterval (timestamp intervalMinutes : Qc) : Qc :=
  let intervalMs := intervalMinutes * of_Z 60 * of_Z 1000 in
  Math_round (timestamp / intervalMs) * intervalMs.

(** Ranges that follow one another without gap from [from] to [to]. *)
Fixpoint tiles (from : Qc) (ranges : list PhaseRange) (to : Qc) : Prop :=
  match ranges with
  | [] => from = to
  | r :: ranges => range_start r = from ∧ tiles (range_end r) ranges to
  end.

End TaskUtils.

(** ** The viewport manager, the rest of [engine/viewport-manager.ts] *)

Module ViewportQueries.
Import ViewportManager.






Definition getVisibleTimeRange (v : ViewportState) : Qc * Qc :=
  (xToTime v 0, xToTime v (width v)).

Definition getVisibleYRange (v : ViewportState) : Qc * Qc :=
  (scrollY v, scrollY v + height v).

(** [startTime < end && endTime > start] *)
Definition isTimeRangeVisible (v : ViewportState) (startTime endTime : Qc) : bool :=
  let '(start, end_) := getVisibleTimeRange v in
  bool_decide (startTime < end_) && bool_decide (start < endTime).

Definition isYRangeVisible (v : ViewportState) (minY maxY : Qc) : bool :=
  let '(start, end_) := getVisibleYRange v in
  bool_decide (minY < end_) && bool_decide (start < maxY).

Definition isVisible (v : ViewportState) (startTime endTime minY maxY : Qc) : bool :=
  isTimeRangeVisible v startTime endTime && isYRangeVisible v minY maxY.



End ViewportQueries.

(** ** The spatial index, the rest of the class *)

Module SpatialQueries.
Import SpatialIndex.

(** [tree.search({minX: startTime, minY: -Infinity, maxX: endTime,
    maxY: Infinity})]: the two tests of the library against the infinite
    bounds hold of every number, which leaves its two tests on X. *)
Definition queryTimeRange (startTime endTime : Qc) (idx : t) : list TaskId :=
  map RBush.item_taskId
      (filter (λ it : RBush.Item,
                 RBush.leb (RBush.minX (RBush.box it)) endTime
                 && RBush.leb startTime (RBush.maxX (RBush.box it)) = true)
              (tree idx)).

Definition isEmpty (idx : t) : bool := bool_decide (size (taskBoundsMap idx) = O).

Definition size (idx : t) : nat := size (taskBoundsMap idx).

Definition clear (idx : t) : t := mkIndex (RBush.clear (tree idx)) ∅.

(** The last row of the layout that carries the resource. *)
Definition last_row_of (r : ResourceId) (virtualRows : list VirtualRow)
    : option VirtualRow :=
  last (filter (λ row, truthy (row_resourceId row) = Some r) virtualRows).

End SpatialQueries.

(** ** The relational index, the rest of the class *)

Module IndexQueries.
Import IndexManager.

(** The loop of [buildIndexes] over the tasks, for the resource index and
    for the order index. *)
Definition resourceTasksIndex (tasks : list Task) : gmap string (list string) :=
  foldl (λ m (task : Task), index_add (resourceId task) (id task) m) ∅ tasks.

Definition orderTasksIndex (tasks : list Task) : gmap string (list string) :=
  foldl (λ m (task : Task), index_add (orderId task) (id task) m) ∅ tasks.

(** [Array.from(index.get(key) ?? [])] *)
Definition getTasksByResource (index : gmap string (list string))
    (resourceId : ResourceId) : list TaskId :=
  default [] (index !! resourceId).

Definition getTasksByOrder (index : gmap string (list string))
    (orderId : OrderId) : list TaskId :=
  default [] (index !! orderId).

Definition getRowForResource (virtualRows : list VirtualRow) (resourceId : ResourceId)
    : option VirtualRow :=
  SpatialIndex.rowByResource virtualRows !! resourceId.

(** The test of the loop of [getResourceAtY]. *)
Definition row_holds (y : Qc) (row : VirtualRow) : Prop :=
  isGroupHeader row = false
  ∧ is_Some (SpatialIndex.truthy (row_resourceId row))
  ∧ virtualY row ≤ y
  ∧ y < virtualY row + row_height row.

#[global] Instance row_holds_dec y row : Decision (row_holds y row).
Proof. unfold row_holds. apply _. Defined.

Definition getResourceAtY (virtualRows : list VirtualRow) (y : Qc)
    : option ResourceId :=
  match list_find (row_holds y) virtualRows with
  | Some (_, row) => row_resourceId row
  | None => None
  end.

Record VisibleRows := mkVisible {
  visible_rows : list VirtualRow;
  startIndex : nat;
  endIndex : nat
}.

Definition BUFFER : nat := 3.

Definition getVisibleRows (virtualRows : list VirtualRow)
    (scrollY viewportHeight : Qc) : VisibleRows :=
  match virtualRows with
  | [] => mkVisible [] 0 0
  | _ =>
      (* the first row whose bottom is below the top of the viewport *)
      let startIndex :=
        match list_find (λ row, scrollY < virtualY row + row_height row) virtualRows with
        | Some (i, _) => i
        | None => O
        end in
      (* from there, the first row whose top is below the bottom of the viewport *)
      let endIndex :=
        match list_find (λ row, scrollY + viewportHeight < virtualY row)
                        (drop startIndex virtualRows) with
        | Some (i, _) => (startIndex + i)%nat
        | None => length virtualRows
        end in
      let startIndex := Nat.max 0 (startIndex - BUFFER) in
      let endIndex := Nat.min (length virtualRows) (endIndex + BUFFER) in
      mkVisible (take (endIndex - startIndex) (drop startIndex virtualRows))
                startIndex endIndex
  end.

Definition getTotalHeight (virtualRows : list VirtualRow) : Qc :=
  match last virtualRows with
  | None => 0
  | Some lastRow => virtualY lastRow + row_height lastRow
  end.

(** Rows stacked without gap from [from] down to [to]. *)
Fixpoint stacked (from : Qc) (rows : list VirtualRow) (to : Qc) : Prop :=
  match rows with
  | [] => from = to
  | row :: rows => virtualY row = from ∧ stacked (from + row_height row) rows to
  end.

(** Rows whose tops never go up along the list. *)
Fixpoint tops_ascend (rows : list VirtualRow) : Prop :=
  match rows with
  | [] => True
  | row :: rows => Forall (λ below, virtualY row ≤ virtualY below) rows ∧ tops_ascend rows
  end.

#[global] Instance tops_ascend_dec rows : Decision (tops_ascend rows).
Proof. induction rows; simpl; apply _. Defined.

End IndexQueries.


Module VirtualRows.

Definition GROUP_HEADER_HEIGHT : Qc := of_Z 32.

(** The rows pushed so far, and [currentY]. *)
Record Layout := mkLayout {
  virtualRows : list VirtualRow;
  currentY : Qc
}.

Definition start : Layout := mkLayout [] 0.

(** A resource row pushed at [currentY], which then goes down by
    [rowHeight]. *)
Definition pushResource (rowId : string) (resource : Resource) (rowHeight : Qc)
    (groupId : option string) (l : Layout) : Layout :=
  mkLayout
    (virtualRows l
     ++ [mkRow rowId (Some (res_id resource)) (currentY l) rowHeight false groupId
               None None])
    (currentY l + rowHeight).

(** A group header pushed at [currentY], which then goes down by
    [GROUP_HEADER_HEIGHT]. *)
Definition pushHeader (groupId groupName : string) (isExpanded : bool) (l : Layout)
    : Layout :=
  mkLayout
    (virtualRows l
     ++ [mkRow groupId None (currentY l) GROUP_HEADER_HEIGHT true (Some groupId)
               (Some groupName) (Some (negb isExpanded))])
    (currentY l + GROUP_HEADER_HEIGHT).

(** A group: its header, and when the group is expanded its resources. *)
Definition pushGroup (groupId groupName : string) (expanded : gset string)
    (rowId : Resource → string) (members : list Resource) (rowHeight : Qc)
    (l : Layout) : Layout :=
  let isExpanded := bool_decide (groupId ∈ expanded) in
  let l := pushHeader groupId groupName isExpanded l in
  if isExpanded
  then foldl (λ l resource,
                pushResource (rowId resource) resource rowHeight (Some groupId) l)
             l members
  else l.

Definition type_name (type : ResourceType) : string :=
  match type with
  | operator => "operator"
  | machine => "machine"
  | generic => "generic"
  end.

(** [type.charAt(0).toUpperCase() + type.slice(1) + "s"] on the three
    type names. *)
Definition type_groupName (type : ResourceType) : string :=
  match type with
  | operator => "Operators"
  | machine => "Machines"
  | generic => "Generics"
  end.

#[global] Instance ResourceType_eq_dec : EqDecision ResourceType.
Proof. solve_decision. Defined.

(** [byType]: a [Map] keeps its keys in the order of their first
    insertion. *)
Fixpoint byType_push (resource : Resource)
    (byType : list (ResourceType * list Resource))
    : list (ResourceType * list Resource) :=
  match byType with
  | [] => [(res_type resource, [resource])]
  | (type, typeResources) :: rest =>
      if decide (type = res_type resource)
      then (type, typeResources ++ [resource]) :: rest
      else (type, typeResources) :: byType_push resource rest
  end.

Definition byType (resourceList : list Resource)
    : list (ResourceType * list Resource) :=
  foldl (λ m resource, byType_push resource m) [] resourceList.

(** The resources holding tasks of each order, in the order the tasks
    name them. *)
Definition orderResources (tasks : list Task) : gmap string (list string) :=
  foldl (λ m (task : Task),
           IndexManager.index_add (orderId task) (resourceId task) m) ∅ tasks.

Definition assignedResources (byOrder : gmap string (list string)) : gset string :=
  list_to_set (concat (map_to_list byOrder).*2).

(** [sort((a, b) => a.priority - b.priority)]: the sort is stable. *)
Fixpoint insert_order (order : Order) (sorted : list Order) : list Order :=
  match sorted with
  | [] => [order]
  | other :: rest =>
      if Qclt_le_dec (order_priority other) (order_priority order)
      then other :: insert_order order rest
      else order :: other :: rest
  end.

Definition sortedOrders (orders : list Order) : list Order :=
  foldr insert_order [] orders.

(** [useComposableVirtualRows], the function under [useMemo].
    [resourceList], [tasks] and [orders] stand for [Object.values] of the
    three records, in the order of their keys; [resources] is the record
    itself, read by key in the grouping by order. *)
Definition useComposableVirtualRows (resources : gmap string Resource)
    (resourceList : list Resource) (tasks : list Task) (orders : list Order)
    (grouping : GroupingState) (rowHeight : Qc) : list VirtualRow :=
  let expanded := expandedGroups grouping in
  virtualRows
    match mode grouping with
    | no_grouping =>
        foldl (λ l resource,
                 pushResource ("resource-" +:+ res_id resource) resource rowHeight
                              None l)
              start resourceList
    | by_resource_type =>
        foldl (λ l '(type, typeResources),
                 pushGroup ("type-" +:+ type_name type) (type_groupName type)
                           expanded (λ resource, "resource-" +:+ res_id resource)
                           typeResources rowHeight l)
              start (byType resourceList)
    | by_order =>
        let byOrder := orderResources tasks in
        let assigned := assignedResources byOrder in
        let l :=
          foldl (λ l order,
                   match byOrder !! order_id order with
                   | None | Some [] => l
                   | Some resourceIds =>
                       pushGroup ("order-" +:+ order_id order) (order_name order)
                                 expanded
                                 (λ resource,
                                    "resource-" +:+ res_id resource +:+ "-"
                                    +:+ order_id order)
                                 (omap (λ resourceId, resources !! resourceId)
                                       resourceIds)
                                 rowHeight l
                   end)
                start (sortedOrders orders) in
        let unassignedResources :=
          filter (λ resource, res_id resource ∉ assigned) resourceList in
        match unassignedResources with
        | [] => l
        | _ =>
            pushGroup "unassigned" "Unassigned" expanded
                      (λ resource, "resource-" +:+ res_id resource)
                      unassignedResources rowHeight l
        end
    end.

(** The two kinds of row the layout pushes. *)
Definition is_header_row (row : VirtualRow) : Prop :=
  isGroupHeader row = true ∧ row_resourceId row = None
  ∧ row_height row = GROUP_HEADER_HEIGHT.

Definition is_resource_row (rowHeight : Qc) (row : VirtualRow) : Prop :=
  isGroupHeader row = false ∧ is_Some (row_resourceId row)
  ∧ row_height row = rowHeight.

(** The resources that have a row, in the order of the rows. *)
Definition resources_shown (rows : list VirtualRow) : list ResourceId :=
  omap row_resourceId rows.

(** What every step of the layout keeps: the rows are stacked from 0 down
    to [currentY], and each is a header or a resource row. *)
Definition layout_ok (rowHeight : Qc) (l : Layout) : Prop :=
  IndexQueries.stacked 0 (virtualRows l) (currentY l)
  ∧ Forall (λ row, is_header_row row ∨ is_resource_row rowHeight row) (virtualRows l).

(** The row of the resource at index [i] of the list. *)
Definition ungrouped_row (rowHeight : Qc) (i : nat) (resource : Resource) : VirtualRow :=
  mkRow ("resource-" +:+ res_id resource) (Some (res_id resource))
        (of_Z (Z.of_nat i) * rowHeight) rowHeight false None None None.

End VirtualRows.

(** Three resources, two machines around an operator, and two orders. *)
Module SampleRows.

Definition lathe : Resource := mkResource "r1" "Lathe" machine 1 None.
Definition ada : Resource := mkResource "r2" "Ada" operator 1 None.
Definition mill : Resource := mkResource "r3" "Mill" machine 1 None.

Definition resourceList : list Resource := [lathe; ada; mill].
Definition resources : gmap string Resource := Recipes.setResources resourceList.

Definition orders : list Order :=
  [mkOrder "o2" "Second" (of_Z 2); mkOrder "o1" "First" 1].

Definition tasks : list Task := [Sample.taskA; Sample.taskG].

(** The machines are expanded, the operators are not. *)
Definition machines_open : GroupingState :=
  mkGrouping by_resource_type {["type-machine"]}.

Definition ungrouped : GroupingState := mkGrouping no_grouping ∅.

End SampleRows.

(** ** More actions of the stores, the same text in both *)

Module ViewportActions.

(** [ZOOM_CONFIGS[level].pixelsPerHour] *)
Definition ZOOM_CONFIGS_pixelsPerHour (level : ZoomLevel) : Qc :=
  match level with
  | hour => of_Z 60
  | day => of_Z 10
  | week => of_Z 2
  | month => frac 1 2
  end.

Definition setZoomLevel (level : ZoomLevel) (v : ViewportState) : ViewportState :=
  mkViewport (scrollX v) (timeOrigin v) (ZOOM_CONFIGS_pixelsPerHour level)
             (scrollY v) (rowHeight v) (width v) (height v) level.

Definition scrollToTime (timestamp : Qc) (v : ViewportState) : ViewportState :=
  let hoursFromOrigin :=
    (timestamp - timeOrigin v) / (of_Z 60 * of_Z 60 * of_Z 1000) in
  mkViewport (hoursFromOrigin * pixelsPerHour v - width v / of_Z 2)
             (timeOrigin v) (pixelsPerHour v) (scrollY v) (rowHeight v)
             (width v) (height v) (zoomLevel v).

Definition scrollToRow (rowIndex : Qc) (v : ViewportState) : ViewportState :=
  mkViewport (scrollX v) (timeOrigin v) (pixelsPerHour v)
             (rowIndex * rowHeight v) (rowHeight v) (width v) (height v)
             (zoomLevel v).

(** The viewport actions that take no viewport from the caller. *)
Inductive Action :=
  | PanViewport (deltaX deltaY : Qc)
  | ZoomViewport (factor centerX : Qc)
  | SetZoomLevel (level : ZoomLevel)
  | ScrollToTime (timestamp : Qc)
  | ScrollToRow (rowIndex : Qc).

Definition perform (a : Action) (v : ViewportState) : ViewportState :=
  match a with
  | PanViewport deltaX deltaY => panViewport deltaX deltaY v
  | ZoomViewport factor centerX => zoomViewport factor centerX v
  | SetZoomLevel level => setZoomLevel level v
  | ScrollToTime timestamp => scrollToTime timestamp v
  | ScrollToRow rowIndex => scrollToRow rowIndex v
  end.

Definition run (actions : list Action) (v : ViewportState) : ViewportState :=
  foldl (λ v a, perform a v) v actions.

(** The viewport of a fresh store. *)
Definition initial (now : Qc) : ViewportState :=
  UIStore.viewport (UIStore.initialState now).

(** The zoom level is the one of the scale, and the scale is within the
    bounds of [zoomViewport]. *)
Definition in_step (v : ViewportState) : Prop :=
  zoomLevel v = getZoomLevel (pixelsPerHour v)
  ∧ frac 1 4 ≤ pixelsPerHour v ∧ pixelsPerHour v ≤ of_Z 120.

End ViewportActions.

Module GroupingActions.

Definition setGroupingMode (mode : GroupingMode) (g : GroupingState) : GroupingState :=
  mkGrouping mode ∅.

Definition toggleGroup (groupId : string) (g : GroupingState) : GroupingState :=
  mkGrouping (mode g)
             (if decide (groupId ∈ expandedGroups g)
              then expandedGroups g ∖ {[groupId]}
              else expandedGroups g ∪ {[groupId]}).

Definition collapseAllGroups (g : GroupingState) : GroupingState :=
  mkGrouping (mode g) ∅.

End GroupingActions.

(** Drags of task [a] in the zoomed-in combined store. *)
Module SampleDrag.

(** The end of [a] grabbed, the pointer not yet moved. *)
Definition start_a : DragState :=
  mkDrag resize_end "a" Sample.taskA (startTime Sample.taskA)
         (_endTime Sample.taskA) "r1" [] [] 0 0 0 0.

(** [a] moved 70 pixels to the right, seventy minutes at 60 pixels per
    hour. *)
Definition move_a : DragState :=
  mkDrag move "a" Sample.taskA (of_Z 4200000) (of_Z 12600000) "r1" [] [] 0 0
         (of_Z 70) 0.

Definition combined_moving : GanttStore.Store :=
  GanttStore.updateDrag (of_Z 70) 0
    (GanttStore.startDrag "a" move 0 0 Sample.combined_hour).

End SampleDrag.
(* ===================================================================== *)
(** * Properties *)
(* ===================================================================== *)

(** ** Facts about the numbers *)

Lemma Math_max_l a b : a ≤ Math_max a b.
Proof.
  unfold Math_max. destruct (Qclt_le_dec a b) as [H|H].
  - by apply Qclt_le_weak.
  - apply Qcle_refl.
Qed.

Lemma Math_max_r a b : b ≤ Math_max a b.
Proof.
  unfold Math_max. destruct (Qclt_le_dec a b) as [H|H]; [apply Qcle_refl | done].
Qed.

Lemma Math_max_lub a b c : a ≤ c → b ≤ c → Math_max a b ≤ c.
Proof. intros Ha Hb. unfold Math_max. by destruct (Qclt_le_dec a b). Qed.

Lemma Math_min_l a b : Math_min a b ≤ a.
Proof.
  unfold Math_min. destruct (Qclt_le_dec b a) as [H|H].
  - by apply Qclt_le_weak.
  - apply Qcle_refl.
Qed.



(** ** The viewport transform is its own inverse *)


(** A closed equation or inequation between numbers, decided by evaluation. *)
Ltac qc_eval :=
  lazymatch goal with
  | |- @eq Qc _ _ => apply Qc_is_canon; vm_compute; reflexivity
  | |- ¬ (@eq Qc _ _) =>
      let E := fresh in
      intros E; apply (f_equal this) in E; vm_compute in E; discriminate E
  | |- Qcle _ _ => vm_compute; discriminate
  | |- Qclt _ _ => vm_compute; reflexivity
  end.


(** ** Panning and zooming never scroll before the origin *)



(** ** Zooming about an anchor *)

Lemma zoom_bounds (factor centerX : Qc) (v : ViewportState) :
  frac 1 4 ≤ pixelsPerHour (zoomViewport factor centerX v) ≤ of_Z 120.
Proof.
  simpl. split; [apply Math_max_l|].
  apply Math_max_lub; [qc_eval | apply Math_min_l].
Qed.




(** ** The spatial index answers point queries by containment *)

Section spatial_index.
Import SpatialIndex.

Lemma rebuild_step_items rows tasks acc :
  snd (foldl (rebuild_step rows) acc tasks) = snd acc ++ itemsOf rows tasks.
Proof.
  revert acc. induction tasks as [|task tasks IH]; intros acc; simpl.
  - by rewrite app_nil_r.
  - rewrite IH. unfold rebuild_step, itemsOf. simpl.
    destruct (rows !! resourceId task) as [row|]; simpl; [|done].
    by rewrite <- app_assoc.
Qed.

Lemma rebuild_tree tasks virtualRows idx :
  tree (rebuild tasks virtualRows idx) = itemsOf (rowByResource virtualRows) tasks.
Proof.
  unfold rebuild.
  pose proof (rebuild_step_items (rowByResource virtualRows) tasks (∅, [])) as H.
  destruct (foldl _ _ tasks) as [boundsMap items]. simpl in *. by subst.
Qed.

Lemma elem_of_itemsOf rows tasks it :
  it ∈ itemsOf rows tasks ↔
  ∃ (task : Task) (row : VirtualRow), task ∈ tasks ∧ rows !! resourceId task = Some row
              ∧ it = itemOf (boundsOf task row).
Proof.
  unfold itemsOf. rewrite list_elem_of_omap. split.
  - intros (task & Hin & Hit).
    destruct (rows !! resourceId task) as [row|] eqn:E; simplify_eq/=. eauto.
  - intros (task & row & Hin & Hrow & ->). exists task. by rewrite Hrow.
Qed.

Lemma leb_true a b : RBush.leb a b = true ↔ a ≤ b.
Proof.
  unfold RBush.leb. destruct (Qclt_le_dec b a) as [H|H]; split; try done.
  intros H'. by apply Qcle_not_lt in H'.
Qed.

Lemma intersects_point t y (b : RBush.BBox) :
  RBush.intersects (RBush.mkBBox t y t y) b = true ↔
  (RBush.minX b ≤ t ∧ t ≤ RBush.maxX b) ∧ (RBush.minY b ≤ y ∧ y ≤ RBush.maxY b).
Proof.
  unfold RBush.intersects. simpl. rewrite !andb_true_iff, !leb_true. tauto.
Qed.

Lemma elem_of_queryPoint t y idx x :
  x ∈ queryPoint t y idx ↔
  ∃ it : RBush.Item, it ∈ tree idx ∧ RBush.item_taskId it = x
    ∧ (RBush.minX (RBush.box it) ≤ t ∧ t ≤ RBush.maxX (RBush.box it))
    ∧ (RBush.minY (RBush.box it) ≤ y ∧ y ≤ RBush.maxY (RBush.box it)).
Proof.
  unfold queryPoint, RBush.search. rewrite list_elem_of_In, in_map_iff. split.
  - intros (it & Hid & Hin). apply list_elem_of_In, list_elem_of_filter in Hin.
    destruct Hin as [Hq Hin]. exists it. by rewrite <- intersects_point.
  - intros (it & Hin & Hid & Hq). exists it. split; [done|].
    apply list_elem_of_In, list_elem_of_filter. by rewrite intersects_point.
Qed.

Lemma NoDup_map_inj {A B} (f : A → B) (l : list A) x y :
  NoDup (map f l) → x ∈ l → y ∈ l → f x = f y → x = y.
Proof.
  induction l as [|a l IH]; simpl; [by inversion 2|].
  rewrite NoDup_cons. intros [Ha Hl] Hx Hy Hf.
  apply elem_of_cons in Hx, Hy.
  destruct Hx as [->|Hx], Hy as [->|Hy]; auto.
  - exfalso. apply Ha. rewrite Hf. apply list_elem_of_In, in_map, list_elem_of_In, Hy.
  - exfalso. apply Ha. rewrite <- Hf. apply list_elem_of_In, in_map, list_elem_of_In, Hx.
Qed.

(** C6.  Among tasks of distinct ids, a task whose resource has a row is
    found by a point query at every point strictly inside its box, and is
    not found at any point strictly outside it. *)
Theorem queryPoint_inside_outside
    (tasks : list Task) (virtualRows : list VirtualRow) (idx : t)
    (task : Task) (row : VirtualRow) (t y : Qc) :
  NoDup (map (λ k : Task, id k) tasks) →
  task ∈ tasks →
  rowByResource virtualRows !! resourceId task = Some row →
  (startTime task < t < _endTime task →
   virtualY row < y < virtualY row + row_height row →
   id task ∈ queryPoint t y (rebuild tasks virtualRows idx))
  ∧ (t < startTime task ∨ _endTime task < t
     ∨ y < virtualY row ∨ virtualY row + row_height row < y →
     id task ∉ queryPoint t y (rebuild tasks virtualRows idx)).
Proof.
  intros Hnd Hin Hrow. split.
  - intros [Ht1 Ht2] [Hy1 Hy2]. apply elem_of_queryPoint.
    exists (itemOf (boundsOf task row)). rewrite rebuild_tree. split.
    { apply elem_of_itemsOf. eauto. }
    simpl. auto using Qclt_le_weak.
  - intros Hout Hq. apply elem_of_queryPoint in Hq.
    destruct Hq as (it & Hit & Hid & [Ht1 Ht2] & [Hy1 Hy2]).
    rewrite rebuild_tree in Hit. apply elem_of_itemsOf in Hit.
    destruct Hit as (task' & row' & Hin' & Hrow' & ->). simpl in *.
    assert (task' = task) as -> by eauto using NoDup_map_inj.
    assert (row' = row) as -> by congruence.
    destruct Hout as [H|[H|[H|H]]];
      eapply Qclt_not_le; eauto.
Qed.

End spatial_index.

(** ** The dependency chain is the reachable set *)

Section dependency_chain.
Import IndexManager.
Local Open Scope nat_scope.
Context (idx : IndexManager.t) (direction : Direction).

Lemma elem_of_enqueue visited current queue y :
  y ∈ enqueue_neighbours idx direction visited current queue ↔
  y ∈ queue ∨ ((y ∉ visited) ∧ edge idx direction current y).
Proof.
  unfold enqueue_neighbours, push_unvisited, edge.
  destruct (wants_predecessors direction), (wants_successors direction);
    rewrite ?elem_of_app, ?list_elem_of_filter; intuition congruence.
Qed.

Lemma length_enqueue visited current queue :
  length (enqueue_neighbours idx direction visited current queue)
  ≤ length queue + degree idx current.
Proof.
  unfold enqueue_neighbours, push_unvisited, degree.
  pose proof (length_filter (λ n, n ∉ visited) (getPredecessors idx current)).
  pose proof (length_filter (λ n, n ∉ visited) (getSuccessors idx current)).
  destruct (wants_predecessors direction), (wants_successors direction);
    rewrite ?length_app; lia.
Qed.

(** *** Termination *)

Lemma sum_list_map_le {A} (f g : A → nat) (l : list A) :
  (∀ x, g x ≤ f x) → sum_list (map g l) ≤ sum_list (map f l).
Proof.
  intros Hle. induction l as [|a l IH]; simpl; [lia|]. specialize (Hle a). lia.
Qed.

Lemma sum_list_map_drop {A} (f g : A → nat) (l : list A) (c : A) (k : nat) :
  (∀ x, g x ≤ f x) → c ∈ l → g c + k ≤ f c →
  sum_list (map g l) + k ≤ sum_list (map f l).
Proof.
  intros Hle Hin Hc. induction l as [|a l IH]; [by inversion Hin|].
  simpl. apply elem_of_cons in Hin as [<-|Hin].
  - pose proof (sum_list_map_le f g l Hle). lia.
  - specialize (IH Hin). specialize (Hle a). lia.
Qed.

Lemma pending_pointwise visited current x :
  (if decide (x ∈ visited ++ [current]) then O else S (degree idx x))
  ≤ (if decide (x ∈ visited) then O else S (degree idx x)).
Proof.
  destruct (decide (x ∈ visited)) as [Hx|Hx].
  - rewrite decide_True; [lia | set_solver].
  - case_decide; lia.
Qed.

Lemma pending_visited visited current :
  pending idx (visited ++ [current]) ≤ pending idx visited.
Proof. apply sum_list_map_le. intros x. apply pending_pointwise. Qed.

Lemma pending_visit_node visited current :
  current ∉ visited → current ∈ nodes idx →
  pending idx (visited ++ [current]) + S (degree idx current) ≤ pending idx visited.
Proof.
  intros Hnew Hnode. unfold pending.
  apply sum_list_map_drop with (c := current); [|done|].
  - intros x. apply pending_pointwise.
  - rewrite decide_True by set_solver. by rewrite decide_False.
Qed.

Lemma degree_not_node current : current ∉ nodes idx → degree idx current = O.
Proof.
  unfold nodes, degree, getPredecessors, getSuccessors.
  rewrite elem_of_elements, elem_of_union, !elem_of_dom. intros Hn.
  destruct (predecessorIndex idx !! current) eqn:E1; [naive_solver|].
  destruct (successorIndex idx !! current) eqn:E2; [naive_solver|]. done.
Qed.

Lemma chain_loop_terminates fuel visited queue :
  length queue + pending idx visited ≤ fuel →
  is_Some (chain_loop fuel idx direction visited queue).
Proof.
  revert visited queue.
  induction fuel as [|fuel IH]; intros visited [|current queue] Hfuel;
    simpl in *; eauto; [lia|].
  case_decide as Hvis.
  - apply IH. lia.
  - apply IH.
    pose proof (length_enqueue (visited ++ [current]) current queue).
    destruct (decide (current ∈ nodes idx)) as [Hnode|Hnode].
    + pose proof (pending_visit_node visited current Hvis Hnode). lia.
    + pose proof (pending_visited visited current).
      rewrite (degree_not_node current Hnode) in *. lia.
Qed.

(** *** Correctness *)

Lemma chain_inv_skip origin visited current queue :
  current ∈ visited →
  chain_inv idx direction origin visited (current :: queue) →
  chain_inv idx direction origin visited queue.
Proof.
  intros Hvis [Hreach Hclosed Horigin Hnd]. split; [| | |done].
  - intros x Hx. apply Hreach. set_solver.
  - intros x y Hx Hxy. destruct (Hclosed x y Hx Hxy) as [?|Hy]; [by left|].
    apply elem_of_cons in Hy as [->|?]; auto.
  - destruct Horigin as [?|Ho]; [by left|].
    apply elem_of_cons in Ho as [->|?]; auto.
Qed.

Lemma chain_inv_visit origin visited current queue :
  current ∉ visited →
  chain_inv idx direction origin visited (current :: queue) →
  chain_inv idx direction origin (visited ++ [current])
    (enqueue_neighbours idx direction (visited ++ [current]) current queue).
Proof.
  intros Hvis [Hreach Hclosed Horigin Hnd].
  assert (Hcur : reachable idx direction origin current).
  { apply Hreach. set_solver. }
  split.
  - intros x [Hx|Hx].
    + apply Hreach. set_solver.
    + apply elem_of_enqueue in Hx as [Hx|[_ Hx]].
      * apply Hreach. set_solver.
      * by eapply rtc_r.
  - intros x y Hx Hxy. rewrite elem_of_enqueue.
    apply elem_of_app in Hx as [Hx|Hx].
    + destruct (Hclosed x y Hx Hxy) as [?|Hy]; [set_solver|].
      apply elem_of_cons in Hy as [->|?]; set_solver.
    + apply list_elem_of_singleton in Hx as ->.
      destruct (decide (y ∈ visited ++ [current])); auto.
  - rewrite elem_of_enqueue.
    destruct Horigin as [?|Ho]; [set_solver|].
    apply elem_of_cons in Ho as [->|?]; set_solver.
  - apply NoDup_app. repeat split; [done| |apply NoDup_singleton].
    intros x Hx ->%list_elem_of_singleton. done.
Qed.

Lemma chain_loop_inv origin fuel visited queue res :
  chain_inv idx direction origin visited queue →
  chain_loop fuel idx direction visited queue = Some res →
  chain_inv idx direction origin res [].
Proof.
  revert visited queue.
  induction fuel as [|fuel IH]; intros visited [|current queue] Hinv Hres;
    simpl in *; simplify_eq; try done.
  case_decide as Hvis.
  - eapply IH; [|done]. by eapply chain_inv_skip.
  - eapply IH; [|done]. by apply chain_inv_visit.
Qed.

Lemma chain_inv_complete origin visited x :
  chain_inv idx direction origin visited [] →
  x ∈ visited ↔ reachable idx direction origin x.
Proof.
  intros [Hreach Hclosed Horigin Hnd]. split; [auto|].
  assert (Ho : origin ∈ visited).
  { destruct Horigin as [?|Ho]; [done | by inversion Ho]. }
  intros Hx. unfold reachable in Hx. clear Hreach Horigin. revert Ho.
  induction Hx as [a|a b c Hab _ IH]; [done|].
  intros Ha. apply IH.
  destruct (Hclosed a b Ha Hab) as [?|Hb]; [done | by inversion Hb].
Qed.

Lemma chain_inv_init origin : chain_inv idx direction origin [] [origin].
Proof.
  split.
  - intros x [Hx|Hx]; [by inversion Hx|].
    apply list_elem_of_singleton in Hx as ->. apply rtc_refl.
  - intros x y Hx. by inversion Hx.
  - right. by apply list_elem_of_singleton.
  - apply NoDup_nil_2.
Qed.

(** C8.  On any adjacency maps, cyclic or not, the traversal finishes
    within its iteration budget and returns, each once, exactly the ids
    reachable from [taskId] in [direction], [taskId] itself left out. *)
Theorem getDependencyChain_reachable (taskId : TaskId) :
  ∃ chain : list TaskId,
    getDependencyChain idx taskId direction = Some chain
    ∧ NoDup chain
    ∧ ∀ x, x ∈ chain ↔ reachable idx direction taskId x ∧ x ≠ taskId.
Proof.
  unfold getDependencyChain.
  destruct (chain_loop_terminates (chain_fuel idx) [] [taskId]) as [visited Hloop].
  { unfold chain_fuel. simpl. lia. }
  rewrite Hloop. simpl. eexists. split; [done|].
  pose proof (chain_loop_inv taskId _ _ _ _ (chain_inv_init taskId) Hloop) as Hinv.
  split.
  - apply NoDup_filter, Hinv.
  - intros x. rewrite list_elem_of_filter, (chain_inv_complete taskId visited x Hinv).
    tauto.
Qed.

End dependency_chain.

(** ** A drag that cannot start changes nothing *)

Lemma temporal_set_id {S} (equality : S → S → bool) (limit : nat)
    (recipe : S → S) (st : Temporal.t S) :
  recipe (Temporal.present st) = Temporal.present st →
  equality (Temporal.present st) (Temporal.present st) = true →
  Temporal.set equality limit recipe st = st.
Proof.
  intros Hid Heq. unfold Temporal.set. rewrite Hid, Heq. by destruct st.
Qed.

Lemma GanttStore_equality_refl s : GanttStore.equality s s = true.
Proof. unfold GanttStore.equality. by apply bool_decide_eq_true. Qed.

Lemma DataStore_equality_refl s : DataStore.equality s s = true.
Proof. unfold DataStore.equality. by apply bool_decide_eq_true. Qed.

Lemma start_undraggable tasks taskId type startX startY :
  undraggable tasks taskId → Drag.start tasks taskId type startX startY = None.
Proof.
  unfold undraggable, Drag.start.
  destruct (tasks !! taskId) as [task|]; [|done]. by intros ->.
Qed.

(** C9.  For a task with [constraints.fixedTime] set, and for an id the
    store does not hold, [startDrag] creates no drag state and leaves the
    store as it was; so in the UI store beside the data store and in the
    combined store, history included. *)
Theorem startDrag_refused (taskId : TaskId) (type : DragType) (startX startY : Qc) :
  (∀ w : UIStore.World,
     undraggable (DataStore.tasks (DataStore.getState (UIStore.data w))) taskId →
     Drag.start (DataStore.tasks (DataStore.getState (UIStore.data w)))
                taskId type startX startY = None
     ∧ UIStore.startDrag taskId type startX startY w = w)
  ∧ (∀ store : GanttStore.Store,
       undraggable (GanttStore.tasks (GanttStore.getState store)) taskId →
       Drag.start (GanttStore.tasks (GanttStore.getState store))
                  taskId type startX startY = None
       ∧ GanttStore.startDrag taskId type startX startY store = store).
Proof.
  split.
  - intros w Hw. pose proof (start_undraggable _ _ type startX startY Hw) as Hnone.
    split; [done|]. unfold UIStore.startDrag. by rewrite Hnone.
  - intros store Hs. pose proof (start_undraggable _ _ type startX startY Hs) as Hnone.
    split; [done|]. unfold GanttStore.startDrag, GanttStore.set.
    apply temporal_set_id; [|apply GanttStore_equality_refl].
    unfold GanttStore.startDrag_recipe. unfold GanttStore.getState in Hnone.
    by rewrite Hnone.
Qed.

(** ** The undo history *)

Section temporal_facts.
Context {S : Type} (equality : S → S → bool) (limit : nat).
Implicit Types (st : Temporal.t S) (recipe : S → S).
Local Open Scope nat_scope.

Lemma length_handleSet (pastState : S) (past : list S) :
  limit ≠ O → length past ≤ limit →
  length (Temporal.handleSet limit pastState past) ≤ limit.
Proof.
  intros Hl Hp. unfold Temporal.handleSet. rewrite length_app. simpl.
  case_bool_decide as Hfull.
  - destruct past; simpl in *; lia.
  - lia.
Qed.

Lemma handleSet_room (pastState : S) (past : list S) :
  length past < limit →
  Temporal.handleSet limit pastState past = past ++ [pastState].
Proof.
  intros Hp. unfold Temporal.handleSet. rewrite bool_decide_eq_false_2; [done|lia].
Qed.

Lemma set_all (P : S → Prop) recipe st :
  Temporal.all P st → P (recipe (Temporal.present st)) →
  Temporal.all P (Temporal.set equality limit recipe st).
Proof.
  intros (Hp & Hpast & Hfut) Hr. unfold Temporal.set, Temporal.all.
  destruct (equality _ _); simpl; repeat split; auto.
  unfold Temporal.handleSet. apply Forall_app. split; [|by apply Forall_singleton].
  case_bool_decide; [|done]. destruct (Temporal.pastStates st); [done|].
  by eapply Forall_cons_1.
Qed.

Lemma undo_all (P : S → Prop) st :
  Temporal.all P st → Temporal.all P (Temporal.undo st).
Proof.
  intros (Hp & Hpast & Hfut). unfold Temporal.undo.
  destruct (reverse (Temporal.pastStates st)) as [|next rest] eqn:E; [done|].
  apply Forall_reverse in Hpast. rewrite E in Hpast.
  apply Forall_cons in Hpast as [Hn Hrest].
  repeat split; simpl; auto.
  - by apply Forall_reverse.
  - apply Forall_app. split; [done | by apply Forall_singleton].
Qed.

Lemma redo_all (P : S → Prop) st :
  Temporal.all P st → Temporal.all P (Temporal.redo st).
Proof.
  intros (Hp & Hpast & Hfut). unfold Temporal.redo.
  destruct (reverse (Temporal.futureStates st)) as [|next rest] eqn:E; [done|].
  apply Forall_reverse in Hfut. rewrite E in Hfut.
  apply Forall_cons in Hfut as [Hn Hrest].
  repeat split; simpl; auto.
  - apply Forall_app. split; [done | by apply Forall_singleton].
  - by apply Forall_reverse.
Qed.

Abbreviation within_limit := (Temporal.within_limit limit).

Lemma set_within_limit recipe st :
  limit ≠ O → within_limit st →
  within_limit (Temporal.set equality limit recipe st).
Proof.
  intros Hl Hw. unfold Temporal.within_limit, Temporal.set in *.
  destruct (equality _ _); simpl; [done|].
  pose proof (length_handleSet (Temporal.present st) (Temporal.pastStates st) Hl).
  lia.
Qed.

Lemma undo_within_limit st : within_limit st → within_limit (Temporal.undo st).
Proof.
  unfold Temporal.within_limit, Temporal.undo. intros Hw.
  destruct (reverse (Temporal.pastStates st)) as [|next rest] eqn:E; [done|].
  apply (f_equal length) in E. rewrite length_reverse in E. simpl in *.
  rewrite length_reverse, length_app. simpl. lia.
Qed.

Lemma redo_within_limit st : within_limit st → within_limit (Temporal.redo st).
Proof.
  unfold Temporal.within_limit, Temporal.redo. intros Hw.
  destruct (reverse (Temporal.futureStates st)) as [|next rest] eqn:E; [done|].
  apply (f_equal length) in E. rewrite length_reverse in E. simpl in *.
  rewrite length_reverse, length_app. simpl. lia.
Qed.

Lemma undo_empty st : Temporal.pastStates st = [] → Temporal.undo st = st.
Proof. intros E. unfold Temporal.undo. by rewrite E. Qed.

(** Undoing as many times as the history is long leads back to its
    oldest entry and empties it. *)
Lemma undo_all_the_way (n : nat) st :
  length (Temporal.pastStates st) ≤ n →
  Temporal.pastStates (Nat.iter n Temporal.undo st) = []
  ∧ Temporal.present (Nat.iter n Temporal.undo st) = Temporal.oldest st.
Proof.
  revert st. induction n as [|n IH]; intros st Hn.
  - destruct st as [p past fut]; simpl in *.
    destruct past; simpl in *; [done|lia].
  - rewrite Nat.iter_succ_r.
    destruct (reverse (Temporal.pastStates st)) as [|next rest] eqn:E.
    + apply (f_equal reverse) in E. rewrite reverse_involutive in E.
      rewrite (undo_empty st E). apply IH. rewrite E. simpl. lia.
    + assert (Hu : Temporal.undo st
                   = Temporal.mk next (reverse rest)
                                 (Temporal.futureStates st ++ [Temporal.present st])).
      { unfold Temporal.undo. by rewrite E. }
      apply (f_equal reverse) in E. rewrite reverse_involutive, reverse_cons in E.
      rewrite E, length_app in Hn. simpl in Hn.
      rewrite Hu. destruct (IH (Temporal.mk next (reverse rest)
             (Temporal.futureStates st ++ [Temporal.present st]))) as [H1 H2];
        [simpl; lia|].
      split; [done|]. rewrite H2. unfold Temporal.oldest. simpl. rewrite E.
      by destruct (reverse rest).
Qed.

End temporal_facts.

(** ** The derived fields are never stale *)

Lemma derived_ok_hydrate task : derived_ok (hydrateTask task).
Proof. by split. Qed.

Lemma derived_ok_recompute task : derived_ok (recompute task).
Proof. by split. Qed.

Lemma derived_ok_applyUpdates updates task :
  derived_ok task → derived_ok (Recipes.applyUpdates updates task).
Proof.
  intros [Htotal Hend]. unfold Recipes.applyUpdates.
  case_bool_decide as Hu; [apply derived_ok_recompute|].
  destruct (u_startTime updates) eqn:E1; [exfalso; apply Hu; left; eauto|].
  destruct (u_phases updates) eqn:E2; [exfalso; apply Hu; right; eauto|].
  unfold derived_ok, assign. simpl. by rewrite E1, E2.
Qed.

Lemma derived_ok_moveTask deltaTime newResourceId task :
  derived_ok task → derived_ok (Recipes.moveTask deltaTime newResourceId task).
Proof.
  intros [Htotal Hend]. unfold Recipes.moveTask.
  destruct newResourceId; by split.
Qed.

Lemma tasks_ok_empty : tasks_ok ∅.
Proof. intros k task Hk. by rewrite lookup_empty in Hk. Qed.

Lemma tasks_ok_insert tasks k task :
  tasks_ok tasks → derived_ok task → tasks_ok (<[k := task]> tasks).
Proof.
  intros Hm Ht k' task' Hk'. apply lookup_insert_Some in Hk'.
  destruct Hk' as [[_ <-]|[_ Hk']]; eauto.
Qed.

Lemma tasks_ok_delete tasks k : tasks_ok tasks → tasks_ok (delete k tasks).
Proof.
  intros Hm k' task' Hk'. apply lookup_delete_Some in Hk' as [_ Hk']. eauto.
Qed.

Lemma tasks_ok_setTasks ts : tasks_ok (Recipes.setTasks ts).
Proof.
  unfold Recipes.setTasks. generalize tasks_ok_empty.
  generalize (∅ : gmap string Task). induction ts as [|task ts IH]; simpl; [done|].
  intros m Hm. apply IH. apply tasks_ok_insert; [done | apply derived_ok_hydrate].
Qed.

Lemma tasks_ok_addTask task tasks :
  tasks_ok tasks → tasks_ok (Recipes.addTask task tasks).
Proof. intros Hm. apply tasks_ok_insert; [done | apply derived_ok_hydrate]. Qed.

Lemma tasks_ok_updateTask taskId updates tasks :
  tasks_ok tasks → tasks_ok (Recipes.updateTask taskId updates tasks).
Proof.
  intros Hm. unfold Recipes.updateTask.
  destruct (tasks !! taskId) as [task|] eqn:E; [|done].
  apply tasks_ok_insert; [done|]. apply derived_ok_applyUpdates. eauto.
Qed.

Lemma tasks_ok_updateTasks updates tasks :
  tasks_ok tasks → tasks_ok (Recipes.updateTasks updates tasks).
Proof.
  unfold Recipes.updateTasks. revert tasks.
  induction updates as [|[taskId u] updates IH]; simpl; [done|].
  intros tasks Hm. by apply IH, tasks_ok_updateTask.
Qed.

Lemma tasks_ok_moveTasks taskIds deltaTime newResourceId tasks :
  tasks_ok tasks → tasks_ok (Recipes.moveTasks taskIds deltaTime newResourceId tasks).
Proof.
  unfold Recipes.moveTasks. revert tasks.
  induction taskIds as [|taskId taskIds IH]; simpl; [done|].
  intros tasks Hm. apply IH.
  destruct (tasks !! taskId) as [task|] eqn:E; [|done].
  destruct (is_fixedTime task); [done|].
  apply tasks_ok_insert; [done|]. apply derived_ok_moveTask. eauto.
Qed.

Section session_facts.
Import UIStore Session.

Abbreviation state_ok := DataStore.state_ok.

Lemma data_set_ok recipe (store : DataStore.Store) :
  Temporal.all state_ok store →
  (∀ s, state_ok s → state_ok (recipe s)) →
  Temporal.all state_ok (DataStore.set recipe store).
Proof. intros Hall Hr. apply set_all; [done|]. apply Hr, Hall. Qed.

Lemma commitDrag_ok w w' :
  Temporal.all state_ok (data w) → commitDrag w = Some w' →
  Temporal.all state_ok (data w').
Proof.
  intros Hall. unfold commitDrag.
  destruct (drag (ui w)) as [d|]; [|by intros [= <-]].
  case_bool_decide; [by intros [= <-]|].
  destruct (Drag.updates _ _ _ _) as [u|]; [|done]. simpl. intros [= <-]. simpl.
  apply data_set_ok; [done|]. intros s Hs. by apply tasks_ok_updateTask.
Qed.

Lemma perform_ok a w w' :
  Temporal.all state_ok (data w) → perform a w = Some w' →
  Temporal.all state_ok (data w').
Proof.
  intros Hall. unfold perform. destruct (divides_by_zero a w); [done|].
  destruct a; try (intros [= <-]; simpl);
    try (apply data_set_ok; [done|]; intros s Hs; unfold DataStore.state_ok in *; simpl);
    eauto using tasks_ok_setTasks, tasks_ok_addTask, tasks_ok_updateTask,
      tasks_ok_updateTasks, tasks_ok_moveTasks, tasks_ok_delete,
      undo_all, redo_all, commitDrag_ok.
  - unfold startDrag. by destruct (Drag.start _ _ _ _ _).
  - unfold updateDrag. by destruct (drag (ui w)).
Qed.

Lemma run_ok actions w w' :
  Temporal.all state_ok (data w) → run actions w = Some w' →
  Temporal.all state_ok (data w').
Proof.
  revert w. induction actions as [|a actions IH]; simpl; intros w Hall.
  - by intros [= <-].
  - destruct (perform a w) as [w1|] eqn:E; [|done]. simpl.
    apply IH. by eapply perform_ok.
Qed.

Lemma initial_ok now : Temporal.all state_ok (data (initial now)).
Proof. repeat split; simpl; try done; apply tasks_ok_empty. Qed.

(** C5.  Whatever actions have run on the stores since their creation
    (loading and editing tasks, moving them, committing drags, undoing and
    redoing), every task the data store holds has [_totalDuration] equal
    to the sum of its phase durations and [_endTime] equal to its start
    plus that many minutes. *)
Theorem derived_fields_never_stale (now : Qc) (actions : list Action) (w : World) :
  run actions (initial now) = Some w →
  ∀ (k : string) (task : Task), current_tasks w !! k = Some task →
    _totalDuration task = calculateTotalDuration (phases task)
    ∧ _endTime task = startTime task + _totalDuration task * of_Z 60 * of_Z 1000.
Proof.
  intros Hrun k task Hk.
  pose proof (run_ok actions _ _ (initial_ok now) Hrun) as (Hp & _).
  exact (Hp k task Hk).
Qed.

End session_facts.

(** ** Undo leads back through the committed moves *)

Section undo_facts.
Import UIStore Session.
Local Open Scope nat_scope.

Lemma equality_tracked a b :
  DataStore.equality a b = true ↔ DataStore.tracked a = DataStore.tracked b.
Proof.
  unfold DataStore.equality, DataStore.tracked.
  rewrite bool_decide_eq_true. split; [by intros [-> ->] | by intros [= -> ->]].
Qed.

(** While there is room in the history, a write keeps what the oldest
    entry leads back to, and adds at most one entry. *)
Lemma set_oldest recipe (store : DataStore.Store) :
  length (Temporal.pastStates store) < DataStore.limit →
  DataStore.tracked (Temporal.oldest (DataStore.set recipe store))
  = DataStore.tracked (Temporal.oldest store)
  ∧ length (Temporal.pastStates (DataStore.set recipe store))
    ≤ Datatypes.S (length (Temporal.pastStates store)).
Proof.
  intros Hroom. unfold DataStore.set, Temporal.set, Temporal.oldest.
  destruct (DataStore.equality _ _) eqn:E; simpl.
  - split; [|lia]. destruct (Temporal.pastStates store); simpl; [|done].
    symmetry. by apply equality_tracked.
  - rewrite handleSet_room by done. rewrite length_app. simpl. split; [|lia].
    by destruct (Temporal.pastStates store).
Qed.

Lemma view_only_data a w w' :
  view_only a = true → perform a w = Some w' → data w' = data w.
Proof.
  unfold perform. destruct (divides_by_zero a w); [done|].
  destruct a; try done; intros _ [= <-]; try done.
  - unfold startDrag. by destruct (Drag.start _ _ _ _ _).
  - unfold updateDrag. by destruct (drag (ui w)).
Qed.

Lemma commitDrag_within_limit w w' :
  Temporal.within_limit DataStore.limit (data w) → commitDrag w = Some w' →
  Temporal.within_limit DataStore.limit (data w').
Proof.
  intros Hw. unfold commitDrag.
  destruct (drag (ui w)) as [d|]; [|by intros [= <-]].
  case_bool_decide; [by intros [= <-]|].
  destruct (Drag.updates _ _ _ _) as [u|]; [|done]. simpl. intros [= <-]. simpl.
  by apply set_within_limit.
Qed.

Lemma perform_within_limit a w w' :
  Temporal.within_limit DataStore.limit (data w) → perform a w = Some w' →
  Temporal.within_limit DataStore.limit (data w').
Proof.
  intros Hw Hperf.
  destruct (view_only a) eqn:Hv; [by rewrite (view_only_data a w w' Hv Hperf)|].
  revert Hperf. unfold perform. destruct (divides_by_zero a w); [done|].
  destruct a; try done; try (intros [= <-]; simpl);
    eauto using set_within_limit, undo_within_limit, redo_within_limit,
      commitDrag_within_limit.
Qed.

Lemma run_within_limit actions w w' :
  Temporal.within_limit DataStore.limit (data w) → run actions w = Some w' →
  Temporal.within_limit DataStore.limit (data w').
Proof.
  revert w. induction actions as [|a actions IH]; simpl; intros w Hw.
  - by intros [= <-].
  - destruct (perform a w) as [w1|] eqn:E; [|done]. simpl.
    apply IH. by eapply perform_within_limit.
Qed.

Lemma undo_thrice (store : DataStore.Store) :
  Nat.iter 3 Temporal.undo store
  = DataStore.undo (DataStore.undo (DataStore.undo store)).
Proof. reflexivity. Qed.

(** Three writes to a store without history add at most three entries,
    the oldest of which leads back to the tracked part there was. *)
Lemma three_writes_oldest (r1 r2 r3 : DataStore.State → DataStore.State)
    (store0 : DataStore.Store) :
  Temporal.pastStates store0 = [] →
  length (Temporal.pastStates
            (DataStore.set r3 (DataStore.set r2 (DataStore.set r1 store0)))) ≤ 3
  ∧ DataStore.tracked
      (Temporal.oldest (DataStore.set r3 (DataStore.set r2 (DataStore.set r1 store0))))
    = DataStore.tracked (Temporal.present store0).
Proof.
  intros Hempty.
  assert (Hlimit : DataStore.limit = 50) by reflexivity.
  pose proof (set_oldest r1 store0) as H1.
  remember (DataStore.set r1 store0) as store1 eqn:E1.
  pose proof (set_oldest r2 store1) as H2.
  remember (DataStore.set r2 store1) as store2 eqn:E2.
  pose proof (set_oldest r3 store2) as H3.
  remember (DataStore.set r3 store2) as store3 eqn:E3.
  clear E1 E2 E3. rewrite Hempty, Hlimit in H1. rewrite Hlimit in H2, H3.
  cbn [length] in H1.
  destruct H1 as [Ht1 Hl1]; [lia|].
  destruct H2 as [Ht2 Hl2]; [lia|].
  destruct H3 as [Ht3 Hl3]; [lia|].
  split; [lia|]. rewrite Ht3, Ht2, Ht1. unfold Temporal.oldest. by rewrite Hempty.
Qed.

(** Three undos of a history of at most three entries. *)
Lemma undone_thrice (store3 store0 : DataStore.Store) :
  length (Temporal.pastStates store3) ≤ 3 →
  DataStore.tracked (Temporal.oldest store3)
  = DataStore.tracked (Temporal.present store0) →
  let undone := DataStore.undo (DataStore.undo (DataStore.undo store3)) in
  DataStore.tasks (DataStore.getState undone)
  = DataStore.tasks (Temporal.present store0)
  ∧ DataStore.undo undone = undone.
Proof.
  intros Hl Ht0. cbv zeta.
  destruct (undo_all_the_way 3 store3) as [Hpast Hpresent]; [lia|].
  rewrite undo_thrice in Hpast, Hpresent.
  remember (DataStore.undo (DataStore.undo (DataStore.undo store3))) as undone.
  split; [|by apply undo_empty].
  assert (Ht : DataStore.tracked (Temporal.present undone)
               = DataStore.tracked (Temporal.present store0)).
  { by rewrite Hpresent. }
  exact (f_equal fst Ht).
Qed.

(** Three writes to a store without history, then three undos. *)
Lemma three_writes_undone (r1 r2 r3 : DataStore.State → DataStore.State)
    (store0 : DataStore.Store) :
  Temporal.pastStates store0 = [] →
  let store3 := DataStore.set r3 (DataStore.set r2 (DataStore.set r1 store0)) in
  let undone := DataStore.undo (DataStore.undo (DataStore.undo store3)) in
  DataStore.tasks (DataStore.getState undone)
  = DataStore.tasks (Temporal.present store0)
  ∧ DataStore.undo undone = undone.
Proof.
  intros Hempty store3.
  destruct (three_writes_oldest r1 r2 r3 store0 Hempty) as [Hl Ht].
  exact (undone_thrice store3 store0 Hl Ht).
Qed.

(** C4.  From an empty history, three moves of tasks followed by three
    undos give back the task collection there was, and a fourth undo
    changes nothing; the history never holds more than 50 entries; and
    panning, zooming, selecting and the drag preview leave the data store
    and its history as they are. *)
Theorem undo_three_moves (s0 : DataStore.State)
    (ids1 ids2 ids3 : list TaskId) (delta1 delta2 delta3 : Qc)
    (res1 res2 res3 : option ResourceId) :
  let store0 := Temporal.init s0 in
  let store3 :=
    DataStore.moveTasks ids3 delta3 res3
      (DataStore.moveTasks ids2 delta2 res2
         (DataStore.moveTasks ids1 delta1 res1 store0)) in
  let undone := DataStore.undo (DataStore.undo (DataStore.undo store3)) in
  DataStore.tasks (DataStore.getState undone) = DataStore.tasks s0
  ∧ DataStore.undo undone = undone
  ∧ (∀ now actions w, run actions (initial now) = Some w →
       length (Temporal.pastStates (data w)) ≤ 50)
  ∧ (∀ a w w', view_only a = true → perform a w = Some w' → data w' = data w).
Proof.
  intros store0 store3 undone. unfold DataStore.moveTasks in store3.
  pose proof (three_writes_undone
                (DataStore.moveTasks_recipe ids1 delta1 res1)
                (DataStore.moveTasks_recipe ids2 delta2 res2)
                (DataStore.moveTasks_recipe ids3 delta3 res3)
                store0 eq_refl) as Hundone.
  split; [exact (proj1 Hundone)|split; [exact (proj2 Hundone)|split]].
  - intros now actions w Hrun.
    assert (Hw : Temporal.within_limit DataStore.limit (data w)).
    { eapply run_within_limit; [|done]. unfold Temporal.within_limit. simpl.
      unfold DataStore.limit. lia. }
    unfold Temporal.within_limit, DataStore.limit in Hw. lia.
  - apply view_only_data.
Qed.

End undo_facts.

(** ** Rounding and snapping *)

Lemma Qfloor_half (k : Z) : Qfloor (inject_Z k + (1 # 2))%Q = k.
Proof.
  pose proof (Qfloor_le (inject_Z k + (1 # 2))) as Hle.
  pose proof (Qlt_floor (inject_Z k + (1 # 2))) as Hlt.
  set (f := Qfloor (inject_Z k + (1 # 2))%Q) in *.
  rewrite inject_Z_plus in Hlt.
  assert (H1 : (f < k + 1)%Z).
  { apply Z.lt_nge. intros Hge. rewrite Zle_Qle, inject_Z_plus in Hge.
    change (inject_Z 1) with 1%Q in *. lra. }
  assert (H2 : (k < f + 1)%Z).
  { apply Z.lt_nge. intros Hge. rewrite Zle_Qle, inject_Z_plus in Hge.
    change (inject_Z 1) with 1%Q in *. lra. }
  lia.
Qed.

Lemma Math_round_of_Z (k : Z) : Math_round (of_Z k) = of_Z k.
Proof.
  unfold Math_round. f_equal. rewrite <- (Qfloor_half k) at 2.
  apply Qfloor_comp. simpl. rewrite Qred_correct. reflexivity.
Qed.

Lemma Math_round_integer x : is_integer x → Math_round x = x.
Proof. intros <-. apply Math_round_of_Z. Qed.

Lemma minute_nonzero : of_Z 60 * of_Z 1000 ≠ 0.
Proof. qc_eval. Qed.

Lemma ZOOM_SNAP_INTERVALS_pos z : 0 < ZOOM_SNAP_INTERVALS z.
Proof. destruct z; qc_eval. Qed.

Lemma getSnapIntervalMs_nonzero z minResolution :
  getSnapIntervalMs z minResolution ≠ 0.
Proof.
  unfold getSnapIntervalMs. intros H.
  assert (Hm : Math_max (ZOOM_SNAP_INTERVALS z) minResolution ≠ 0).
  { intros E. pose proof (Math_max_l (ZOOM_SNAP_INTERVALS z) minResolution) as Hle.
    rewrite E in Hle. eapply Qcle_not_lt; [exact Hle|]. apply ZOOM_SNAP_INTERVALS_pos. }
  rewrite <- Qcmult_assoc in H. apply Qcmult_integral in H as [H|H]; [done|].
  by apply minute_nonzero.
Qed.

Lemma snap_on_grid interval t :
  interval ≠ 0 → on_grid interval t → GanttStore.snap interval t = t.
Proof.
  intros Hi [k ->]. unfold GanttStore.snap.
  replace (of_Z k * interval / interval) with (of_Z k) by (field; done).
  by rewrite Math_round_of_Z.
Qed.

(** ** A drag that does not move commits the task as it is *)

Lemma scalePhases_one ps :
  Forall (λ p, is_integer (duration p)) ps → Drag.scalePhases 1 ps = ps.
Proof.
  induction 1 as [|[ty d c] ps Hd _ IH]; simpl; [done|].
  f_equal; [|done]. simpl in Hd. f_equal.
  rewrite Qcmult_1_r. by apply Math_round_integer.
Qed.

Lemma applyUpdates_same_move (task : Task) :
  derived_ok task →
  Recipes.applyUpdates
    (mkUpdates None (Some (startTime task)) None (Some (resourceId task))
               None None None None None None None None) task = task.
Proof.
  intros [Htotal Hend]. unfold Recipes.applyUpdates.
  rewrite bool_decide_eq_true_2 by (left; eauto).
  destruct task as [[] e t]. unfold recompute, assign. simpl in *. by subst.
Qed.

Lemma applyUpdates_same_resize (task : Task) :
  derived_ok task →
  Recipes.applyUpdates
    (mkUpdates None (Some (startTime task)) (Some (phases task)) None
               None None None None None None None None) task = task.
Proof.
  intros [Htotal Hend]. unfold Recipes.applyUpdates.
  rewrite bool_decide_eq_true_2 by (left; eauto).
  destruct task as [[] e t]. unfold recompute, assign. simpl in *. by subst.
Qed.

(** The drag state [startDrag] creates for [task]. *)
Lemma start_draggable tasks taskId task type startX startY :
  tasks !! taskId = Some task → is_fixedTime task = false →
  Drag.start tasks taskId type startX startY
  = Some (mkDrag type taskId task (startTime task) (_endTime task)
                 (resourceId task) [] [] startX startY startX startY).
Proof. intros Hk Hf. unfold Drag.start. by rewrite Hk, Hf. Qed.

(** Bringing the pointer back to where the drag began restores the preview. *)
Lemma update_at_origin minDurationMs viewport type taskId (task : Task) x y :
  pixelsPerHour viewport ≠ 0 →
  (is_resize type → startTime task + minDurationMs ≤ _endTime task) →
  let d := mkDrag type taskId task (startTime task) (_endTime task)
                  (resourceId task) [] [] x y x y in
  Drag.update minDurationMs viewport x y d = d.
Proof.
  intros Hp Hspan d. unfold Drag.update.
  replace ((x - startX d) * (1 / pixelsPerHour viewport) * of_Z 60 * of_Z 60 * of_Z 1000)
    with (0 : Qc) by (simpl; field; done).
  unfold d. destruct type; simpl in *.
  - unfold Drag.set_previewEndTime, Drag.set_previewStartTime, Drag.set_pointer.
    simpl. by rewrite !Qcplus_0_r.
  - unfold Drag.set_previewStartTime, Drag.set_pointer. simpl.
    rewrite Qcplus_0_r. unfold Math_min.
    destruct (Qclt_le_dec _ _) as [Hlt|_]; [|done].
    exfalso. eapply Qclt_not_le; [exact Hlt|].
    specialize (Hspan I).
    apply (Qcplus_le_mono_r _ _ (- minDurationMs)) in Hspan.
    replace (startTime task + minDurationMs + - minDurationMs)
      with (startTime task) in Hspan by ring.
    exact Hspan.
  - unfold Drag.set_previewEndTime, Drag.set_pointer. simpl.
    rewrite Qcplus_0_r. unfold Math_max.
    destruct (Qclt_le_dec _ _) as [Hlt|_]; [|done].
    exfalso. eapply Qclt_not_le; [exact Hlt|]. by apply Hspan.
  - unfold Drag.set_previewEndTime, Drag.set_previewStartTime, Drag.set_pointer.
    simpl. by rewrite !Qcplus_0_r.
Qed.

(** The updates a commit at the task's own start and end hands over write
    the task's own values back. *)
Lemma updates_same (d : DragState) (task : Task) (newEnd : Qc) :
  derived_ok task →
  previewResourceId d = resourceId task →
  (is_resize (drag_type d) →
   newEnd = _endTime task ∧ _totalDuration task ≠ 0
   ∧ Forall (λ p, is_integer (duration p)) (phases task)) →
  ∃ u, Drag.updates d (startTime task) newEnd (Some task) = Some u
       ∧ Recipes.applyUpdates u task = task.
Proof.
  intros Hok Hres Hresize. unfold Drag.updates.
  assert (Hone : is_resize (drag_type d) →
    (newEnd - startTime task) / (of_Z 60 * of_Z 1000) / _totalDuration task = 1).
  { intros Hr. destruct (Hresize Hr) as (-> & Htotal & _). destruct Hok as [_ ->].
    pose proof minute_nonzero. field. by split. }
  destruct (drag_type d) eqn:Hty; simpl in *;
    try (eexists; split; [done|]; rewrite Hres; by apply applyUpdates_same_move);
    destruct (Hresize I) as (_ & _ & Hwhole); eexists; (split; [done|]);
    rewrite (Hone I), scalePhases_one by done; by apply applyUpdates_same_resize.
Qed.

Lemma temporal_set_present {S} (equality : S → S → bool) limit recipe (st : Temporal.t S) :
  Temporal.present (Temporal.set equality limit recipe st)
  = recipe (Temporal.present st).
Proof. unfold Temporal.set. by destruct (equality _ _). Qed.

Lemma updateTask_same taskId u (task : Task) tasks :
  tasks !! taskId = Some task → Recipes.applyUpdates u task = task →
  Recipes.updateTask taskId u tasks = tasks.
Proof.
  intros Hk Hu. unfold Recipes.updateTask. rewrite Hk, Hu. by apply insert_id.
Qed.

Section zero_movement.
Context (tid : TaskId) (task : Task) (type : DragType) (x y : Qc) (touch : bool).
Context (Hok : derived_ok task) (Hfree : is_fixedTime task = false).
Context (Hresize : is_resize type →
           _totalDuration task ≠ 0
           ∧ Forall (λ p, is_integer (duration p)) (phases task)).

Let d0 : DragState :=
  mkDrag type tid task (startTime task) (_endTime task)
         (resourceId task) [] [] x y x y.

Lemma split_commit_still (w : UIStore.World) :
  Session.current_tasks w !! tid = Some task →
  (touch = true →
   pixelsPerHour (UIStore.viewport (UIStore.ui w)) ≠ 0
   ∧ (is_resize type →
      startTime task + of_Z 15 * of_Z 60 * of_Z 1000 ≤ _endTime task)) →
  ∃ w',
    UIStore.commitDrag (UIStore.still_gesture tid type x y touch w) = Some w'
    ∧ Session.current_tasks w' = Session.current_tasks w.
Proof.
  intros Hk Htouch. unfold Session.current_tasks in *.
  assert (H1 : UIStore.startDrag tid type x y w
               = UIStore.on_ui (UIStore.set_drag (Some d0)) w).
  { unfold UIStore.startDrag. by rewrite (start_draggable _ _ task). }
  assert (H2 : UIStore.still_gesture tid type x y touch w
               = UIStore.on_ui (UIStore.set_drag (Some d0)) w).
  { unfold UIStore.still_gesture. rewrite H1. destruct touch; [|done].
    destruct (Htouch eq_refl) as [Hp Hspan].
    unfold UIStore.updateDrag.
    cbn [UIStore.ui UIStore.drag UIStore.on_ui UIStore.set_drag UIStore.viewport].
    by rewrite (update_at_origin _ _ type tid task x y Hp Hspan
                  : Drag.update _ _ x y d0 = d0). }
  rewrite H2. unfold UIStore.commitDrag. simpl.
  destruct (updates_same d0 task (_endTime task) Hok eq_refl) as (u & Hu & Hsame).
  { intros Hr. destruct (Hresize Hr). done. }
  rewrite Hk. simpl in Hu. rewrite Hu. simpl. eexists. split; [done|]. simpl.
  unfold DataStore.updateTask, DataStore.set, DataStore.getState.
  rewrite temporal_set_present. simpl. by apply updateTask_same with task.
Qed.

Lemma combined_commit_still (store : GanttStore.Store) :
  let s := GanttStore.getState store in
  let interval :=
    getSnapIntervalMs (zoomLevel (GanttStore.viewport s)) (GanttStore.minResolution s) in
  GanttStore.tasks s !! tid = Some task →
  on_grid interval (startTime task) →
  (is_resize type → on_grid interval (_endTime task)) →
  (touch = true →
   pixelsPerHour (GanttStore.viewport s) ≠ 0
   ∧ (is_resize type →
      startTime task + GanttStore.minResolution s * of_Z 60 * of_Z 1000
      ≤ _endTime task)) →
  ∃ store',
    GanttStore.commitDrag (GanttStore.still_gesture tid type x y touch store)
    = Some store'
    ∧ GanttStore.tasks (GanttStore.getState store') = GanttStore.tasks s.
Proof.
  intros s interval Hk Hstart Hend Htouch.
  pose proof (getSnapIntervalMs_nonzero (zoomLevel (GanttStore.viewport s))
                (GanttStore.minResolution s)) as Hi. fold interval in Hi.
  assert (H2 : GanttStore.getState (GanttStore.still_gesture tid type x y touch store)
               = GanttStore.set_drag (Some d0) s).
  { unfold GanttStore.still_gesture, GanttStore.updateDrag,
      GanttStore.startDrag, GanttStore.set.
    assert (H1 : GanttStore.startDrag_recipe tid type x y s
                 = GanttStore.set_drag (Some d0) s).
    { unfold GanttStore.startDrag_recipe. by rewrite (start_draggable _ _ task). }
    unfold GanttStore.getState at 1.
    destruct touch; rewrite ?temporal_set_present;
      change (Temporal.present store) with s; rewrite H1; [|done].
    destruct (Htouch eq_refl) as [Hp Hspan].
    unfold GanttStore.updateDrag_recipe.
    cbn [GanttStore.drag GanttStore.set_drag GanttStore.viewport
         GanttStore.minResolution].
    by rewrite (update_at_origin _ _ type tid task x y Hp Hspan
                  : Drag.update _ _ x y d0 = d0). }
  unfold GanttStore.commitDrag. rewrite H2.
  cbn [GanttStore.drag GanttStore.set_drag GanttStore.viewport
       GanttStore.minResolution GanttStore.tasks dependencyViolations d0
       taskId previewStartTime previewEndTime].
  rewrite bool_decide_eq_false_2 by (intros H; by apply H).
  fold interval. rewrite Hk, (snap_on_grid interval (startTime task) Hi Hstart).
  destruct (updates_same d0 task (GanttStore.snap interval (_endTime task))
              Hok eq_refl) as (u & Hu & Hsame).
  { intros Hr. destruct (Hresize Hr). split; [|done].
    apply snap_on_grid; [done|]. by apply Hend. }
  rewrite Hu. simpl. eexists. split; [done|].
  unfold GanttStore.getState, GanttStore.updateTask, GanttStore.set.
  rewrite !temporal_set_present.
  fold (GanttStore.getState (GanttStore.still_gesture tid type x y touch store)).
  rewrite H2. simpl. by apply updateTask_same with task.
Qed.

End zero_movement.

(** C1, as the code has it.  A drag that ends where it began leaves the
    task's [startTime], [phases] and [resourceId] as they were, provided
    that: the store does not snap (UI store) or the task's start, and for a
    resize its end, already lie on the snap grid (combined store); for a
    resize, the phase durations are whole minutes and their total is not
    zero; and, when the preview was updated at the starting point, the zoom
    is not zero and a resized task is no shorter than the minimum span. *)
Theorem commit_without_movement
    (taskId : TaskId) (task : Task) (type : DragType) (x y : Qc) (touch : bool) :
  derived_ok task → is_fixedTime task = false →
  (is_resize type →
   _totalDuration task ≠ 0 ∧ Forall (λ p, is_integer (duration p)) (phases task)) →
  (∀ w : UIStore.World,
     Session.current_tasks w !! taskId = Some task →
     (touch = true →
      pixelsPerHour (UIStore.viewport (UIStore.ui w)) ≠ 0
      ∧ (is_resize type →
         startTime task + of_Z 15 * of_Z 60 * of_Z 1000 ≤ _endTime task)) →
     ∃ (w' : UIStore.World) (task' : Task),
       UIStore.commitDrag (UIStore.still_gesture taskId type x y touch w) = Some w'
       ∧ Session.current_tasks w' !! taskId = Some task'
       ∧ startTime task' = startTime task
       ∧ phases task' = phases task
       ∧ resourceId task' = resourceId task)
  ∧ (∀ store : GanttStore.Store,
       let s := GanttStore.getState store in
       let interval :=
         getSnapIntervalMs (zoomLevel (GanttStore.viewport s))
                           (GanttStore.minResolution s) in
       GanttStore.tasks s !! taskId = Some task →
       on_grid interval (startTime task) →
       (is_resize type → on_grid interval (_endTime task)) →
       (touch = true →
        pixelsPerHour (GanttStore.viewport s) ≠ 0
        ∧ (is_resize type →
           startTime task + GanttStore.minResolution s * of_Z 60 * of_Z 1000
           ≤ _endTime task)) →
       ∃ (store' : GanttStore.Store) (task' : Task),
         GanttStore.commitDrag (GanttStore.still_gesture taskId type x y touch store)
         = Some store'
         ∧ GanttStore.tasks (GanttStore.getState store') !! taskId = Some task'
         ∧ startTime task' = startTime task
         ∧ phases task' = phases task
         ∧ resourceId task' = resourceId task).
Proof.
  intros Hok Hfree Hresize. split.
  - intros w Hk Htouch.
    destruct (split_commit_still taskId task type x y touch Hok Hfree Hresize w Hk Htouch)
      as (w' & Hc & Ht).
    exists w', task. by rewrite Ht.
  - intros store s interval Hk Hstart Hend Htouch.
    destruct (combined_commit_still taskId task type x y touch Hok Hfree Hresize
                store Hk Hstart Hend Htouch) as (store' & Hc & Ht).
    exists store', task. by rewrite Ht.
Qed.

(** ** A resize scales every phase *)



Lemma lookup_updateTask taskId u (task : Task) (tasks : gmap string Task) :
  tasks !! taskId = Some task →
  Recipes.updateTask taskId u tasks !! taskId = Some (Recipes.applyUpdates u task).
Proof. intros Hk. unfold Recipes.updateTask. rewrite Hk. apply lookup_insert_eq. Qed.




(** ** The statements at the sample data *)

Example getDependencyChain_circle :
  IndexManager.getDependencyChain Sample.circle "a" IndexManager.successors
  = Some ["b"; "g"]
  ∧ IndexManager.getDependencyChain Sample.circle "a" IndexManager.predecessors
    = Some ["g"; "s"; "b"]
  ∧ IndexManager.getDependencyChain Sample.circle "a" IndexManager.both
    = Some ["g"; "s"; "b"].
Proof. repeat split; compute_done. Qed.

Example queryPoint_inside_outside_witness :
  "a" ∈ SpatialIndex.queryPoint (of_Z 3600000) (of_Z 20)
          (SpatialIndex.rebuild [Sample.taskA; Sample.taskG] [Sample.row1]
                                SpatialIndex.empty)
  ∧ "a" ∉ SpatialIndex.queryPoint (of_Z 9000000) (of_Z 20)
            (SpatialIndex.rebuild [Sample.taskA; Sample.taskG] [Sample.row1]
                                  SpatialIndex.empty).
Proof.
  assert (Hnd : NoDup (map (λ k : Task, id k) [Sample.taskA; Sample.taskG]))
    by compute_done.
  assert (Hin : Sample.taskA ∈ [Sample.taskA; Sample.taskG]) by compute_done.
  assert (Hrow : SpatialIndex.rowByResource [Sample.row1] !! resourceId Sample.taskA
                 = Some Sample.row1) by compute_done.
  destruct (queryPoint_inside_outside [Sample.taskA; Sample.taskG] [Sample.row1]
              SpatialIndex.empty Sample.taskA Sample.row1 (of_Z 3600000) (of_Z 20)
              Hnd Hin Hrow) as [Hinside _].
  destruct (queryPoint_inside_outside [Sample.taskA; Sample.taskG] [Sample.row1]
              SpatialIndex.empty Sample.taskA Sample.row1 (of_Z 9000000) (of_Z 20)
              Hnd Hin Hrow) as [_ Houtside].
  split.
  - apply Hinside; split; compute_done.
  - apply Houtside. right. left. compute_done.
Defined.

Example startDrag_refused_witness :
  UIStore.startDrag "f" move 0 0 Sample.split = Sample.split
  ∧ GanttStore.startDrag "nowhere" resize_end 0 0 Sample.combined = Sample.combined.
Proof.
  split.
  - apply (proj1 (startDrag_refused "f" move 0 0) Sample.split). compute_done.
  - apply (proj2 (startDrag_refused "nowhere" resize_end 0 0) Sample.combined).
    compute_done.
Defined.

Example derived_fields_never_stale_witness :
  from_option
    (λ w, from_option
            (λ task : Task,
               _totalDuration task = calculateTotalDuration (phases task)
               ∧ _endTime task
                 = startTime task + _totalDuration task * of_Z 60 * of_Z 1000)
            False (Session.current_tasks w !! "a"))
    False (Session.run Sample.session (Session.initial 0)).
Proof.
  destruct (Session.run Sample.session (Session.initial 0)) as [w|] eqn:Hrun; simpl.
  - destruct (Session.current_tasks w !! "a") as [task|] eqn:Hk; simpl.
    + exact (derived_fields_never_stale 0 Sample.session w Hrun "a" task Hk).
    + assert (Ha : is_Some (w ← Session.run Sample.session (Session.initial 0);
                            Session.current_tasks w !! "a")) by compute_done.
      rewrite Hrun in Ha. simpl in Ha. rewrite Hk in Ha. by destruct Ha.
  - assert (Hsome : is_Some (Session.run Sample.session (Session.initial 0)))
      by compute_done.
    rewrite Hrun in Hsome. by destruct Hsome.
Defined.

Example undo_three_moves_witness :
  from_option
    (λ w, (length (Temporal.pastStates (UIStore.data w)) ≤ 50)%nat)
    False (Session.run Sample.session (Session.initial 0))
  ∧ UIStore.data Sample.split_shrinking = UIStore.data Sample.split
  ∧ DataStore.tasks
      (DataStore.getState
         (DataStore.undo (DataStore.undo (DataStore.undo
            (DataStore.moveTasks ["b"] (of_Z 60000) (Some "r2")
               (DataStore.moveTasks ["a"; "f"] (of_Z 60000) None
                  (DataStore.moveTasks ["a"] (of_Z 60000) None
                     (Temporal.init
                        (DataStore.getState (UIStore.data Sample.split))))))))))
    = DataStore.tasks (DataStore.getState (UIStore.data Sample.split)).
Proof.
  pose proof (undo_three_moves (DataStore.getState (UIStore.data Sample.split))
                ["a"] ["a"; "f"] ["b"] (of_Z 60000) (of_Z 60000) (of_Z 60000)
                None None (Some "r2")) as H.
  cbv zeta in H. destruct H as (Hundone & _ & Hbound & Hview).
  split; [|split; [|exact Hundone]].
  - destruct (Session.run Sample.session (Session.initial 0)) as [w|] eqn:Hrun; simpl.
    + exact (Hbound 0 Sample.session w Hrun).
    + assert (Hsome : is_Some (Session.run Sample.session (Session.initial 0)))
        by compute_done.
      rewrite Hrun in Hsome. by destruct Hsome.
  - unfold Sample.split_shrinking.
    rewrite (Hview (Session.UpdateDrag (of_Z (-70)) 0)
                   (UIStore.startDrag "a" resize_end 0 0 Sample.split_hour)
                   (UIStore.updateDrag (of_Z (-70)) 0
                      (UIStore.startDrag "a" resize_end 0 0 Sample.split_hour))
                   eq_refl); [|compute_done].
    rewrite (Hview (Session.StartDrag "a" resize_end 0 0) Sample.split_hour
                   (UIStore.startDrag "a" resize_end 0 0 Sample.split_hour) eq_refl);
      [|compute_done].
    apply (Hview (Session.ZoomViewport (of_Z 6) 0) Sample.split Sample.split_hour
                 eq_refl).
    compute_done.
Defined.

Example commit_without_movement_witness :
  (∃ (w' : UIStore.World) (task' : Task),
     UIStore.commitDrag (UIStore.still_gesture "g" resize_end 0 0 true Sample.split)
     = Some w'
     ∧ Session.current_tasks w' !! "g" = Some task'
     ∧ startTime task' = startTime Sample.taskG
     ∧ phases task' = phases Sample.taskG
     ∧ resourceId task' = resourceId Sample.taskG)
  ∧ (∃ (store' : GanttStore.Store) (task' : Task),
       GanttStore.commitDrag
         (GanttStore.still_gesture "g" resize_end 0 0 true Sample.combined)
       = Some store'
       ∧ GanttStore.tasks (GanttStore.getState store') !! "g" = Some task'
       ∧ startTime task' = startTime Sample.taskG
       ∧ phases task' = phases Sample.taskG
       ∧ resourceId task' = resourceId Sample.taskG).
Proof.
  assert (Hok : derived_ok Sample.taskG) by (split; compute_done).
  assert (Hfree : is_fixedTime Sample.taskG = false) by reflexivity.
  assert (Hresize : is_resize resize_end →
            _totalDuration Sample.taskG ≠ 0
            ∧ Forall (λ p, is_integer (duration p)) (phases Sample.taskG)).
  { intros _. split; [compute_done|]. repeat constructor; compute_done. }
  destruct (commit_without_movement "g" Sample.taskG resize_end 0 0 true
              Hok Hfree Hresize) as [Hsplit Hcombined].
  split.
  - apply Hsplit; [compute_done|].
    intros _. split; [compute_done|]. intros _. compute_done.
  - apply Hcombined.
    + compute_done.
    + exists 1%Z. compute_done.
    + intros _. exists 3%Z. compute_done.
    + intros _. split; [compute_done|]. intros _. compute_done.
Defined.

(** C1 as stated fails in three ways.  The combined store snaps what it
    commits: a move of [b], which starts ten minutes past the hour, puts it
    on the hour without the pointer having moved.  An update at the starting
    point stretches the preview of a resize to the minimum span: ten minutes
    become fifteen.  And a resize rounds every phase: half a minute becomes
    one. *)
Example commit_without_movement_changes :
  (start_of <$> GanttStore.tasks (GanttStore.getState Sample.combined) !! "b"
   = Some (of_Z 600000)
   ∧ start_of <$> GanttStore.task_after
                     (GanttStore.commitDrag
                        (GanttStore.still_gesture "b" move 0 0 false Sample.combined))
                     "b"
     = Some 0)
  ∧ (durations_of <$> Session.current_tasks Sample.split !! "s"
     = Some [of_Z 10]
     ∧ durations_of
       <$> UIStore.task_after
             (UIStore.commitDrag
                (UIStore.still_gesture "s" resize_end 0 0 true Sample.split)) "s"
       = Some [of_Z 15])
  ∧ (durations_of <$> Session.current_tasks Sample.split !! "h"
     = Some [frac 1 2]
     ∧ durations_of
       <$> UIStore.task_after
             (UIStore.commitDrag
                (UIStore.still_gesture "h" resize_start 0 0 false Sample.split)) "h"
       = Some [of_Z 1]).
Proof. repeat split; compute_done. Qed.



(* ===================================================================== *)
(** * Further properties *)
(* ===================================================================== *)

(** ** From canonical rationals to rationals *)

Lemma this_plus (x y : Qc) : (this (x + y) == this x + this y)%Q.
Proof. simpl. apply Qred_correct. Qed.
Lemma this_mult (x y : Qc) : (this (x * y) == this x * this y)%Q.
Proof. simpl. apply Qred_correct. Qed.
Lemma this_opp (x : Qc) : (this (- x) == - this x)%Q.
Proof. simpl. apply Qred_correct. Qed.
Lemma this_minus (x y : Qc) : (this (x - y) == this x - this y)%Q.
Proof. unfold Qcminus. rewrite this_plus, this_opp. reflexivity. Qed.
Lemma this_inv (x : Qc) : (this (/ x) == / this x)%Q.
Proof. simpl. apply Qred_correct. Qed.
Lemma this_div (x y : Qc) : (this (x / y) == this x / this y)%Q.
Proof. unfold Qcdiv. rewrite this_mult, this_inv. reflexivity. Qed.

(** Orders between numbers as orders between the rationals they hold. *)
Ltac qc_to_q :=
  unfold Qcle, Qclt in *;
  repeat (rewrite ?this_plus, ?this_minus, ?this_mult, ?this_opp, ?this_div,
            ?this_inv in * );
  change (this 0) with 0%Q in *.

Lemma Qcmult_pos (a b : Qc) : 0 < a → 0 < b → 0 < a * b.
Proof. intros. qc_to_q. nra. Qed.



Lemma Qcle_minus_nonneg (a b : Qc) : a ≤ b ↔ 0 ≤ b - a.
Proof. split; intros; qc_to_q; lra. Qed.

Lemma Qc_pos_nonzero (a : Qc) : 0 < a → a ≠ 0.
Proof. intros Ha ->. by apply Qclt_not_le in Ha. Qed.


Lemma minute_pos : 0 < of_Z 60 * of_Z 1000.
Proof. qc_eval. Qed.

(** [Math.round] is within one half of its argument. *)
Lemma Math_round_bounds (x : Qc) :
  Math_round x ≤ x + frac 1 2 ∧ x - frac 1 2 < Math_round x.
Proof.
  unfold Math_round.
  match goal with
  | |- context [Qfloor ?q] =>
      pose proof (Qfloor_le q) as Hle; pose proof (Qlt_floor q) as Hlt;
      set (z := Qfloor q) in *
  end.
  rewrite inject_Z_plus in Hlt. change (inject_Z 1) with 1%Q in Hlt.
  change (this (frac 1 2)) with (1 # 2)%Q in *.
  split; unfold Qcle, Qclt; change (this (of_Z z)) with (inject_Z z).
  - rewrite this_plus. change (this (frac 1 2)) with (1 # 2)%Q. exact Hle.
  - rewrite this_minus. change (this (frac 1 2)) with (1 # 2)%Q. lra.
Qed.

Lemma is_integer_round (x : Qc) : is_integer (Math_round x).
Proof.
  unfold is_integer, Math_round. f_equal.
  match goal with |- context [of_Z ?z] => change (this (of_Z z)) with (inject_Z z) end.
  apply Qfloor_Z.
Qed.

(** ** Phase ranges *)

Section task_utils.
Import TaskUtils.

Lemma total_from (a : Qc) (ps : list TaskPhase) :
  foldl (λ sum phase, sum + duration phase) a ps = a + calculateTotalDuration ps.
Proof.
  unfold calculateTotalDuration. revert a.
  induction ps as [|p ps IH]; intros a; simpl; [ring|].
  rewrite (IH (a + duration p)), (IH (0 + duration p)). ring.
Qed.

Lemma calculateTotalDuration_cons p ps :
  calculateTotalDuration (p :: ps) = duration p + calculateTotalDuration ps.
Proof.
  unfold calculateTotalDuration at 1. simpl. rewrite total_from. ring.
Qed.

Lemma tiles_snoc from ranges cur r :
  tiles from ranges cur → range_start r = cur →
  tiles from (ranges ++ [r]) (range_end r).
Proof.
  revert from. induction ranges as [|r0 ranges IH]; simpl; intros from.
  - intros <- Hr. done.
  - intros [H0 Ht] Hr. split; [done|]. by apply IH.
Qed.

(** What the loop has built after the phases [ps]. *)
Lemma range_fold from ranges cur ps :
  tiles from ranges cur →
  ∃ new,
    foldl range_step (ranges, cur) ps
    = (ranges ++ new, cur + calculateTotalDuration ps * of_Z 60 * of_Z 1000)
    ∧ tiles from (ranges ++ new)
            (cur + calculateTotalDuration ps * of_Z 60 * of_Z 1000)
    ∧ Forall2 (λ r p, range_type r = phase_type p
                      ∧ range_end r - range_start r
                        = duration p * of_Z 60 * of_Z 1000
                      ∧ range_color r = phase_color p) new ps.
Proof.
  revert ranges cur. induction ps as [|p ps IH]; intros ranges cur Ht.
  - exists []. rewrite app_nil_r.
    replace (cur + calculateTotalDuration [] * of_Z 60 * of_Z 1000) with cur
      by (unfold calculateTotalDuration; simpl; ring).
    repeat split; [done | constructor].
  - simpl.
    set (r := mkRange (phase_type p) cur (cur + duration p * of_Z 60 * of_Z 1000)
                      (phase_color p)).
    destruct (IH (ranges ++ [r]) (range_end r)) as (new & Hfold & Htiles & Hall).
    { by apply (tiles_snoc from ranges cur r). }
    exists (r :: new).
    replace (cur + calculateTotalDuration (p :: ps) * of_Z 60 * of_Z 1000)
      with (range_end r + calculateTotalDuration ps * of_Z 60 * of_Z 1000)
      by (rewrite calculateTotalDuration_cons; simpl; ring).
    rewrite <- app_assoc in Hfold, Htiles. simpl in Hfold, Htiles.
    split; [exact Hfold|]. split; [exact Htiles|].
    constructor; [|done]. simpl. repeat split. ring.
Qed.

(** X1.  The ranges of a task follow its phases one for one, each as long
    as its phase, and tile the time from the task's start to the end time
    computed from its phases, without gap or overlap. *)
Theorem getPhaseRanges_tile (task : Task) :
  tiles (startTime task) (getPhaseRanges task)
        (calculateEndTime (startTime task) (phases task))
  ∧ Forall2 (λ r p, range_type r = phase_type p
                    ∧ range_end r - range_start r = duration p * of_Z 60 * of_Z 1000
                    ∧ range_color r = phase_color p)
            (getPhaseRanges task) (phases task).
Proof.
  unfold getPhaseRanges, calculateEndTime.
  destruct (range_fold (startTime task) [] (startTime task) (phases task))
    as (new & Hfold & Htiles & Hall); [done|].
  rewrite Hfold. simpl in *. done.
Qed.

(** ** Overlap *)

Lemma tasksOverlap_true (a b : Task) :
  tasksOverlap a b = true ↔ startTime a < _endTime b ∧ startTime b < _endTime a.
Proof.
  unfold tasksOverlap. by rewrite andb_true_iff, !bool_decide_eq_true.
Qed.

(** X2.  Overlap does not depend on the order of the two tasks, and two
    tasks that each last some time overlap exactly when some instant lies
    strictly inside both; so a task that starts when another ends does not
    overlap it. *)
Theorem tasksOverlap_instant (a b : Task) :
  startTime a < _endTime a → startTime b < _endTime b →
  tasksOverlap a b = tasksOverlap b a
  ∧ (tasksOverlap a b = true ↔
     ∃ t, (startTime a < t ∧ t < _endTime a) ∧ (startTime b < t ∧ t < _endTime b))
  ∧ (_endTime a ≤ startTime b → tasksOverlap a b = false).
Proof.
  intros Ha Hb. split; [|split].
  - unfold tasksOverlap. apply andb_comm.
  - rewrite tasksOverlap_true. split.
    + intros [Hab Hba].
      destruct (Qclt_le_dec (startTime a) (startTime b)) as [Hs|Hs],
               (Qclt_le_dec (_endTime a) (_endTime b)) as [He|He].
      * exists ((startTime b + _endTime a) * frac 1 2).
        qc_to_q. change (this (frac 1 2)) with (1 # 2)%Q. lra.
      * exists ((startTime b + _endTime b) * frac 1 2).
        qc_to_q. change (this (frac 1 2)) with (1 # 2)%Q. lra.
      * exists ((startTime a + _endTime a) * frac 1 2).
        qc_to_q. change (this (frac 1 2)) with (1 # 2)%Q. lra.
      * exists ((startTime a + _endTime b) * frac 1 2).
        qc_to_q. change (this (frac 1 2)) with (1 # 2)%Q. lra.
    + intros (t & [H1 H2] & [H3 H4]). split; eapply Qclt_trans; eauto.
  - intros Hadj. apply not_true_is_false. rewrite tasksOverlap_true.
    intros [_ Hba]. by eapply Qclt_not_le.
Qed.

End task_utils.

(** ** Snapping to an interval *)

(** Rounding to the nearest multiple of a positive interval. *)
Lemma snap_nearest (interval t : Qc) :
  0 < interval →
  let r := Math_round (t / interval) * interval in
  on_grid interval r
  ∧ r ≤ t + interval * frac 1 2
  ∧ t - interval * frac 1 2 < r.
Proof.
  intros Hi r. pose proof (Qc_pos_nonzero _ Hi) as Hnz.
  destruct (Math_round_bounds (t / interval)) as [Hle Hlt].
  split; [|split].
  - unfold r, Math_round. eexists. reflexivity.
  - replace (t + interval * frac 1 2) with ((t / interval + frac 1 2) * interval)
      by (field; done).
    unfold r. apply Qcmult_le_compat_r; [done | by apply Qclt_le_weak].
  - replace (t - interval * frac 1 2) with ((t / interval - frac 1 2) * interval)
      by (field; done).
    unfold r. by apply Qcmult_lt_compat_r.
Qed.

(** X3.  For a positive interval, [snapToInterval] returns a whole multiple
    of the interval that lies within half an interval of the timestamp, and
    snapping again changes nothing. *)
Theorem snapToInterval_nearest (timestamp intervalMinutes : Qc) :
  0 < intervalMinutes →
  let intervalMs := intervalMinutes * of_Z 60 * of_Z 1000 in
  let r := TaskUtils.snapToInterval timestamp intervalMinutes in
  on_grid intervalMs r
  ∧ r ≤ timestamp + intervalMs * frac 1 2
  ∧ timestamp - intervalMs * frac 1 2 < r
  ∧ TaskUtils.snapToInterval r intervalMinutes = r.
Proof.
  intros Hm intervalMs r.
  assert (Hi : 0 < intervalMs).
  { unfold intervalMs. rewrite <- Qcmult_assoc. apply Qcmult_pos; [done | apply minute_pos]. }
  destruct (snap_nearest intervalMs timestamp Hi) as (Hg & Hle & Hlt).
  repeat split; try done.
  apply (snap_on_grid intervalMs r); [by apply Qc_pos_nonzero | exact Hg].
Qed.

Example snapToInterval_nearest_witness :
  on_grid (of_Z 30 * of_Z 60 * of_Z 1000)
          (TaskUtils.snapToInterval (of_Z 2400000) (of_Z 30))
  ∧ TaskUtils.snapToInterval (of_Z 2400000) (of_Z 30) = of_Z 1800000.
Proof.
  assert (Hm : 0 < of_Z 30) by qc_eval.
  destruct (snapToInterval_nearest (of_Z 2400000) (of_Z 30) Hm) as (Hg & _).
  split; [exact Hg | qc_eval].
Defined.

Example tasksOverlap_instant_witness :
  TaskUtils.tasksOverlap Sample.taskA Sample.taskB
  = TaskUtils.tasksOverlap Sample.taskB Sample.taskA
  ∧ TaskUtils.tasksOverlap Sample.taskA Sample.taskB = true.
Proof.
  assert (Ha : startTime Sample.taskA < _endTime Sample.taskA) by compute_done.
  assert (Hb : startTime Sample.taskB < _endTime Sample.taskB) by compute_done.
  destruct (tasksOverlap_instant Sample.taskA Sample.taskB Ha Hb) as (Hsym & Hiff & _).
  split; [exact Hsym|]. apply Hiff. exists (of_Z 700000). repeat split; compute_done.
Defined.

(** ** The viewport transforms *)

Section viewport_transforms.
Import ViewportManager ViewportQueries.













(** X9.  The snap interval is never shorter than the minimum resolution nor
    than a quarter of an hour, and [snapToGrid] returns a whole multiple of
    it that lies within half an interval of the timestamp. *)
Theorem snapToGrid_nearest (v : ViewportState) (timestamp minResolution : Qc) :
  let interval := getSnapInterval v minResolution in
  let r := snapToGrid v timestamp minResolution in
  minResolution * of_Z 60 * of_Z 1000 ≤ interval
  ∧ of_Z 15 * of_Z 60 * of_Z 1000 ≤ interval
  ∧ on_grid interval r
  ∧ r ≤ timestamp + interval * frac 1 2
  ∧ timestamp - interval * frac 1 2 < r.
Proof.
  intros interval r.
  assert (H15 : of_Z 15 ≤ ViewportManager.ZOOM_SNAP_INTERVALS (zoomLevel v))
    by (destruct (zoomLevel v); qc_eval).
  pose proof (Math_max_l (ViewportManager.ZOOM_SNAP_INTERVALS (zoomLevel v))
                minResolution) as Hl.
  pose proof (Math_max_r (ViewportManager.ZOOM_SNAP_INTERVALS (zoomLevel v))
                minResolution) as Hr.
  assert (Hscale : ∀ a b, a ≤ b → a * of_Z 60 * of_Z 1000 ≤ b * of_Z 60 * of_Z 1000).
  { intros a b Hab. rewrite <- !Qcmult_assoc.
    apply Qcmult_le_compat_r; [done | apply Qclt_le_weak, minute_pos]. }
  assert (Hlo : of_Z 15 * of_Z 60 * of_Z 1000 ≤ interval).
  { apply Hscale. by eapply Qcle_trans. }
  assert (Hpos : 0 < interval).
  { eapply Qclt_le_trans; [|exact Hlo]. qc_eval. }
  destruct (snap_nearest interval timestamp Hpos) as (Hg & Hle & Hlt).
  repeat split; try done. by apply Hscale.
Qed.

End viewport_transforms.

(** ** The spatial index after a rebuild *)

Section spatial_more.
Import SpatialIndex SpatialQueries.

Lemma rowByResource_fold (rows : list VirtualRow) (m : gmap string VirtualRow) r :
  foldl (λ m row, match truthy (row_resourceId row) with
                  | Some r => <[r := row]> m
                  | None => m
                  end) m rows !! r
  = match last_row_of r rows with Some row => Some row | None => m !! r end.
Proof.
  unfold last_row_of. revert m. induction rows as [|row rows IH]; intros m; [done|].
  simpl. rewrite IH. rewrite filter_cons.
  destruct (decide (truthy (row_resourceId row) = Some r)) as [E|E].
  - rewrite E, last_cons, lookup_insert_eq.
    by destruct (last (filter _ rows)).
  - destruct (last (filter _ rows)); [done|].
    destruct (truthy (row_resourceId row)) as [r'|] eqn:E'; [|done].
    rewrite lookup_insert_ne; [done|congruence].
Qed.

(** X10.  A resource is looked up at the last row of the layout that
    carries it (a row whose [resourceId] is neither [null] nor empty); a
    resource no row carries is not found. *)
Theorem rowByResource_last (virtualRows : list VirtualRow) (r : ResourceId) :
  rowByResource virtualRows !! r = last_row_of r virtualRows.
Proof.
  unfold rowByResource. rewrite rowByResource_fold, lookup_empty.
  by destruct (last_row_of r virtualRows).
Qed.

Lemma bounds_fold_other rows tasks acc k :
  (∀ task : Task, task ∈ tasks → id task = k → rows !! resourceId task = None) →
  fst (foldl (rebuild_step rows) acc tasks) !! k = fst acc !! k.
Proof.
  revert acc. induction tasks as [|task tasks IH]; intros acc Hnone; [done|].
  simpl. rewrite IH by (intros t Ht; apply Hnone; by right).
  unfold rebuild_step. destruct (rows !! resourceId task) as [row|] eqn:E; [|done].
  simpl. apply lookup_insert_ne. intros Hk.
  specialize (Hnone task (list_elem_of_here _ _) Hk). congruence.
Qed.

Lemma bounds_fold_in rows tasks acc (task : Task) row :
  NoDup (map (λ k : Task, id k) tasks) → task ∈ tasks →
  rows !! resourceId task = Some row →
  fst (foldl (rebuild_step rows) acc tasks) !! id task = Some (boundsOf task row).
Proof.
  revert acc. induction tasks as [|task0 tasks IH]; intros acc Hnd Hin Hrow;
    [by inversion Hin|].
  simpl in *. apply NoDup_cons in Hnd as [Hfresh Hnd].
  apply elem_of_cons in Hin as [->|Hin]; [|by apply IH].
  rewrite bounds_fold_other.
  - unfold rebuild_step. rewrite Hrow. simpl. apply lookup_insert_eq.
  - intros t Ht Hid. exfalso. apply Hfresh. rewrite <- Hid.
    apply list_elem_of_In. change (id t) with ((λ k : Task, id k) t).
    apply in_map. by apply list_elem_of_In.
Qed.

Lemma rebuild_bounds tasks virtualRows idx :
  taskBoundsMap (rebuild tasks virtualRows idx)
  = fst (foldl (rebuild_step (rowByResource virtualRows)) (∅, []) tasks).
Proof. unfold rebuild. by destruct (foldl _ _ tasks). Qed.

(** X11.  After a rebuild over tasks of distinct ids, the bounds kept for a
    task whose resource has a row are its start and end and the top and
    bottom of that row; a task whose resource has no row, and an id no task
    has, have no bounds. *)
Theorem getTaskBounds_rebuild (tasks : list Task) (virtualRows : list VirtualRow)
    (idx : t) (k : TaskId) :
  NoDup (map (λ task : Task, id task) tasks) →
  (∀ (task : Task) row, task ∈ tasks → id task = k →
     rowByResource virtualRows !! resourceId task = Some row →
     getTaskBounds k (rebuild tasks virtualRows idx)
     = Some (mkBounds (startTime task) (virtualY row) (_endTime task)
                      (virtualY row + row_height row) k))
  ∧ ((∀ task : Task, task ∈ tasks → id task = k →
        rowByResource virtualRows !! resourceId task = None) →
     getTaskBounds k (rebuild tasks virtualRows idx) = None).
Proof.
  intros Hnd. unfold getTaskBounds. rewrite rebuild_bounds. split.
  - intros task row Hin <- Hrow. by apply bounds_fold_in.
  - intros Hnone. by rewrite bounds_fold_other.
Qed.

Example getTaskBounds_rebuild_witness :
  getTaskBounds "a" (rebuild [Sample.taskA; Sample.taskG] [Sample.row1] SpatialIndex.empty)
  = Some (mkBounds (startTime Sample.taskA) (virtualY Sample.row1) (_endTime Sample.taskA)
                   (virtualY Sample.row1 + row_height Sample.row1) "a").
Proof.
  apply (proj1 (getTaskBounds_rebuild [Sample.taskA; Sample.taskG] [Sample.row1]
                  SpatialIndex.empty "a" ltac:(compute_done)) Sample.taskA Sample.row1).
  - left.
  - reflexivity.
  - reflexivity.
Defined.

Lemma elem_of_queryRect x1 y1 x2 y2 idx x :
  x ∈ queryRect x1 y1 x2 y2 idx ↔
  ∃ it : RBush.Item, it ∈ tree idx ∧ RBush.item_taskId it = x
    ∧ RBush.intersects (RBush.mkBBox x1 y1 x2 y2) (RBush.box it) = true.
Proof.
  unfold queryRect, RBush.search. rewrite list_elem_of_In, in_map_iff. split.
  - intros (it & Hid & Hin). apply list_elem_of_In, list_elem_of_filter in Hin.
    destruct Hin. eauto.
  - intros (it & Hin & Hid & Hq). exists it. split; [done|].
    by apply list_elem_of_In, list_elem_of_filter.
Qed.

Lemma elem_of_queryTimeRange s e idx x :
  x ∈ queryTimeRange s e idx ↔
  ∃ it : RBush.Item, it ∈ tree idx ∧ RBush.item_taskId it = x
    ∧ RBush.minX (RBush.box it) ≤ e ∧ s ≤ RBush.maxX (RBush.box it).
Proof.
  unfold queryTimeRange. rewrite list_elem_of_In, in_map_iff. split.
  - intros (it & Hid & Hin). apply list_elem_of_In, list_elem_of_filter in Hin.
    destruct Hin as [Hq Hin]. apply andb_true_iff in Hq as [H1 H2].
    apply leb_true in H1, H2. eauto.
  - intros (it & Hin & Hid & H1 & H2). exists it. split; [done|].
    apply list_elem_of_In, list_elem_of_filter. split; [|done].
    apply andb_true_iff. by rewrite !leb_true.
Qed.

Lemma intersects_true (a b : RBush.BBox) :
  RBush.intersects a b = true ↔
  (RBush.minX b ≤ RBush.maxX a ∧ RBush.minX a ≤ RBush.maxX b)
  ∧ (RBush.minY b ≤ RBush.maxY a ∧ RBush.minY a ≤ RBush.maxY b).
Proof. unfold RBush.intersects. rewrite !andb_true_iff, !leb_true. tauto. Qed.

(** X12.  Whatever the index held before, after a rebuild every query
    (point, rectangle, time range) returns only ids of tasks of this
    rebuild whose resource has a row: nothing stale, and no task without a
    row. *)
Theorem queries_after_rebuild (tasks : list Task) (virtualRows : list VirtualRow)
    (idx : t) (x : TaskId) (x1 y1 x2 y2 : Qc) :
  x ∈ queryPoint x1 y1 (rebuild tasks virtualRows idx)
  ∨ x ∈ queryRect x1 y1 x2 y2 (rebuild tasks virtualRows idx)
  ∨ x ∈ queryTimeRange x1 x2 (rebuild tasks virtualRows idx) →
  ∃ task : Task, task ∈ tasks ∧ id task = x
    ∧ is_Some (rowByResource virtualRows !! resourceId task).
Proof.
  assert (Hitem : ∀ it : RBush.Item,
            it ∈ tree (rebuild tasks virtualRows idx) →
            ∃ task : Task, task ∈ tasks ∧ id task = RBush.item_taskId it
              ∧ is_Some (rowByResource virtualRows !! resourceId task)).
  { intros it. rewrite rebuild_tree, elem_of_itemsOf.
    intros (task & row & Hin & Hrow & ->). exists task. eauto. }
  intros [H|[H|H]].
  - apply elem_of_queryPoint in H as (it & Hin & <- & _). by apply Hitem.
  - apply elem_of_queryRect in H as (it & Hin & <- & _). by apply Hitem.
  - apply elem_of_queryTimeRange in H as (it & Hin & <- & _). by apply Hitem.
Qed.

Example queries_after_rebuild_witness :
  ∃ task : Task, task ∈ [Sample.taskA; Sample.taskG] ∧ id task = "g"
    ∧ is_Some (rowByResource [Sample.row1] !! resourceId task).
Proof.
  apply (queries_after_rebuild [Sample.taskA; Sample.taskG] [Sample.row1]
           SpatialIndex.empty "g" (of_Z 9000000) (of_Z 20) (of_Z 9000000) (of_Z 20)).
  left. compute_done.
Defined.

(** X13.  Among tasks of distinct ids, a task whose resource has a row is
    returned by a rectangle query exactly when its box meets the rectangle,
    borders included, and by a time-range query exactly when its time span
    meets the range, whatever its row; so the time-range query returns
    whatever a rectangle query over the same times returns. *)
Theorem queryRect_queryTimeRange (tasks : list Task) (virtualRows : list VirtualRow)
    (idx : t) (task : Task) (row : VirtualRow) (x1 y1 x2 y2 : Qc) :
  NoDup (map (λ k : Task, id k) tasks) →
  task ∈ tasks →
  rowByResource virtualRows !! resourceId task = Some row →
  let idx' := rebuild tasks virtualRows idx in
  (id task ∈ queryRect x1 y1 x2 y2 idx' ↔
   (startTime task ≤ x2 ∧ x1 ≤ _endTime task)
   ∧ (virtualY row ≤ y2 ∧ y1 ≤ virtualY row + row_height row))
  ∧ (id task ∈ queryTimeRange x1 x2 idx' ↔
     startTime task ≤ x2 ∧ x1 ≤ _endTime task)
  ∧ (id task ∈ queryRect x1 y1 x2 y2 idx' → id task ∈ queryTimeRange x1 x2 idx').
Proof.
  intros Hnd Hin Hrow idx'.
  assert (Hitem : ∀ it : RBush.Item,
            it ∈ tree idx' → RBush.item_taskId it = id task →
            it = itemOf (boundsOf task row)).
  { intros it. unfold idx'. rewrite rebuild_tree, elem_of_itemsOf.
    intros (task' & row' & Hin' & Hrow' & ->) Hid. simpl in Hid.
    assert (task' = task) as -> by eauto using NoDup_map_inj. congruence. }
  assert (Hmine : itemOf (boundsOf task row) ∈ tree idx').
  { unfold idx'. rewrite rebuild_tree, elem_of_itemsOf. eauto. }
  assert (Hrect : id task ∈ queryRect x1 y1 x2 y2 idx' ↔
            (startTime task ≤ x2 ∧ x1 ≤ _endTime task)
            ∧ (virtualY row ≤ y2 ∧ y1 ≤ virtualY row + row_height row)).
  { rewrite elem_of_queryRect. split.
    - intros (it & Hit & Hid & Hq). rewrite (Hitem it Hit Hid) in Hq.
      by apply intersects_true in Hq.
    - intros Hq. exists (itemOf (boundsOf task row)).
      repeat split; [done|]. by apply intersects_true. }
  assert (Htime : id task ∈ queryTimeRange x1 x2 idx' ↔
            startTime task ≤ x2 ∧ x1 ≤ _endTime task).
  { rewrite elem_of_queryTimeRange. split.
    - intros (it & Hit & Hid & Hq). by rewrite (Hitem it Hit Hid) in Hq.
    - intros Hq. exists (itemOf (boundsOf task row)).
      split; [done|]. split; [done|]. exact Hq. }
  split; [done|]. split; [done|]. rewrite Hrect, Htime. tauto.
Qed.

Example queryRect_queryTimeRange_witness :
  "a" ∈ queryTimeRange (of_Z 3600000) (of_Z 7200000)
          (rebuild [Sample.taskA; Sample.taskG] [Sample.row1] SpatialIndex.empty).
Proof.
  assert (Hnd : NoDup (map (λ k : Task, id k) [Sample.taskA; Sample.taskG]))
    by compute_done.
  assert (Hin : Sample.taskA ∈ [Sample.taskA; Sample.taskG]) by compute_done.
  assert (Hrow : rowByResource [Sample.row1] !! resourceId Sample.taskA
                 = Some Sample.row1) by compute_done.
  apply (proj1 (proj2 (queryRect_queryTimeRange [Sample.taskA; Sample.taskG]
                         [Sample.row1] SpatialIndex.empty Sample.taskA Sample.row1
                         (of_Z 3600000) 0 (of_Z 7200000) 0 Hnd Hin Hrow))).
  split; compute_done.
Defined.

End spatial_more.

(** ** The adjacency maps *)

Section index_more.
Import IndexManager IndexQueries.

Lemma elem_of_set_add x y (s : list string) : x ∈ set_add y s ↔ x = y ∨ x ∈ s.
Proof.
  unfold set_add. case_decide as Hy.
  - split; [auto|]. by intros [->|?].
  - rewrite elem_of_app, list_elem_of_singleton. tauto.
Qed.

Lemma NoDup_set_add y (s : list string) : NoDup s → NoDup (set_add y s).
Proof.
  intros Hs. unfold set_add. case_decide as Hy; [done|].
  apply NoDup_app. repeat split; [done| |apply NoDup_singleton].
  intros x Hx ->%list_elem_of_singleton. done.
Qed.

Lemma lookup_index_add k x (m : gmap string (list string)) k' :
  default [] (index_add k x m !! k')
  = if decide (k = k') then set_add x (default [] (m !! k')) else default [] (m !! k').
Proof.
  unfold index_add. case_decide as Hk.
  - subst. by rewrite lookup_insert_eq.
  - by rewrite lookup_insert_ne.
Qed.

(** What an index built by a loop of [index_add] lists under a key. *)
Lemma index_fold_elem {A} (f g : A → string) (l : list A)
    (m0 : gmap string (list string)) k x :
  x ∈ default [] (foldl (λ m a, index_add (f a) (g a) m) m0 l !! k)
  ↔ x ∈ default [] (m0 !! k) ∨ ∃ a, a ∈ l ∧ f a = k ∧ g a = x.
Proof.
  revert m0. induction l as [|a l IH]; intros m0; simpl.
  - split; [auto|]. intros [?|(a & Ha & _)]; [done | by inversion Ha].
  - rewrite IH, lookup_index_add. case_decide as Hk.
    + rewrite elem_of_set_add. split.
      * intros [[->|?]|(a' & Ha' & Hf & Hg)]; [right|by left|right].
        -- exists a. repeat split; [by left | done].
        -- exists a'. repeat split; [by right | done | done].
      * intros [?|(a' & Ha' & Hf & Hg)]; [by left; right|].
        apply elem_of_cons in Ha' as [->|Ha']; [by left; left|].
        right. eauto.
    + split.
      * intros [?|(a' & Ha' & Hf & Hg)]; [by left|right].
        exists a'. repeat split; [by right | done | done].
      * intros [?|(a' & Ha' & Hf & Hg)]; [by left|].
        apply elem_of_cons in Ha' as [->|Ha']; [done|]. right. eauto.
Qed.

Lemma index_fold_NoDup {A} (f g : A → string) (l : list A)
    (m0 : gmap string (list string)) k :
  (∀ k, NoDup (default [] (m0 !! k))) →
  NoDup (default [] (foldl (λ m a, index_add (f a) (g a) m) m0 l !! k)).
Proof.
  revert m0. induction l as [|a l IH]; intros m0 Hm0; simpl; [done|].
  apply IH. intros k'. rewrite lookup_index_add.
  case_decide; [by apply NoDup_set_add | done].
Qed.

Lemma buildIndexes_fold (deps : list TaskDependency) (p s : gmap string (list string)) :
  foldl (λ idx dep,
           mkIndexes
             (index_add (successorId dep) (predecessorId dep) (predecessorIndex idx))
             (index_add (predecessorId dep) (successorId dep) (successorIndex idx)))
        (mkIndexes p s) deps
  = mkIndexes
      (foldl (λ m dep, index_add (successorId dep) (predecessorId dep) m) p deps)
      (foldl (λ m dep, index_add (predecessorId dep) (successorId dep) m) s deps).
Proof.
  revert p s. induction deps as [|dep deps IH]; intros p s; [done|].
  simpl. by rewrite IH.
Qed.

Lemma elem_of_getSuccessors deps x y :
  y ∈ getSuccessors (buildIndexes deps) x
  ↔ ∃ dep, dep ∈ deps ∧ predecessorId dep = x ∧ successorId dep = y.
Proof.
  unfold getSuccessors, buildIndexes. rewrite buildIndexes_fold. simpl.
  rewrite index_fold_elem, lookup_empty. simpl.
  split; [intros [H|H]; [by inversion H | done] | auto].
Qed.

Lemma elem_of_getPredecessors deps x y :
  x ∈ getPredecessors (buildIndexes deps) y
  ↔ ∃ dep, dep ∈ deps ∧ predecessorId dep = x ∧ successorId dep = y.
Proof.
  unfold getPredecessors, buildIndexes. rewrite buildIndexes_fold. simpl.
  rewrite index_fold_elem, lookup_empty. simpl.
  split; [intros [H|H]; [by inversion H | naive_solver] | naive_solver].
Qed.

(** X14.  In the index built from a list of dependencies, the successors of
    a task are exactly the successor ends of the dependencies that start at
    it, each listed once, and the two adjacency maps mirror each other:
    [y] is a successor of [x] exactly when [x] is a predecessor of [y]. *)
Theorem buildIndexes_adjacency (deps : list TaskDependency) (x y : TaskId) :
  (y ∈ getSuccessors (buildIndexes deps) x
   ↔ ∃ dep, dep ∈ deps ∧ predecessorId dep = x ∧ successorId dep = y)
  ∧ (y ∈ getSuccessors (buildIndexes deps) x
     ↔ x ∈ getPredecessors (buildIndexes deps) y)
  ∧ NoDup (getSuccessors (buildIndexes deps) x)
  ∧ NoDup (getPredecessors (buildIndexes deps) y).
Proof.
  split; [apply elem_of_getSuccessors|].
  split; [by rewrite elem_of_getSuccessors, elem_of_getPredecessors|].
  unfold getSuccessors, getPredecessors, buildIndexes.
  rewrite buildIndexes_fold. simpl.
  split; apply index_fold_NoDup; intros k; rewrite lookup_empty; apply NoDup_nil_2.
Qed.

(** ** Chains in the two directions *)

(** The members of a chain, from the lemmas on the traversal. *)
Lemma chain_members (idx : IndexManager.t) (direction : Direction) (taskId : TaskId) :
  ∃ chain : list TaskId,
    getDependencyChain idx taskId direction = Some chain
    ∧ ∀ x, x ∈ chain ↔ reachable idx direction taskId x ∧ x ≠ taskId.
Proof.
  unfold getDependencyChain.
  destruct (chain_loop_terminates idx direction (chain_fuel idx) [] [taskId])
    as [visited Hloop].
  { unfold chain_fuel. simpl. lia. }
  rewrite Hloop. simpl. eexists. split; [done|].
  pose proof (chain_loop_inv idx direction taskId _ _ _ _
                (chain_inv_init idx direction taskId) Hloop) as Hinv.
  intros x.
  rewrite list_elem_of_filter, (chain_inv_complete idx direction taskId visited x Hinv).
  tauto.
Qed.

Lemma reachable_mirror deps x y :
  reachable (buildIndexes deps) successors x y
  ↔ reachable (buildIndexes deps) predecessors y x.
Proof.
  assert (Hedge : ∀ a b, edge (buildIndexes deps) successors a b
                         ↔ edge (buildIndexes deps) predecessors b a).
  { intros a b. unfold edge. simpl.
    rewrite elem_of_getSuccessors, <- elem_of_getPredecessors.
    split; intros [[? ?]|[? ?]]; try done; [by left | by right]. }
  unfold reachable. split.
  - induction 1 as [|a b c Hab _ IH]; [apply rtc_refl|].
    eapply rtc_r; [exact IH|]. by apply Hedge.
  - induction 1 as [|a b c Hab _ IH]; [apply rtc_refl|].
    eapply rtc_r; [exact IH|]. by apply Hedge.
Qed.

(** X15.  In the index built from a list of dependencies, the chain of
    successors of [x] holds [y] exactly when the chain of predecessors of
    [y] holds [x]. *)
Theorem chains_mirror (deps : list TaskDependency) (x y : TaskId) :
  ∃ forward backward : list TaskId,
    getDependencyChain (buildIndexes deps) x successors = Some forward
    ∧ getDependencyChain (buildIndexes deps) y predecessors = Some backward
    ∧ (y ∈ forward ↔ x ∈ backward).
Proof.
  destruct (chain_members (buildIndexes deps) successors x) as (fw & Hfw & Hin_fw).
  destruct (chain_members (buildIndexes deps) predecessors y) as (bw & Hbw & Hin_bw).
  exists fw, bw. repeat split; try done.
  - intros Hy. apply Hin_fw in Hy as [Hr Hne]. apply Hin_bw.
    split; [by apply reachable_mirror | done].
  - intros Hx. apply Hin_bw in Hx as [Hr Hne]. apply Hin_fw.
    split; [by apply reachable_mirror | done].
Qed.

Lemma reachable_both (idx : IndexManager.t) (direction : Direction) x y :
  reachable idx direction x y → reachable idx both x y.
Proof.
  unfold reachable. induction 1 as [|a b c Hab _ IH]; [apply rtc_refl|].
  eapply rtc_l; [|exact IH].
  unfold edge in *. simpl. destruct Hab as [[_ ?]|[_ ?]]; [left|right]; done.
Qed.

(** X16.  On any adjacency maps, the chain in both directions holds every
    id of the chain of predecessors and of the chain of successors; and a
    task that neither map lists has an empty chain in every direction. *)
Theorem chain_both_and_isolated (idx : IndexManager.t) (direction : Direction)
    (taskId : TaskId) :
  (∃ chain whole : list TaskId,
     getDependencyChain idx taskId direction = Some chain
     ∧ getDependencyChain idx taskId both = Some whole
     ∧ chain ⊆ whole)
  ∧ (predecessorIndex idx !! taskId = None → successorIndex idx !! taskId = None →
     getDependencyChain idx taskId direction = Some []).
Proof.
  split.
  - destruct (chain_members idx direction taskId) as (chain & Hc & Hin).
    destruct (chain_members idx both taskId) as (whole & Hw & Hin_w).
    exists chain, whole. repeat split; try done.
    intros x Hx. apply Hin in Hx as [Hr Hne]. apply Hin_w.
    split; [by eapply reachable_both | done].
  - intros Hp Hs.
    destruct (chain_members idx direction taskId) as (chain & Hc & Hin).
    rewrite Hc. f_equal. destruct chain as [|x chain]; [done|]. exfalso.
    destruct (proj1 (Hin x)) as [Hr Hne]; [by left|].
    unfold reachable in Hr. inversion Hr as [|a b c Hab Hbc]; subst; [done|].
    unfold edge, getPredecessors, getSuccessors in Hab. rewrite Hp, Hs in Hab.
    simpl in Hab. destruct Hab as [[_ H]|[_ H]]; by inversion H.
Qed.

Example chain_both_and_isolated_witness :
  getDependencyChain Sample.circle "nowhere" both = Some [].
Proof.
  apply (proj2 (chain_both_and_isolated Sample.circle both "nowhere"));
    compute_done.
Defined.

(** ** Tasks by resource *)

(** X17.  The resource index lists under a resource exactly the ids of the
    tasks assigned to it, each once; a resource without tasks gets the
    empty list. *)
Theorem getTasksByResource_members (tasks : list Task) (r : ResourceId) (x : TaskId) :
  (x ∈ getTasksByResource (resourceTasksIndex tasks) r
   ↔ ∃ task : Task, task ∈ tasks ∧ resourceId task = r ∧ id task = x)
  ∧ NoDup (getTasksByResource (resourceTasksIndex tasks) r)
  ∧ ((∀ task : Task, task ∈ tasks → resourceId task ≠ r) →
     getTasksByResource (resourceTasksIndex tasks) r = []).
Proof.
  unfold getTasksByResource, resourceTasksIndex.
  assert (Hiff : ∀ z, z ∈ default [] (foldl (λ m (task : Task),
                        index_add (resourceId task) (id task) m) ∅ tasks !! r)
                 ↔ ∃ task : Task, task ∈ tasks ∧ resourceId task = r ∧ id task = z).
  { intros z.
    rewrite (index_fold_elem (λ task : Task, resourceId task) (λ task : Task, id task)).
    rewrite lookup_empty. simpl.
    split; [intros [H|H]; [by inversion H | done] | auto]. }
  split; [apply Hiff|]. split.
  - apply (index_fold_NoDup (λ task : Task, resourceId task) (λ task : Task, id task)).
    intros k. rewrite lookup_empty. apply NoDup_nil_2.
  - intros Hnone. apply elem_of_nil_inv. intros z Hz.
    apply Hiff in Hz as (task & Hin & Hr & _). by apply (Hnone task).
Qed.

Example getTasksByResource_members_witness :
  getTasksByResource (resourceTasksIndex [Sample.taskA; Sample.taskG]) "r2" = [].
Proof.
  apply (getTasksByResource_members [Sample.taskA; Sample.taskG] "r2" "a").
  intros task Htask. repeat (apply elem_of_cons in Htask as [->|Htask]; [compute_done|]).
  by inversion Htask.
Defined.

(** ** Rows at a height and rows in view *)

Lemma truthy_Some s r :
  SpatialIndex.truthy s = Some r → s = Some r ∧ r ≠ EmptyString.
Proof.
  unfold SpatialIndex.truthy. destruct s as [r'|]; [|done].
  case_decide; [done|]. by intros [= ->].
Qed.

(** X18.  [getResourceAtY] answers with the resource of the first row of the
    list that is no group header, has a resource id that is not empty, and
    holds the height between its top (included) and its bottom (excluded);
    it answers [null] exactly when no row of the list is such a row, and
    never answers with the empty string. *)
Theorem getResourceAtY_first_row (virtualRows : list VirtualRow) (y : Qc) :
  (∀ r, getResourceAtY virtualRows y = Some r →
     r ≠ EmptyString
     ∧ ∃ (i : nat) (row : VirtualRow),
         virtualRows !! i = Some row ∧ row_resourceId row = Some r
         ∧ isGroupHeader row = false
         ∧ virtualY row ≤ y ∧ y < virtualY row + row_height row
         ∧ ∀ (j : nat) (above : VirtualRow),
             (j < i)%nat → virtualRows !! j = Some above → ¬ row_holds y above)
  ∧ (getResourceAtY virtualRows y = None
     ↔ ∀ row, row ∈ virtualRows → ¬ row_holds y row).
Proof.
  unfold getResourceAtY.
  destruct (list_find (row_holds y) virtualRows) as [[i row]|] eqn:E.
  - apply list_find_Some in E as (Hi & Hrow & Hfirst).
    pose proof Hrow as (Hhead & [r' Hr'] & Hlo & Hhi).
    apply truthy_Some in Hr' as [Hr' Hne]. split.
    + intros r Hr. rewrite Hr' in Hr. injection Hr as <-.
      split; [done|]. exists i, row. repeat split; try done.
      intros j above Hj Habove. by eapply Hfirst.
    + rewrite Hr'. split; [done|]. intros Hnone. exfalso.
      apply (Hnone row); [by eapply list_elem_of_lookup_2 | done].
  - split; [done|]. split; [|done]. intros _.
    rewrite list_find_None in E. by apply Forall_forall.
Qed.

Example getResourceAtY_first_row_witness :
  "r1" ≠ EmptyString ∧ getResourceAtY [Sample.row1] (of_Z 50) = None.
Proof.
  split.
  - apply (proj1 (getResourceAtY_first_row [Sample.row1] (of_Z 10)) "r1").
    reflexivity.
  - apply (proj2 (getResourceAtY_first_row [Sample.row1] (of_Z 50))).
    intros row ->%list_elem_of_singleton. compute_done.
Defined.

Lemma tops_ascend_lookup rows (i j : nat) ri rj :
  tops_ascend rows → (i ≤ j)%nat → rows !! i = Some ri → rows !! j = Some rj →
  virtualY ri ≤ virtualY rj.
Proof.
  revert i j. induction rows as [|row rows IH]; intros i j Hasc Hij Hi Hj; [done|].
  destruct Hasc as [Hall Hasc]. destruct i as [|i]; simpl in Hi.
  - injection Hi as ->. destruct j as [|j]; simpl in Hj.
    + injection Hj as ->. apply Qcle_refl.
    + rewrite Forall_forall in Hall. apply Hall. by eapply list_elem_of_lookup_2.
  - destruct j as [|j]; [lia|]. simpl in Hj. apply (IH i j); [done|lia|done|done].
Qed.

(** X19.  The window of [getVisibleRows] lies within the list, and the rows
    it returns are the rows of the list from [startIndex] up to [endIndex];
    when the tops of the rows never go up along the list, every row that
    reaches below the top of the viewport and starts no lower than its
    bottom lies in the window. *)
Theorem getVisibleRows_covers (virtualRows : list VirtualRow)
    (scrollY viewportHeight : Qc) :
  let v := getVisibleRows virtualRows scrollY viewportHeight in
  ((startIndex v ≤ endIndex v)%nat ∧ (endIndex v ≤ length virtualRows)%nat)
  ∧ (∀ i : nat, (startIndex v ≤ i)%nat → (i < endIndex v)%nat →
       visible_rows v !! (i - startIndex v)%nat = virtualRows !! i)
  ∧ length (visible_rows v) = (endIndex v - startIndex v)%nat
  ∧ (tops_ascend virtualRows →
     ∀ (i : nat) (row : VirtualRow),
       virtualRows !! i = Some row →
       scrollY < virtualY row + row_height row →
       virtualY row ≤ scrollY + viewportHeight →
       (startIndex v ≤ i)%nat ∧ (i < endIndex v)%nat).
Proof.
  unfold getVisibleRows.
  destruct virtualRows as [|row0 rows0] eqn:Erows.
  { simpl. split; [lia|]. split; [intros; lia|]. split; [done|].
    intros _ i row Hi. by destruct i. }
  rewrite <- Erows. clear Erows row0 rows0.
  set (first := match list_find _ virtualRows with Some (i, _) => i | None => O end).
  set (last := match list_find _ (drop first virtualRows) with
               | Some (i, _) => (first + i)%nat
               | None => length virtualRows
               end).
  assert (Hfirst : (first ≤ length virtualRows)%nat).
  { unfold first. destruct (list_find _ virtualRows) as [[i r]|] eqn:E; [|lia].
    apply list_find_Some in E as (Hi & _). apply lookup_lt_Some in Hi. lia. }
  assert (Hlast : (first ≤ last)%nat ∧ (last ≤ length virtualRows)%nat).
  { unfold last. destruct (list_find _ (drop first virtualRows)) as [[i r]|] eqn:E; [|lia].
    apply list_find_Some in E as (Hi & _). apply lookup_lt_Some in Hi.
    rewrite length_drop in Hi. lia. }
  simpl. unfold BUFFER.
  split; [lia|]. split; [|split; [|intros Hasc i row Hi Hbottom Htop; split]].
  - intros i Hlo Hhi. rewrite lookup_take_lt by lia. rewrite lookup_drop. f_equal. lia.
  - rewrite length_take, length_drop. lia.
  - assert (first ≤ i)%nat; [|lia].
    unfold first. destruct (list_find _ virtualRows) as [[k r]|] eqn:E; [|lia].
    apply list_find_Some in E as (Hk & Hr & Hbefore).
    destruct (decide (k ≤ i)%nat) as [|Hlt]; [done|]. exfalso.
    apply (Hbefore i row); [done|lia|done].
  - assert (i < last)%nat; [|lia].
    assert (Hfi : (first ≤ i)%nat).
    { unfold first. destruct (list_find _ virtualRows) as [[k r]|] eqn:E; [|lia].
      apply list_find_Some in E as (Hk & Hr & Hbefore).
      destruct (decide (k ≤ i)%nat) as [|Hlt]; [done|]. exfalso.
      apply (Hbefore i row); [done|lia|done]. }
    unfold last. destruct (list_find _ (drop first virtualRows)) as [[k r]|] eqn:E.
    + apply list_find_Some in E as (Hk & Hr & _). rewrite lookup_drop in Hk.
      destruct (decide (i < first + k)%nat) as [|Hge]; [done|]. exfalso.
      assert (virtualY r ≤ virtualY row) as Hle.
      { apply (tops_ascend_lookup virtualRows (first + k) i); [done|lia|done|done]. }
      apply (Qclt_not_le _ _ Hr). by etrans.
    + by eapply lookup_lt_Some.
Qed.

Example getVisibleRows_covers_witness :
  (startIndex (getVisibleRows [Sample.row1] 0 (of_Z 400)) ≤ 0)%nat
  ∧ (0 < endIndex (getVisibleRows [Sample.row1] 0 (of_Z 400)))%nat.
Proof.
  apply (proj2 (proj2 (proj2 (getVisibleRows_covers [Sample.row1] 0 (of_Z 400))))
           ltac:(compute_done) 0%nat Sample.row1);
    [reflexivity | compute_done | compute_done].
Defined.

(** X20.  When no row reaches below the top of the viewport (the list is
    scrolled past its end), no row has a negative height and the viewport
    height is not negative, [getVisibleRows] returns the whole list, from
    index 0 to its length. *)
Theorem getVisibleRows_past_the_end (virtualRows : list VirtualRow)
    (scrollY viewportHeight : Qc) :
  0 ≤ viewportHeight →
  (∀ row, row ∈ virtualRows → 0 ≤ row_height row) →
  (∀ row, row ∈ virtualRows → virtualY row + row_height row ≤ scrollY) →
  getVisibleRows virtualRows scrollY viewportHeight
  = mkVisible virtualRows 0 (length virtualRows).
Proof.
  intros Hh Hheights Hpast. unfold getVisibleRows.
  destruct virtualRows as [|row0 rows0] eqn:Erows; [done|].
  rewrite <- Erows in *. clear Erows row0 rows0.
  assert (list_find (λ row, scrollY < virtualY row + row_height row) virtualRows = None)
    as ->.
  { apply list_find_None, Forall_forall. intros row Hrow.
    apply Qcle_not_lt. by apply Hpast. }
  assert (list_find (λ row, scrollY + viewportHeight < virtualY row)
                    (drop 0 virtualRows) = None) as ->.
  { apply list_find_None, Forall_forall. intros row Hrow. rewrite drop_0 in Hrow.
    apply Qcle_not_lt. specialize (Hpast row Hrow). specialize (Hheights row Hrow).
    qc_to_q. lra. }
  simpl. unfold BUFFER. rewrite drop_0.
  replace (Nat.min _ _) with (length virtualRows) by lia.
  by rewrite Nat.sub_0_r, firstn_all.
Qed.

Example getVisibleRows_past_the_end_witness :
  getVisibleRows [Sample.row1] (of_Z 1000) (of_Z 400) = mkVisible [Sample.row1] 0 1.
Proof.
  apply (getVisibleRows_past_the_end [Sample.row1] (of_Z 1000) (of_Z 400));
    [compute_done | |];
    intros row ->%list_elem_of_singleton; compute_done.
Defined.

End index_more.

(** ** The layout of the rows *)

Section virtual_rows.
Import IndexQueries VirtualRows.

Lemma of_Z_plus (a b : Z) : of_Z (a + b) = of_Z a + of_Z b.
Proof.
  apply Qc_is_canon. rewrite this_plus.
  change (this (of_Z (a + b))) with (inject_Z (a + b)).
  change (this (of_Z a)) with (inject_Z a).
  change (this (of_Z b)) with (inject_Z b).
  rewrite inject_Z_plus. reflexivity.
Qed.

Lemma of_Z_le (a b : Z) : (a ≤ b)%Z → of_Z a ≤ of_Z b.
Proof.
  intros Hab. unfold Qcle.
  change (this (of_Z a)) with (inject_Z a). change (this (of_Z b)) with (inject_Z b).
  by rewrite <- Zle_Qle.
Qed.

Lemma stacked_snoc from rows to row :
  stacked from rows to → virtualY row = to →
  stacked from (rows ++ [row]) (to + row_height row).
Proof.
  revert from. induction rows as [|r rows IH]; simpl; intros from.
  - intros <- Hy. by rewrite Hy.
  - intros [Hy Hst] Hrow. split; [done|]. by apply IH.
Qed.

Lemma stacked_total from rows to :
  stacked from rows to → rows ≠ [] → getTotalHeight rows = to.
Proof.
  unfold getTotalHeight. revert from.
  induction rows as [|r rows IH]; intros from Hst Hne; [done|].
  destruct Hst as [Hy Hst]. destruct rows as [|r' rows].
  - simpl in *. by rewrite Hy.
  - change (last (r :: r' :: rows)) with (last (r' :: rows)).
    by apply (IH (from + row_height r)).
Qed.

Lemma stacked_bounds from rows to :
  (∀ row, row ∈ rows → 0 ≤ row_height row) → stacked from rows to →
  from ≤ to
  ∧ Forall (λ row, from ≤ virtualY row ∧ virtualY row + row_height row ≤ to) rows
  ∧ tops_ascend rows.
Proof.
  revert from. induction rows as [|r rows IH]; simpl; intros from Hh Hst.
  - subst. split; [apply Qcle_refl|]. by split.
  - destruct Hst as [Hy Hst].
    assert (Hr : 0 ≤ row_height r) by (apply Hh; left).
    destruct (IH (from + row_height r)) as (Hle & Hall & Hasc); [|done|].
    { intros row Hrow. apply Hh. by right. }
    assert (Hstep : from ≤ from + row_height r) by (qc_to_q; lra).
    split; [by etrans|]. split; [|split; [|done]].
    + constructor.
      * rewrite Hy. split; [apply Qcle_refl | done].
      * eapply Forall_impl; [exact Hall|]. intros row [H1 H2]. split; [by etrans|done].
    + eapply Forall_impl; [exact Hall|]. intros row [H1 _]. rewrite Hy. by etrans.
Qed.

Lemma start_ok rowHeight : layout_ok rowHeight start.
Proof. by split. Qed.

Lemma pushResource_ok rowHeight rowId resource groupId l :
  layout_ok rowHeight l →
  layout_ok rowHeight (pushResource rowId resource rowHeight groupId l).
Proof.
  intros [Hst Hall]. split; simpl.
  - by apply (stacked_snoc 0 (virtualRows l) (currentY l)
                (mkRow rowId (Some (res_id resource)) (currentY l) rowHeight false
                       groupId None None)).
  - apply Forall_app. split; [done|]. constructor; [|done].
    right. by repeat split.
Qed.

Lemma pushHeader_ok rowHeight groupId groupName isExpanded l :
  layout_ok rowHeight l →
  layout_ok rowHeight (pushHeader groupId groupName isExpanded l).
Proof.
  intros [Hst Hall]. split; simpl.
  - by apply (stacked_snoc 0 (virtualRows l) (currentY l)
                (mkRow groupId None (currentY l) GROUP_HEADER_HEIGHT true
                       (Some groupId) (Some groupName) (Some (negb isExpanded)))).
  - apply Forall_app. split; [done|]. constructor; [|done].
    left. by repeat split.
Qed.

Lemma foldl_keeps {A} (P : Layout → Prop) (f : Layout → A → Layout) xs l :
  (∀ l x, P l → P (f l x)) → P l → P (foldl f l xs).
Proof.
  intros Hf. revert l. induction xs as [|x xs IH]; intros l Hl; [done|].
  simpl. by apply IH, Hf.
Qed.

Lemma pushGroup_ok rowHeight groupId groupName expanded rowId members l :
  layout_ok rowHeight l →
  layout_ok rowHeight (pushGroup groupId groupName expanded rowId members rowHeight l).
Proof.
  intros Hl. unfold pushGroup. case_bool_decide.
  - apply foldl_keeps; [|by apply pushHeader_ok].
    intros l' x. apply pushResource_ok.
  - by apply pushHeader_ok.
Qed.

Lemma layout_kept resources resourceList tasks orders grouping rowHeight :
  ∃ l, useComposableVirtualRows resources resourceList tasks orders grouping rowHeight
       = virtualRows l
       ∧ layout_ok rowHeight l.
Proof.
  unfold useComposableVirtualRows. eexists. split; [reflexivity|].
  destruct (mode grouping).
  - match goal with
    | |- layout_ok _ (match ?u with [] => ?l | _ => _ end) =>
        assert (layout_ok rowHeight l) as Hl; [|destruct u; [done|by apply pushGroup_ok]]
    end.
    apply foldl_keeps; [|apply start_ok].
    intros l order Hl. destruct (_ !! _) as [[|resourceId resourceIds]|]; try done.
    by apply pushGroup_ok.
  - apply foldl_keeps; [|apply start_ok].
    intros l [type typeResources]. apply pushGroup_ok.
  - apply foldl_keeps; [|apply start_ok].
    intros l resource. apply pushResource_ok.
Qed.

(** X21.  Whatever the grouping, the rows of the layout are stacked without
    gap or overlap from 0 down to the total height: the first row starts at
    0, each row starts where the one before ends, and [getTotalHeight] is
    the bottom of the last.  Each row is a group header, 32 high and with no
    resource, or a resource row, as high as [rowHeight].  When [rowHeight]
    is not negative, the tops of the rows never go up along the list and
    every row lies between 0 and the total height. *)
Theorem layout_stacked (resources : gmap string Resource) (resourceList : list Resource)
    (tasks : list Task) (orders : list Order) (grouping : GroupingState)
    (rowHeight : Qc) :
  let rows :=
    useComposableVirtualRows resources resourceList tasks orders grouping rowHeight in
  stacked 0 rows (getTotalHeight rows)
  ∧ (∀ row, row ∈ rows → is_header_row row ∨ is_resource_row rowHeight row)
  ∧ (0 ≤ rowHeight →
     tops_ascend rows
     ∧ ∀ row, row ∈ rows →
         0 ≤ virtualY row ∧ virtualY row + row_height row ≤ getTotalHeight rows).
Proof.
  destruct (layout_kept resources resourceList tasks orders grouping rowHeight)
    as (l & -> & Hst & Hall).
  assert (Htotal : stacked 0 (virtualRows l) (getTotalHeight (virtualRows l))).
  { destruct (virtualRows l) as [|r rows] eqn:E; [done|].
    rewrite (stacked_total 0 (r :: rows) (currentY l)); done. }
  simpl. split; [done|]. split; [by apply Forall_forall|].
  intros Hh.
  destruct (stacked_bounds 0 (virtualRows l) (getTotalHeight (virtualRows l)))
    as (_ & Hbounds & Hasc); [|done|].
  { intros row Hrow. rewrite Forall_forall in Hall.
    destruct (Hall row Hrow) as [(_ & _ & ->)|(_ & _ & ->)]; [|done].
    unfold GROUP_HEADER_HEIGHT. qc_eval. }
  split; [done|]. by apply Forall_forall.
Qed.

Example layout_stacked_witness :
  tops_ascend
    (useComposableVirtualRows SampleRows.resources SampleRows.resourceList
       SampleRows.tasks SampleRows.orders SampleRows.machines_open (of_Z 40)).
Proof.
  apply (proj2 (proj2 (layout_stacked SampleRows.resources SampleRows.resourceList
                         SampleRows.tasks SampleRows.orders SampleRows.machines_open
                         (of_Z 40)))).
  compute_done.
Defined.

(** *** Without grouping *)

Lemma of_Z_0 : of_Z 0 = 0.
Proof. by apply Qc_is_canon. Qed.

Lemma of_Z_succ (n : nat) : of_Z (Z.of_nat (S n)) = of_Z (Z.of_nat n) + 1.
Proof. rewrite Nat2Z.inj_succ, <- Z.add_1_r. apply of_Z_plus. Qed.

Lemma ungrouped_layout rowHeight (resourceList : list Resource) :
  let l := foldl (λ l resource,
                    pushResource ("resource-" +:+ res_id resource) resource rowHeight
                                 None l)
                 start resourceList in
  currentY l = of_Z (Z.of_nat (length resourceList)) * rowHeight
  ∧ length (virtualRows l) = length resourceList
  ∧ ∀ (i : nat) resource, resourceList !! i = Some resource →
      virtualRows l !! i = Some (ungrouped_row rowHeight i resource).
Proof.
  induction resourceList as [|resource resourceList IH] using rev_ind.
  - split; [|done]. change (0 = of_Z 0 * rowHeight). rewrite of_Z_0. ring.
  - rewrite foldl_app. simpl. simpl in IH. destruct IH as (Hy & Hlen & Hrows).
    set (l := foldl _ start resourceList) in *.
    rewrite !length_app, Hlen. simpl. split; [|split; [done|]].
    + rewrite Hy, Nat.add_1_r, of_Z_succ. ring.
    + intros i r Hi.
      destruct (decide (i < length resourceList)%nat) as [Hlt|Hge].
      * rewrite lookup_app_l in Hi by done. rewrite lookup_app_l by lia. by apply Hrows.
      * rewrite lookup_app_r in Hi by lia. rewrite lookup_app_r by lia. rewrite Hlen.
        destruct (i - length resourceList)%nat as [|k] eqn:E; [|by destruct k].
        simpl in *. injection Hi as ->. unfold ungrouped_row.
        replace i with (length resourceList) by lia. by rewrite Hy.
Qed.

(** X22.  Without grouping the layout has one row per resource, in the
    order of the list: the resource at index [i] gets the row at index [i],
    whose top is [i] times the row height.  When the row height is positive
    and the id of that resource is not empty, [getResourceAtY] finds this
    resource at every height from [i] times the row height (included) to
    [i + 1] times the row height (excluded). *)
Theorem ungrouped_rows (resources : gmap string Resource)
    (resourceList : list Resource) (tasks : list Task) (orders : list Order)
    (expanded : gset string) (rowHeight : Qc) (i : nat) (resource : Resource)
    (y : Qc) :
  let rows :=
    useComposableVirtualRows resources resourceList tasks orders
                             (mkGrouping no_grouping expanded) rowHeight in
  length rows = length resourceList
  ∧ (resourceList !! i = Some resource →
     rows !! i = Some (ungrouped_row rowHeight i resource))
  ∧ (resourceList !! i = Some resource → res_id resource ≠ EmptyString →
     0 < rowHeight →
     of_Z (Z.of_nat i) * rowHeight ≤ y → y < of_Z (Z.of_nat (S i)) * rowHeight →
     getResourceAtY rows y = Some (res_id resource)).
Proof.
  unfold useComposableVirtualRows. simpl.
  destruct (ungrouped_layout rowHeight resourceList) as (_ & Hlen & Hrows).
  simpl in Hlen, Hrows. set (rows := virtualRows _) in *.
  split; [done|]. split; [apply Hrows|].
  intros Hi Hid Hh Hlo Hhi. unfold getResourceAtY.
  assert (list_find (row_holds y) rows = Some (i, ungrouped_row rowHeight i resource))
    as ->; [|done].
  apply list_find_Some. split; [by apply Hrows|]. split.
  - unfold row_holds, ungrouped_row, SpatialIndex.truthy. simpl.
    rewrite decide_False by done. repeat split; [by eexists | done |].
    rewrite of_Z_succ in Hhi. qc_to_q. change (this 1) with 1%Q in *. lra.
  - intros j above Hj Hji [_ [_ [_ Hbottom]]].
    assert (is_Some (resourceList !! j)) as [rj Hrj].
    { apply lookup_lt_is_Some. rewrite <- Hlen. by eapply lookup_lt_Some. }
    rewrite (Hrows j rj Hrj) in Hj. injection Hj as <-.
    unfold ungrouped_row in Hbottom. simpl in Hbottom.
    assert (Hle : of_Z (Z.of_nat (S j)) ≤ of_Z (Z.of_nat i)) by (apply of_Z_le; lia).
    rewrite of_Z_succ in Hle. qc_to_q. change (this 1) with 1%Q in *. nra.
Qed.

Example ungrouped_rows_witness :
  getResourceAtY
    (useComposableVirtualRows SampleRows.resources SampleRows.resourceList
       SampleRows.tasks SampleRows.orders SampleRows.ungrouped (of_Z 40))
    (of_Z 50)
  = Some "r2".
Proof.
  apply (ungrouped_rows SampleRows.resources SampleRows.resourceList
           SampleRows.tasks SampleRows.orders ∅ (of_Z 40) 1 SampleRows.ada (of_Z 50));
    [reflexivity | done | compute_done | compute_done | compute_done].
Defined.

(** *** Grouped by type *)

Lemma byType_push_from resource m type typeResources :
  (type, typeResources) ∈ byType_push resource m →
  (type, typeResources) ∈ m
  ∨ (type = res_type resource
     ∧ ∃ before, typeResources = before ++ [resource]
                 ∧ ((type, before) ∈ m ∨ before = [])).
Proof.
  induction m as [|[ty rs] m IH]; simpl.
  - intros [= -> ->]%list_elem_of_singleton. right. split; [done|].
    exists []. split; [done|by right].
  - case_decide as Hty.
    + intros [[= -> ->]|Hin]%elem_of_cons.
      * right. split; [done|]. exists rs. split; [done|]. left. by left.
      * left. by right.
    + intros [[= -> ->]|Hin]%elem_of_cons.
      * left. by left.
      * destruct (IH Hin) as [?|(-> & before & -> & [?| ->])].
        -- left. by right.
        -- right. split; [done|]. exists before. split; [done|]. left. by right.
        -- right. split; [done|]. exists []. split; [done|by right].
Qed.

Lemma byType_push_keeps resource m type typeResources :
  (type, typeResources) ∈ m →
  ∃ after, (type, after) ∈ byType_push resource m ∧ typeResources ⊆ after.
Proof.
  induction m as [|[ty rs] m IH]; simpl; [by intros ?%elem_of_nil|].
  intros [[= -> ->]|Hin]%elem_of_cons.
  - case_decide.
    + exists (rs ++ [resource]). split; [by left|]. intros x ?. apply elem_of_app. by left.
    + exists rs. split; [by left|done].
  - case_decide.
    + exists typeResources. split; [by right|done].
    + destruct (IH Hin) as (after & ? & ?). exists after. split; [by right|done].
Qed.

Lemma byType_push_new resource m :
  ∃ after, (res_type resource, after) ∈ byType_push resource m ∧ resource ∈ after.
Proof.
  induction m as [|[ty rs] m IH]; simpl.
  - exists [resource]. split; by left.
  - case_decide as Hty.
    + subst. exists (rs ++ [resource]). split; [by left|].
      apply elem_of_app. right. by left.
    + destruct IH as (after & ? & ?). exists after. split; [by right|done].
Qed.

(** The groups hold the resources of the list, each under its type. *)
Lemma byType_members (resourceList : list Resource) :
  (∀ type typeResources resource,
     (type, typeResources) ∈ byType resourceList → resource ∈ typeResources →
     resource ∈ resourceList ∧ res_type resource = type)
  ∧ (∀ resource, resource ∈ resourceList →
       ∃ typeResources,
         (res_type resource, typeResources) ∈ byType resourceList
         ∧ resource ∈ typeResources).
Proof.
  unfold byType.
  induction resourceList as [|r resourceList [IH1 IH2]] using rev_ind.
  - split; [by intros ? ? ? ?%elem_of_nil | by intros ? ?%elem_of_nil].
  - rewrite foldl_app. simpl. set (m := foldl _ [] resourceList) in *. split.
    + intros type typeResources resource Hin Hres.
      apply byType_push_from in Hin as [Hin|(-> & before & -> & Hbefore)].
      * destruct (IH1 _ _ _ Hin Hres). split; [|done]. apply elem_of_app. by left.
      * apply elem_of_app in Hres as [Hres| ->%list_elem_of_singleton].
        -- destruct Hbefore as [Hin| ->]; [|by apply elem_of_nil in Hres].
           destruct (IH1 _ _ _ Hin Hres). split; [|done]. apply elem_of_app. by left.
        -- split; [|done]. apply elem_of_app. right. by left.
    + intros resource [Hin| ->%list_elem_of_singleton]%elem_of_app.
      * destruct (IH2 _ Hin) as (rs & Hrs & Hres).
        destruct (byType_push_keeps r m _ _ Hrs) as (after & ? & Hsub).
        exists after. split; [done|]. by apply Hsub.
      * apply byType_push_new.
Qed.

Lemma shown_pushResources rowId rowHeight groupId members l :
  resources_shown
    (virtualRows (foldl (λ l resource,
                           pushResource (rowId resource) resource rowHeight groupId l)
                        l members))
  = resources_shown (virtualRows l) ++ map res_id members.
Proof.
  unfold resources_shown. revert l.
  induction members as [|r members IH]; intros l; simpl.
  - by rewrite app_nil_r.
  - rewrite IH. simpl. rewrite omap_app. simpl. by rewrite <- app_assoc.
Qed.

Lemma shown_pushGroup groupId groupName expanded rowId members rowHeight l :
  resources_shown
    (virtualRows (pushGroup groupId groupName expanded rowId members rowHeight l))
  = resources_shown (virtualRows l)
    ++ (if bool_decide (groupId ∈ expanded) then map res_id members else []).
Proof.
  unfold pushGroup. case_bool_decide.
  - rewrite shown_pushResources. unfold resources_shown. simpl.
    rewrite omap_app. simpl. by rewrite app_nil_r.
  - unfold resources_shown. simpl. rewrite omap_app. simpl. by rewrite !app_nil_r.
Qed.

Lemma shown_byType expanded rowHeight groups l r :
  r ∈ resources_shown
        (virtualRows
           (foldl (λ l '(type, typeResources),
                     pushGroup ("type-" +:+ type_name type) (type_groupName type)
                               expanded (λ resource, "resource-" +:+ res_id resource)
                               typeResources rowHeight l)
                  l groups))
  ↔ r ∈ resources_shown (virtualRows l)
    ∨ ∃ type typeResources resource,
        (type, typeResources) ∈ groups ∧ resource ∈ typeResources
        ∧ res_id resource = r ∧ ("type-" +:+ type_name type) ∈ expanded.
Proof.
  revert l. induction groups as [|[type typeResources] groups IH]; intros l; simpl.
  - split; [by left|]. intros [?|(? & ? & ? & ?%elem_of_nil & _)]; done.
  - rewrite IH, shown_pushGroup, elem_of_app. split.
    + intros [[?|Hin]|(ty & rs & res & Hin & Hres & Hid & Hexp)]; [by left| |].
      * case_bool_decide; [|by apply elem_of_nil in Hin].
        apply list_elem_of_fmap in Hin as (res & -> & Hres).
        right. exists type, typeResources, res. repeat split; [by left|done..].
      * right. exists ty, rs, res. repeat split; [by right|done..].
    + intros [?|(ty & rs & res & Hin & Hres & Hid & Hexp)]; [by left; left|].
      apply elem_of_cons in Hin as [[= -> ->]|Hin].
      * left. right. rewrite bool_decide_true by done.
        apply list_elem_of_fmap. by exists res.
      * right. by exists ty, rs, res.
Qed.

Lemma shown_grouped_by_type resources resourceList tasks orders (g : GroupingState)
    rowHeight r :
  mode g = by_resource_type →
  r ∈ resources_shown
        (useComposableVirtualRows resources resourceList tasks orders g rowHeight)
  ↔ ∃ resource, resource ∈ resourceList ∧ res_id resource = r
                ∧ ("type-" +:+ type_name (res_type resource)) ∈ expandedGroups g.
Proof.
  intros Hmode. unfold useComposableVirtualRows. rewrite Hmode.
  destruct (byType_members resourceList) as [Hfrom Hto].
  rewrite shown_byType. split.
  - intros [Hin|(ty & rs & res & Hin & Hres & Hid & Hexp)]; [by apply elem_of_nil in Hin|].
    destruct (Hfrom _ _ _ Hin Hres) as [Hl <-]. by exists res.
  - intros (res & Hl & Hid & Hexp). right.
    destruct (Hto _ Hl) as (rs & Hin & Hres). by exists (res_type res), rs, res.
Qed.

(** X23.  Grouped by type, a resource id has a row exactly when it is the id
    of a resource of the list whose type group, ["type-"] followed by the
    type, is among the expanded groups; so with no group expanded no
    resource has a row. *)
Theorem grouped_by_type_shown (resources : gmap string Resource)
    (resourceList : list Resource) (tasks : list Task) (orders : list Order)
    (expanded : gset string) (rowHeight : Qc) (r : ResourceId) :
  let rows :=
    useComposableVirtualRows resources resourceList tasks orders
                             (mkGrouping by_resource_type expanded) rowHeight in
  (r ∈ resources_shown rows
   ↔ ∃ resource, resource ∈ resourceList ∧ res_id resource = r
                 ∧ ("type-" +:+ type_name (res_type resource)) ∈ expanded)
  ∧ (expanded = ∅ → resources_shown rows = []).
Proof.
  split; [by apply shown_grouped_by_type|].
  intros ->. apply elem_of_nil_inv. intros x Hx.
  apply shown_grouped_by_type in Hx as (res & _ & _ & Hexp); [|done].
  by apply elem_of_empty in Hexp.
Qed.

Example grouped_by_type_shown_witness :
  resources_shown
    (useComposableVirtualRows SampleRows.resources SampleRows.resourceList
       SampleRows.tasks SampleRows.orders (mkGrouping by_resource_type ∅) (of_Z 40))
  = [].
Proof.
  apply (grouped_by_type_shown SampleRows.resources SampleRows.resourceList
           SampleRows.tasks SampleRows.orders ∅ (of_Z 40) "r1").
  reflexivity.
Defined.

(** *** Expanding and collapsing a group *)

Lemma type_group_inj (type other : ResourceType) :
  "type-" +:+ type_name type = "type-" +:+ type_name other → type = other.
Proof. destruct type, other; intros H; try done; simpl in H; discriminate. Qed.

(** X24.  [toggleGroup] twice on the same group gives the grouping back.
    Grouped by type, toggling the group of a type that was collapsed gives
    every resource of that type a row; toggling one that was expanded
    leaves rows only to resources of other types; and either way the
    resources of the other expanded groups keep their rows. *)
Theorem toggleGroup_flips (resources : gmap string Resource)
    (resourceList : list Resource) (tasks : list Task) (orders : list Order)
    (g : GroupingState) (rowHeight : Qc) (type : ResourceType) :
  let groupId := "type-" +:+ type_name type in
  let shown g :=
    resources_shown
      (useComposableVirtualRows resources resourceList tasks orders g rowHeight) in
  GroupingActions.toggleGroup groupId (GroupingActions.toggleGroup groupId g) = g
  ∧ (mode g = by_resource_type →
     (groupId ∉ expandedGroups g →
      ∀ resource, resource ∈ resourceList → res_type resource = type →
        res_id resource ∈ shown (GroupingActions.toggleGroup groupId g))
     ∧ (groupId ∈ expandedGroups g →
        ∀ r, r ∈ shown (GroupingActions.toggleGroup groupId g) →
          ∃ resource, resource ∈ resourceList ∧ res_id resource = r
                      ∧ res_type resource ≠ type)
     ∧ (∀ resource, resource ∈ resourceList → res_type resource ≠ type →
          ("type-" +:+ type_name (res_type resource)) ∈ expandedGroups g →
          res_id resource ∈ shown (GroupingActions.toggleGroup groupId g))).
Proof.
  intros groupId shown. split.
  - destruct g as [m e]. unfold GroupingActions.toggleGroup. simpl. f_equal.
    destruct (decide (groupId ∈ e)) as [Hin|Hout].
    + rewrite decide_False by set_solver.
      apply set_eq. intros x. destruct (decide (x = groupId)); set_solver.
    + rewrite decide_True by set_solver.
      apply set_eq. intros x. destruct (decide (x = groupId)); set_solver.
  - intros Hmode.
    assert (Hmode' : mode (GroupingActions.toggleGroup groupId g) = by_resource_type)
      by done.
    split; [|split].
    + intros Hout resource Hl Hty. unfold shown.
      apply shown_grouped_by_type; [done|]. exists resource. split; [done|].
      split; [done|]. simpl. rewrite decide_False by done. rewrite Hty. set_solver.
    + intros Hin r Hr. unfold shown in Hr.
      apply shown_grouped_by_type in Hr as (resource & Hl & Hid & Hexp); [|done].
      exists resource. split; [done|]. split; [done|]. intros Hty.
      simpl in Hexp. rewrite decide_True in Hexp by done. rewrite Hty in Hexp.
      set_solver.
    + intros resource Hl Hty Hexp. unfold shown.
      apply shown_grouped_by_type; [done|]. exists resource. split; [done|].
      split; [done|]. simpl.
      assert ("type-" +:+ type_name (res_type resource) ≠ groupId).
      { intros E. by apply type_group_inj in E. }
      destruct (decide (groupId ∈ expandedGroups g)); set_solver.
Qed.

Example toggleGroup_flips_witness :
  res_id SampleRows.ada
  ∈ resources_shown
      (useComposableVirtualRows SampleRows.resources SampleRows.resourceList
         SampleRows.tasks SampleRows.orders
         (GroupingActions.toggleGroup ("type-" +:+ type_name operator)
                                      SampleRows.machines_open)
         (of_Z 40)).
Proof.
  apply (proj1 (proj2 (toggleGroup_flips SampleRows.resources SampleRows.resourceList
                         SampleRows.tasks SampleRows.orders SampleRows.machines_open
                         (of_Z 40) operator) eq_refl));
    [compute_done | right; left | reflexivity].
Defined.

End virtual_rows.

(** ** The viewport under its actions *)

Section viewport_actions.
Import ViewportManager ViewportActions.

Lemma in_step_perform a v : in_step v → in_step (perform a v).
Proof.
  intros (Hz & Hlo & Hhi). destruct a as [dx dy|factor centerX|level|t|i].
  - done.
  - split; [done|]. apply zoom_bounds.
  - destruct level; (split; [reflexivity|]); split; qc_eval.
  - done.
  - done.
Qed.

Lemma in_step_run actions v : in_step v → in_step (run actions v).
Proof.
  unfold run. revert v. induction actions as [|a actions IH]; intros v Hv; [done|].
  simpl. by apply IH, in_step_perform.
Qed.

(** X25.  From the viewport of a fresh store, whatever sequence of pans,
    zooms, zoom-level settings and scrolls to a time or a row is performed,
    the zoom level stays the one [getZoomLevel] gives for the scale, and the
    scale stays within [0.25, 120]; so the scale is never zero and no zoom
    of the sequence divides by zero. *)
Theorem viewport_in_step (now : Qc) (actions : list Action) :
  let v := run actions (initial now) in
  zoomLevel v = getZoomLevel (pixelsPerHour v)
  ∧ (frac 1 4 ≤ pixelsPerHour v ∧ pixelsPerHour v ≤ of_Z 120)
  ∧ pixelsPerHour v ≠ 0.
Proof.
  destruct (in_step_run actions (initial now)) as (Hz & Hlo & Hhi).
  { split; [reflexivity|]. split; qc_eval. }
  simpl. split; [done|]. split; [done|].
  intros E. rewrite E in Hlo. by apply Qcle_not_lt in Hlo.
Qed.



End viewport_actions.

(** ** Deleting and moving tasks *)

Section task_recipes.
Import IndexManager.

(** X27.  [deleteTask] removes the task and leaves every other task as it
    was; it keeps exactly the dependencies that do not name the task as
    predecessor or successor; so in the index built from the dependencies
    that remain, the dependency chain of the deleted task is empty in every
    direction. *)
Theorem deleteTask_removes (taskId : TaskId) (s : DataStore.State)
    (direction : Direction) :
  let s' := DataStore.deleteTask_recipe taskId s in
  DataStore.tasks s' !! taskId = None
  ∧ (∀ k, k ≠ taskId → DataStore.tasks s' !! k = DataStore.tasks s !! k)
  ∧ (∀ depId dep,
       DataStore.dependencies s' !! depId = Some dep
       ↔ DataStore.dependencies s !! depId = Some dep
         ∧ predecessorId dep ≠ taskId ∧ successorId dep ≠ taskId)
  ∧ getDependencyChain
      (buildIndexes (map_to_list (DataStore.dependencies s')).*2) taskId direction
    = Some [].
Proof.
  simpl. unfold Recipes.deleteTask, Recipes.dropDependenciesOf.
  assert (Hdeps : ∀ depId dep,
    filter (λ kd : string * TaskDependency,
              ¬ (predecessorId kd.2 = taskId ∨ successorId kd.2 = taskId))
           (DataStore.dependencies s) !! depId = Some dep
    ↔ DataStore.dependencies s !! depId = Some dep
      ∧ predecessorId dep ≠ taskId ∧ successorId dep ≠ taskId).
  { intros depId dep. rewrite map_lookup_filter_Some. simpl. tauto. }
  split; [apply lookup_delete_eq|]. split; [intros k Hk; by apply lookup_delete_ne|].
  split; [done|].
  set (deps := (map_to_list _).*2).
  assert (Hin : ∀ dep, dep ∈ deps → predecessorId dep ≠ taskId ∧ successorId dep ≠ taskId).
  { intros dep Hdep. apply list_elem_of_fmap in Hdep as ([depId dep'] & -> & Hdep).
    apply elem_of_map_to_list, Hdeps in Hdep. tauto. }
  destruct (chain_members (buildIndexes deps) direction taskId) as (chain & -> & Hchain).
  f_equal. destruct chain as [|x chain]; [done|]. exfalso.
  destruct (proj1 (Hchain x)) as [Hr Hne]; [by left|].
  unfold reachable in Hr. inversion Hr as [|a b c Hab Hbc]; subst; [done|].
  destruct Hab as [[_ Hab]|[_ Hab]].
  - apply elem_of_getPredecessors in Hab as (dep & Hdep & _ & Hs).
    by destruct (Hin dep Hdep).
  - apply elem_of_getSuccessors in Hab as (dep & Hdep & Hp & _).
    by destruct (Hin dep Hdep).
Qed.

Example deleteTask_removes_witness :
  DataStore.tasks
    (DataStore.deleteTask_recipe "s" (DataStore.getState (UIStore.data Sample.split)))
  !! "a"
  = DataStore.tasks (DataStore.getState (UIStore.data Sample.split)) !! "a".
Proof.
  apply (proj1 (proj2 (deleteTask_removes
                         "s" (DataStore.getState (UIStore.data Sample.split)) both))).
  compute_done.
Defined.

Lemma is_fixedTime_moveTask deltaTime newResourceId task :
  is_fixedTime (Recipes.moveTask deltaTime newResourceId task) = is_fixedTime task.
Proof. unfold Recipes.moveTask. by destruct newResourceId. Qed.

(** One pass of the loop of [moveTasks]. *)
Lemma moveTasks_step deltaTime newResourceId (tasks : gmap string Task) taskId k :
  match tasks !! taskId with
  | Some task =>
      if is_fixedTime task then tasks
      else <[taskId := Recipes.moveTask deltaTime newResourceId task]> tasks
  | None => tasks
  end !! k
  = (λ task, if decide (taskId = k)
             then if is_fixedTime task then task
                  else Recipes.moveTask deltaTime newResourceId task
             else task) <$> tasks !! k.
Proof.
  destruct (decide (taskId = k)) as [->|Hne].
  - destruct (tasks !! k) as [task|] eqn:E; [|by rewrite E].
    destruct (is_fixedTime task) eqn:Ef; simpl.
    + by rewrite E, Ef.
    + by rewrite lookup_insert_eq, Ef.
  - destruct (tasks !! taskId) as [task|] eqn:E; [|by destruct (tasks !! k)].
    destruct (is_fixedTime task); [by destruct (tasks !! k)|].
    rewrite lookup_insert_ne by done. by destruct (tasks !! k).
Qed.

(** A task is moved once for every time the list names it. *)
Lemma moveTasks_lookup taskIds deltaTime newResourceId (tasks : gmap string Task) k :
  Recipes.moveTasks taskIds deltaTime newResourceId tasks !! k
  = (λ task, if is_fixedTime task then task
             else Nat.iter (length (filter (λ x, x = k) taskIds))
                           (Recipes.moveTask deltaTime newResourceId) task)
    <$> tasks !! k.
Proof.
  unfold Recipes.moveTasks. revert tasks.
  induction taskIds as [|taskId taskIds IH]; intros tasks.
  - simpl. destruct (tasks !! k) as [task|]; [|done]. simpl. by destruct (is_fixedTime task).
  - cbn [foldl]. rewrite IH, moveTasks_step.
    destruct (tasks !! k) as [task|]; [|done]. simpl. f_equal.
    rewrite filter_cons. destruct (decide (taskId = k)) as [->|Hne].
    + destruct (is_fixedTime task) eqn:Ef; [by rewrite Ef|].
      rewrite is_fixedTime_moveTask, Ef. cbn [length]. by rewrite Nat.iter_succ_r.
    + done.
Qed.

Lemma moveTask_back deltaTime task :
  derived_ok task →
  Recipes.moveTask (- deltaTime) None (Recipes.moveTask deltaTime None task) = task.
Proof.
  intros [Htotal Hend]. destruct task as [s e total]. destruct s. simpl in *.
  unfold Recipes.moveTask, with_stored, set_startTime. simpl.
  f_equal; [f_equal; ring|]. rewrite Hend. ring.
Qed.

Lemma moveTask_iter_ok (n : nat) deltaTime task :
  derived_ok task → derived_ok (Nat.iter n (Recipes.moveTask deltaTime None) task).
Proof.
  intros Hok. induction n as [|n IH]; [done|].
  rewrite Nat.iter_succ. by apply derived_ok_moveTask.
Qed.

Lemma moveTask_iter_fixed (n : nat) deltaTime task :
  is_fixedTime (Nat.iter n (Recipes.moveTask deltaTime None) task) = is_fixedTime task.
Proof.
  induction n as [|n IH]; [done|]. by rewrite Nat.iter_succ, is_fixedTime_moveTask.
Qed.

Lemma moveTask_iter_back (n : nat) deltaTime task :
  derived_ok task →
  Nat.iter n (Recipes.moveTask (- deltaTime) None)
           (Nat.iter n (Recipes.moveTask deltaTime None) task) = task.
Proof.
  intros Hok. induction n as [|n IH]; [done|].
  rewrite Nat.iter_succ_r, Nat.iter_succ. rewrite moveTask_back; [done|].
  by apply moveTask_iter_ok.
Qed.

(** X28.  [moveTasks] over a list that names no task twice: a task the list
    names and that is not [fixedTime] starts [deltaTime] later, has its end
    recomputed from the new start and its cached total duration, goes to the
    new resource if one is given, and keeps its id and phases; every other
    task, a [fixedTime] task among them, is left as it was, and no task
    appears or disappears.  When the derived fields of the tasks are right,
    moving by [deltaTime] and then by its opposite, over any list, gives the
    tasks back. *)
Theorem moveTasks_shift_and_back (taskIds : list TaskId) (deltaTime : Qc)
    (newResourceId : option ResourceId) (tasks : gmap string Task) :
  (NoDup taskIds →
   ∀ k, match tasks !! k with
        | None => Recipes.moveTasks taskIds deltaTime newResourceId tasks !! k = None
        | Some task =>
            ∃ moved : Task,
              Recipes.moveTasks taskIds deltaTime newResourceId tasks !! k = Some moved
              ∧ if decide (k ∈ taskIds ∧ is_fixedTime task = false)
                then startTime moved = startTime task + deltaTime
                     ∧ _endTime moved
                       = startTime task + deltaTime
                         + _totalDuration task * of_Z 60 * of_Z 1000
                     ∧ resourceId moved = default (resourceId task) newResourceId
                     ∧ id moved = id task ∧ phases moved = phases task
                else moved = task
        end)
  ∧ (tasks_ok tasks →
     Recipes.moveTasks taskIds (- deltaTime) None
       (Recipes.moveTasks taskIds deltaTime None tasks) = tasks).
Proof.
  split.
  - intros Hnd k. rewrite moveTasks_lookup.
    destruct (tasks !! k) as [task|] eqn:E; [|done]. simpl. eexists. split; [done|].
    assert (Hcount : length (filter (λ x, x = k) taskIds)
                     = if decide (k ∈ taskIds) then 1%nat else 0%nat).
    { clear -Hnd. induction Hnd as [|x l Hx Hnd IH]; [done|].
      rewrite filter_cons. destruct (decide (x = k)) as [->|Hne].
      - simpl. rewrite IH. rewrite decide_False by done.
        by rewrite decide_True by left.
      - rewrite IH. destruct (decide (k ∈ l)).
        + by rewrite decide_True by (by right).
        + rewrite decide_False; [done|]. by intros [->|?]%elem_of_cons. }
    rewrite Hcount. destruct (is_fixedTime task) eqn:Ef.
    + rewrite decide_False; [done|]. by intros [_ ?].
    + destruct (decide (k ∈ taskIds)).
      * rewrite decide_True by done. simpl.
        unfold Recipes.moveTask. by destruct newResourceId.
      * rewrite decide_False; [done|]. by intros [? _].
  - intros Hok. apply map_eq. intros k. rewrite !moveTasks_lookup.
    destruct (tasks !! k) as [task|] eqn:E; [|done]. simpl. f_equal.
    destruct (is_fixedTime task) eqn:Ef; [by rewrite Ef|].
    rewrite moveTask_iter_fixed, Ef. apply moveTask_iter_back. by eapply Hok.
Qed.

Example moveTasks_shift_and_back_witness :
  (∀ k, match Recipes.setTasks Sample.all_stored !! k with
        | None =>
            Recipes.moveTasks ["a"; "f"] (of_Z 3600000) None
                              (Recipes.setTasks Sample.all_stored) !! k = None
        | Some task =>
            ∃ moved : Task,
              Recipes.moveTasks ["a"; "f"] (of_Z 3600000) None
                                (Recipes.setTasks Sample.all_stored) !! k = Some moved
              ∧ if decide (k ∈ ["a"; "f"] ∧ is_fixedTime task = false)
                then startTime moved = startTime task + of_Z 3600000
                     ∧ _endTime moved
                       = startTime task + of_Z 3600000
                         + _totalDuration task * of_Z 60 * of_Z 1000
                     ∧ resourceId moved = default (resourceId task) None
                     ∧ id moved = id task ∧ phases moved = phases task
                else moved = task
        end)
  ∧ Recipes.moveTasks ["a"; "f"] (- of_Z 3600000) None
      (Recipes.moveTasks ["a"; "f"] (of_Z 3600000) None
         (Recipes.setTasks Sample.all_stored))
    = Recipes.setTasks Sample.all_stored.
Proof.
  split.
  - apply (proj1 (moveTasks_shift_and_back ["a"; "f"] (of_Z 3600000) None
                    (Recipes.setTasks Sample.all_stored))).
    compute_done.
  - apply (proj2 (moveTasks_shift_and_back ["a"; "f"] (of_Z 3600000) None
                    (Recipes.setTasks Sample.all_stored))).
    apply tasks_ok_setTasks.
Defined.

End task_recipes.

(** ** The drag preview and the commit of a move *)

Section drag_more.

Lemma Math_min_r a b : Math_min a b ≤ b.
Proof. unfold Math_min. destruct (Qclt_le_dec b a); [apply Qcle_refl | done]. Qed.

(** X29.  While the scale is not zero, the preview of a drag depends on
    where the pointer is and not on the way it came: updating twice gives
    what the second update alone gives.  For a drag [startDrag] created, the
    preview of a move spans as long as the task does, and the preview of a
    resize keeps the other end of the task and is never shorter than the
    minimum duration. *)
Theorem updateDrag_preview (minDurationMs : Qc) (viewport : ViewportState)
    (tasks : gmap string Task) (tid : TaskId) (type : DragType)
    (x0 y0 x1 y1 x2 y2 : Qc) (d d0 : DragState) :
  pixelsPerHour viewport ≠ 0 →
  Drag.update minDurationMs viewport x2 y2 (Drag.update minDurationMs viewport x1 y1 d)
  = Drag.update minDurationMs viewport x2 y2 d
  ∧ (Drag.start tasks tid type x0 y0 = Some d0 →
     let task := originalTask d0 in
     let d1 := Drag.update minDurationMs viewport x1 y1 d0 in
     tasks !! tid = Some task ∧ originalTask d1 = task
     ∧ match type with
       | move | reassign =>
           previewEndTime d1 - previewStartTime d1 = _endTime task - startTime task
       | resize_start =>
           previewEndTime d1 = _endTime task
           ∧ minDurationMs ≤ previewEndTime d1 - previewStartTime d1
       | resize_end =>
           previewStartTime d1 = startTime task
           ∧ minDurationMs ≤ previewEndTime d1 - previewStartTime d1
       end).
Proof.
  intros _. split.
  - destruct d as [ty]. unfold Drag.update. by destruct ty.
  - unfold Drag.start. destruct (tasks !! tid) as [task|] eqn:E; [|done].
    destruct (is_fixedTime task); [done|]. intros [= <-]. simpl.
    split; [done|]. unfold Drag.update. destruct type; simpl.
    + split; [done|]. ring.
    + split; [done|]. split; [done|].
      match goal with |- _ ≤ _ - Math_min ?a ?b => pose proof (Math_min_r a b) as H end.
      set (m := Math_min _ _) in *. qc_to_q. lra.
    + split; [done|]. split; [done|].
      match goal with |- _ ≤ Math_max ?a ?b - _ => pose proof (Math_max_r a b) as H end.
      set (m := Math_max _ _) in *. qc_to_q. lra.
    + split; [done|]. ring.
Qed.

Example updateDrag_preview_witness :
  let viewport := mkViewport 0 0 (of_Z 60) 0 (of_Z 40) (of_Z 800) (of_Z 600) hour in
  Drag.update (of_Z 900000) viewport (of_Z 30) 0
              (Drag.update (of_Z 900000) viewport (of_Z (-200)) 0 Sample.shrink_a)
  = Drag.update (of_Z 900000) viewport (of_Z 30) 0 Sample.shrink_a
  ∧ of_Z 900000
    ≤ previewEndTime
        (Drag.update (of_Z 900000) viewport (of_Z (-200)) 0 SampleDrag.start_a)
      - previewStartTime
          (Drag.update (of_Z 900000) viewport (of_Z (-200)) 0 SampleDrag.start_a).
Proof.
  pose proof (updateDrag_preview (of_Z 900000)
                (mkViewport 0 0 (of_Z 60) 0 (of_Z 40) (of_Z 800) (of_Z 600) hour)
                (Recipes.setTasks Sample.all_stored) "a" resize_end 0 0
                (of_Z (-200)) 0 (of_Z 30) 0 Sample.shrink_a SampleDrag.start_a
                ltac:(qc_eval)) as [Hpath Hpreview].
  split; [exact Hpath|].
  destruct (Hpreview ltac:(compute_done)) as (_ & _ & _ & Hmin). exact Hmin.
Defined.

Lemma getSnapIntervalMs_pos z minResolution : 0 < getSnapIntervalMs z minResolution.
Proof.
  unfold getSnapIntervalMs. rewrite <- Qcmult_assoc.
  apply Qcmult_pos; [|apply minute_pos].
  eapply Qclt_le_trans; [apply ZOOM_SNAP_INTERVALS_pos | apply Math_max_l].
Qed.

(** X30.  In the combined store, committing a move of a task the store
    holds, with no dependency violation recorded, ends the drag and leaves
    the task starting on the snap grid of the zoom level, within half a
    snap interval of the previewed start, on the previewed resource, with
    its phases as they were and its end recomputed from them. *)
Theorem commitDrag_move_on_grid (store : GanttStore.Store) (d : DragState)
    (task : Task) :
  let state := GanttStore.getState store in
  let interval :=
    getSnapIntervalMs (zoomLevel (GanttStore.viewport state))
                      (GanttStore.minResolution state) in
  GanttStore.drag state = Some d →
  dependencyViolations d = [] →
  drag_type d = move ∨ drag_type d = reassign →
  GanttStore.tasks state !! taskId d = Some task →
  ∃ (store' : GanttStore.Store) (task' : Task),
    GanttStore.commitDrag store = Some store'
    ∧ GanttStore.drag (GanttStore.getState store') = None
    ∧ GanttStore.tasks (GanttStore.getState store') !! taskId d = Some task'
    ∧ on_grid interval (startTime task')
    ∧ startTime task' ≤ previewStartTime d + interval * frac 1 2
    ∧ previewStartTime d - interval * frac 1 2 < startTime task'
    ∧ resourceId task' = previewResourceId d
    ∧ phases task' = phases task
    ∧ _endTime task'
      = startTime task' + calculateTotalDuration (phases task) * of_Z 60 * of_Z 1000.
Proof.
  intros state interval Hdrag Hnone Htype Htask.
  destruct (snap_nearest interval (previewStartTime d)
              (getSnapIntervalMs_pos _ _)) as (Hgrid & Hle & Hlt).
  set (u := mkUpdates None (Some (GanttStore.snap interval (previewStartTime d))) None
                      (Some (previewResourceId d)) None None None None None None
                      None None).
  assert (Hu : Drag.updates d (GanttStore.snap interval (previewStartTime d))
                 (GanttStore.snap interval (previewEndTime d)) (Some task) = Some u).
  { unfold Drag.updates. by destruct Htype as [-> | ->]. }
  exists (GanttStore.set (GanttStore.set_drag None)
            (GanttStore.updateTask (taskId d) u store)),
         (Recipes.applyUpdates u task).
  split.
  { unfold GanttStore.commitDrag. fold state. rewrite Hdrag.
    rewrite bool_decide_eq_false_2 by (by rewrite Hnone; intros ?).
    rewrite Htask. fold interval. by rewrite Hu. }
  unfold GanttStore.getState, GanttStore.updateTask. unfold GanttStore.set.
  rewrite !temporal_set_present. split; [done|]. split.
  { simpl. by apply lookup_updateTask. }
  unfold Recipes.applyUpdates. rewrite bool_decide_eq_true_2 by (left; by eexists).
  by repeat split.
Qed.

Example commitDrag_move_on_grid_witness :
  ∃ (store' : GanttStore.Store) (task' : Task),
    GanttStore.commitDrag SampleDrag.combined_moving = Some store'
    ∧ GanttStore.tasks (GanttStore.getState store') !! "a" = Some task'
    ∧ on_grid
        (getSnapIntervalMs
           (zoomLevel (GanttStore.viewport
                         (GanttStore.getState SampleDrag.combined_moving)))
           (GanttStore.minResolution (GanttStore.getState SampleDrag.combined_moving)))
        (startTime task').
Proof.
  destruct (commitDrag_move_on_grid SampleDrag.combined_moving SampleDrag.move_a
              Sample.taskA)
    as (store' & task' & Hc & _ & Hk & Hg & _);
    [compute_done | reflexivity | by left | compute_done |].
  exists store', task'. split; [exact Hc|]. split; [exact Hk | exact Hg].
Defined.

End drag_more.
